(** * ChatSocket: connection state machine of the Mixer chat client

    A shallow embedding of [ChatSocket] (socket.ts, the revision with the
    keepalive monitor) together with [Reply] (reply.ts) and the helpers of
    util.ts.  The class is a single-threaded, event-driven object: every
    public method, transport event and timer callback is one run-to-completion
    task that mutates the fields of the instance, followed by the promise
    reactions (microtasks) it made runnable.

    The embedding keeps that shape:
    - the instance is a record [ChatSocket] holding the fields of the class and
      the run-time objects the class creates (sockets, timers, promises,
      registered listeners, the microtask queue) and a log of everything it
      does to the outside (notifications, transport calls, timers armed,
      exceptions that leave a task);
    - methods are state-passing functions in a small state-and-exception monad
      [M], one definition per source method, under the source's name;
    - closures are first-order data: a timer callback is a [TimerCb], a promise
      reaction is a [Job] or a [Reaction], a [Reply] names the call whose
      promise it settles;
    - the environment (user calls, transport events, timers firing) is the
      type [Event], and [step] runs one task and then drains the microtasks. *)

From Stdlib Require Import ZArith Lia.
From stdpp Require Import base option list gmap strings.

Open Scope string_scope.
Open Scope list_scope.

(** ** Data *)

(** [SocketState] of socket.ts. *)
Inductive SocketState :=
| Idle | Connecting | Connected | Closing | Closed | Reconnecting | Refreshing.

#[global] Instance SocketState_eq_dec : EqDecision SocketState.
Proof. solve_decision. Defined.

(** JSON text is kept abstract. *)
Definition JSON := string.

(** Values a promise is fulfilled with or a listener receives. *)
Inductive Value :=
| VUndefined
| VJson (j : JSON).

(** Values that are thrown or that reject a promise: the classes of errors.ts,
    the [TypeError] JavaScript raises for a member access on [undefined] or
    [null], the [error] member of a reply packet, whatever the transport
    reports, and the [Error] that [EventEmitter.emit] throws for an 'error'
    event nobody listens to when its argument is not an [Error] itself. *)
Inductive Err :=
| TimeoutError
| MessageParserError (message : string)
| NoMethodFound (message : string)
| AuthenticationFailedError (message : string)
| TypeError
| ReplyError (error : JSON)
| TransportError (what : string)
| UnhandledError.

(** [err instanceof TimeoutError] *)
Definition instanceof_TimeoutError (e : Err) : bool :=
  match e with TimeoutError => true | _ => false end.

(** [CallArgs = string | number | string[]]; [auth] also stores [null]. *)
Inductive CallArgs :=
| ArgString (s : string)
| ArgNumber (n : Z)
| ArgStrings (l : list string)
| ArgNull.

(** [ICallOptions]; an absent flag is [false], an absent timeout is [None]. *)
Record ICallOptions := {
  noReply : bool;
  timeout : option Z;
  force : bool;
}.

Definition no_options : ICallOptions :=
  {| noReply := false; timeout := None; force := false |}.

(** The object [call] hands to [send]:
    [{ type: 'method', method, arguments: args, id }]. *)
Record MethodPacket := {
  method : string;
  arguments : list CallArgs;
  id : Z;
}.

(** [IPacket]: an object whose member [type] is a string.  [p_error] is
    [None] when the member is absent or falsy. *)
Record IPacket := {
  p_type : string;
  p_id : Z;
  p_event : string;
  p_data : JSON;
  p_error : option JSON;
}.

(** What [JSON.parse] returns for the text of a frame. *)
Inductive Parsed :=
| PNull                        (* [null]: reading a member raises [TypeError] *)
| PPacket (packet : IPacket)
| POther (type : string).      (* any other value; [type] is the text the
                                  template literal renders for its member
                                  [type], [undefined] when there is none *)

(** An inbound frame: the [flags.binary] bit and what [JSON.parse] makes of
    the text ([None] when it throws). *)
Record Frame := {
  binary : bool;
  parsed : option Parsed;
}.

(** [IReconnectionPolicy] (socket/reconnection.ts) is used through [next] and
    [reset] only; its state is an attempt counter. *)
Record IReconnectionPolicy := {
  policy_next : nat -> Z * nat;
  policy_reset : nat -> nat;
}.

(** [ISocketOptions] after [setOptions] has applied the defaults. *)
Record ISocketOptions := {
  autoReconnect : bool;
  callTimeout : Z;
  replyTimeout : Z;
  pingInterval : Z;
  pingTimeout : Z;
  reconnectionPolicy : IReconnectionPolicy;
}.

(** State of a promise. *)
Inductive PState :=
| Pending
| Fulfilled (v : Value)
| Rejected (e : Err).

Definition is_pending (p : PState) : bool :=
  match p with Pending => true | _ => false end.

(** [Reply] of reply.ts holds the [resolve] and [reject] functions of the
    [replyPromise] of one call; the call is named by its handle. *)
Record Reply := { r_call : nat }.

(** What [Reply.handle] settles a [replyPromise] with: [resolve(packet.data)]
    or [reject(packet.error)]. *)
Inductive ReplyOutcome :=
| ReplyData (data : JSON)
| ReplyFailure (error : JSON).

Definition outcome (r : ReplyOutcome) : PState :=
  match r with
  | ReplyData d => Fulfilled (VJson d)
  | ReplyFailure e => Rejected (ReplyError e)
  end.

(** [ISpooledMethod]: [resolve] settles the promise [send] returned. *)
Record ISpooledMethod := {
  sp_resolve : nat;
  sp_data : MethodPacket;
}.

(** What is attached to the promise [call] returns. *)
Inductive Reaction :=
| NoReaction
| UnSpoolChain.   (* .then(emit authResult).then(sendPackets).catch(...) *)

(** Progress of the chain [send(...).then(...).catch(...)] of one call. *)
Inductive CallPhase :=
| AwaitSend     (* the promise of [send] is still pending *)
| Racing        (* [Promise.race([timeout(..), replyPromise])] is pending *)
| Done.         (* the race is settled, or [noReply] resolved *)

Record CallRec := {
  c_id : Z;
  c_options : ICallOptions;
  c_replyPromise : option ReplyOutcome;   (* [None] while pending *)
  c_phase : CallPhase;
  c_result : PState;
  c_reaction : Reaction;
}.

(** The promise of a spooled [send] and the call chained on it, if any. *)
Record SendRec := {
  s_state : PState;
  s_then : option nat;
}.

(** Timer callbacks. *)
Inductive TimerCb :=
| CbBoot                       (* () => this.boot() *)
| CbPing                       (* () => this.ping().catch(() => undefined) *)
| CbCallTimeout (c : nat)      (* timeout(..) raced in call c *)
| CbPingTimeout (g : nat).     (* timeout(pingTimeout) raced in ping g *)

Record TimerRec := {
  t_cb : TimerCb;
  t_delay : Z;
  t_live : bool;
}.

(** A transport instance made by [new Socket(address)]. *)
Record WsRec := {
  ws_address : option string;
  ws_wired : bool;             (* boot attached its four listeners *)
  ws_pong : list nat;          (* once('pong', resolve) of these pings *)
}.

(** Arguments of a notification. *)
Inductive Arg :=
| ANone
| AValue (v : Value)
| AError (e : Err)
| AOut (data : MethodPacket)                 (* 'debug' '>>', 'spooled' *)
| AIn (packet : IPacket)                     (* 'debug' '<<' *)
| AInNull                                    (* 'debug' '<<' null *)
| AInOther (type : string)                   (* 'debug' '<<' of any other value *)
| AReconnecting (interval : Z) (evt : Value).

(** What the instance does to the outside world, oldest first. *)
Inductive Effect :=
| Emit (name : string) (a : Arg)
| NewSocket (ws : nat) (address : option string)
| WsSend (ws : nat) (data : MethodPacket)
| WsPing (ws : nat)
| WsClose (ws : nat)
| SetTimeout (h : nat) (cb : TimerCb) (delay : Z)
| Uncaught (e : Err).

(** Promise reactions waiting in the microtask queue. *)
Inductive Job :=
| JCallThen (c : nat)                 (* then-callback of [call] *)
| JCallSettle (c : nat) (o : PState)  (* catch-callback of [call], then its reaction *)
| JPingSettle (g : nat) (o : PState). (* then/catch of [ping] *)

(** The instance. *)
Record ChatSocket := {
  (* fields of the class *)
  socket : option nat;
  options : ISocketOptions;
  state : SocketState;
  endpoints : list string;
  endpointOffset : nat;
  queue : list (string * ISpooledMethod);
  replies : gmap Z Reply;
  authPacket : option (list CallArgs);
  pingTimeoutHandle : option nat;
  reconnectTimeout : option nat;
  (* run-time objects *)
  attempts : nat;                 (* state of the reconnection policy *)
  welcomeOnce : nat;              (* once('WelcomeEvent', ..) listeners *)
  errorListeners : nat;           (* on('error', ..) listeners of the user *)
  authResultOnce : list nat;      (* once('authResult', resolve) listeners *)
  authPromises : list PState;
  sockets : list WsRec;
  timers : list TimerRec;
  sendPromises : list SendRec;
  calls : list CallRec;
  pings : list PState;
  jobs : list Job;
  random : nat -> Z;              (* draws of Math.random for call ids *)
  draws : nat;
  log : list Effect;
}.

Definition eta (x : ChatSocket) : ChatSocket :=
  Build_ChatSocket (socket x) (options x) (state x) (endpoints x)
    (endpointOffset x) (queue x) (replies x) (authPacket x)
    (pingTimeoutHandle x) (reconnectTimeout x) (attempts x) (welcomeOnce x)
    (errorListeners x) (authResultOnce x) (authPromises x) (sockets x) (timers x)
    (sendPromises x) (calls x) (pings x) (jobs x) (random x) (draws x) (log x).

(** Field update: [setter f] is [fun v x => x with f := v]. *)
Ltac setter proj :=
  let e := eval cbv delta [eta] in eta in
  match eval pattern proj in e with
  | ?s _ =>
      let t := eval cbv beta in (fun v x => s (fun _ => v) x) in
      exact t
  end.

Definition set_socket : option nat -> ChatSocket -> ChatSocket := ltac:(setter socket).
Definition set_options : ISocketOptions -> ChatSocket -> ChatSocket := ltac:(setter options).
Definition set_state : SocketState -> ChatSocket -> ChatSocket := ltac:(setter state).
Definition set_endpoints : list string -> ChatSocket -> ChatSocket := ltac:(setter endpoints).
Definition set_endpointOffset : nat -> ChatSocket -> ChatSocket := ltac:(setter endpointOffset).
Definition set_queue : list (string * ISpooledMethod) -> ChatSocket -> ChatSocket := ltac:(setter queue).
Definition set_replies : gmap Z Reply -> ChatSocket -> ChatSocket := ltac:(setter replies).
Definition set_authPacket : option (list CallArgs) -> ChatSocket -> ChatSocket := ltac:(setter authPacket).
Definition set_pingTimeoutHandle : option nat -> ChatSocket -> ChatSocket := ltac:(setter pingTimeoutHandle).
Definition set_reconnectTimeout : option nat -> ChatSocket -> ChatSocket := ltac:(setter reconnectTimeout).
Definition set_attempts : nat -> ChatSocket -> ChatSocket := ltac:(setter attempts).
Definition set_welcomeOnce : nat -> ChatSocket -> ChatSocket := ltac:(setter welcomeOnce).
Definition set_errorListeners : nat -> ChatSocket -> ChatSocket := ltac:(setter errorListeners).
Definition set_authResultOnce : list nat -> ChatSocket -> ChatSocket := ltac:(setter authResultOnce).
Definition set_authPromises : list PState -> ChatSocket -> ChatSocket := ltac:(setter authPromises).
Definition set_sockets : list WsRec -> ChatSocket -> ChatSocket := ltac:(setter sockets).
Definition set_timers : list TimerRec -> ChatSocket -> ChatSocket := ltac:(setter timers).
Definition set_sendPromises : list SendRec -> ChatSocket -> ChatSocket := ltac:(setter sendPromises).
Definition set_calls : list CallRec -> ChatSocket -> ChatSocket := ltac:(setter calls).
Definition set_pings : list PState -> ChatSocket -> ChatSocket := ltac:(setter pings).
Definition set_jobs : list Job -> ChatSocket -> ChatSocket := ltac:(setter jobs).
Definition set_draws : nat -> ChatSocket -> ChatSocket := ltac:(setter draws).
Definition set_log : list Effect -> ChatSocket -> ChatSocket := ltac:(setter log).

(** ** The monad of methods

    A method body is a function from the instance to a result and the updated
    instance; the result is a value or a thrown exception.  Effects done before
    a [throw] stay done, as in the source. *)

Inductive Res (A : Type) :=
| Ret (a : A)
| Throw (e : Err).
Arguments Ret {A} a.
Arguments Throw {A} e.

Definition M (A : Type) : Type := ChatSocket -> Res A * ChatSocket.

Definition ret {A} (a : A) : M A := fun s => (Ret a, s).
Definition throw {A} (e : Err) : M A := fun s => (Throw e, s).
Definition bind {A B} (m : M A) (k : A -> M B) : M B :=
  fun s => match m s with
           | (Ret a, s') => k a s'
           | (Throw e, s') => (Throw e, s')
           end.
Definition try_catch {A} (m : M A) (handler : Err -> M A) : M A :=
  fun s => match m s with
           | (Ret a, s') => (Ret a, s')
           | (Throw e, s') => handler e s'
           end.
Definition get {A} (f : ChatSocket -> A) : M A := fun s => (Ret (f s), s).
Definition modify (f : ChatSocket -> ChatSocket) : M unit := fun s => (Ret tt, f s).

Declare Scope js_scope.
Delimit Scope js_scope with js.
Notation "'let*' x := m 'in' k" := (bind m (fun x => k))
  (at level 10, x pattern, m at level 100, k at level 200) : js_scope.
Notation "m ;; k" := (bind m (fun _ => k))
  (at level 100, k at level 200, right associativity) : js_scope.
Open Scope js_scope.

Fixpoint forEach {A} (f : A -> M unit) (l : list A) : M unit :=
  match l with
  | [] => ret tt
  | x :: l' => f x ;; forEach f l'
  end.

(** [n] times the same listener, as [emit] does for [n] registered copies. *)
Fixpoint repeat_M (n : nat) (m : M unit) : M unit :=
  match n with
  | O => ret tt
  | S n' => m ;; repeat_M n' m
  end.

(** ** Run-time primitives *)

Definition effect (e : Effect) : M unit :=
  modify (fun s => set_log (log s ++ [e]) s).

Definition enqueue (j : Job) : M unit :=
  modify (fun s => set_jobs (jobs s ++ [j]) s).

(** [setTimeout(cb, delay)] returns the handle of a fresh, live timer. *)
Definition setTimeout (cb : TimerCb) (delay : Z) : M nat :=
  let* h := get (fun s => length (timers s)) in
  modify (fun s => set_timers
    (timers s ++ [{| t_cb := cb; t_delay := delay; t_live := true |}]) s) ;;
  effect (SetTimeout h cb delay) ;;
  ret h.

Definition disarm (t : TimerRec) : TimerRec :=
  {| t_cb := t_cb t; t_delay := t_delay t; t_live := false |}.

(** [clearTimeout(handle)]; a handle that is [undefined] or has fired is
    ignored. *)
Definition clearTimeout (handle : option nat) : M unit :=
  match handle with
  | Some h => modify (fun s => set_timers (alter disarm h (timers s)) s)
  | None => ret tt
  end.

(** [Math.floor(Math.random() * Number.MAX_SAFE_INTEGER)] *)
Definition Math_random_id : M Z :=
  let* i := get (fun s => random s (draws s)) in
  modify (fun s => set_draws (S (draws s)) s) ;;
  ret i.

(** [new Socket(address)] *)
Definition new_Socket (address : option string) : M nat :=
  let* ws := get (fun s => length (sockets s)) in
  modify (fun s => set_sockets
    (sockets s ++ [{| ws_address := address; ws_wired := false; ws_pong := [] |}]) s) ;;
  effect (NewSocket ws address) ;;
  ret ws.

(** The JavaScript [Map]: [set] on a present key replaces the value in place,
    on an absent key appends; iteration is in that order. *)
Fixpoint map_set {V} (k : string) (v : V) (m : list (string * V)) : list (string * V) :=
  match m with
  | [] => [(k, v)]
  | (k', v') :: m' =>
      if decide (k' = k) then (k, v) :: m' else (k', v') :: map_set k v m'
  end.

Definition map_delete {V} (k : string) (m : list (string * V)) : list (string * V) :=
  filter (fun kv => kv.1 <> k) m.

(** Settling promises.  A settled promise ignores later settlements. *)

Definition set_call (c : nat) (f : CallRec -> CallRec) : M unit :=
  modify (fun s => set_calls (alter f c (calls s)) s).

Definition with_phase (ph : CallPhase) (r : CallRec) : CallRec :=
  {| c_id := c_id r; c_options := c_options r; c_replyPromise := c_replyPromise r;
     c_phase := ph; c_result := c_result r; c_reaction := c_reaction r |}.
Definition with_replyPromise (o : option ReplyOutcome) (r : CallRec) : CallRec :=
  {| c_id := c_id r; c_options := c_options r; c_replyPromise := o;
     c_phase := c_phase r; c_result := c_result r; c_reaction := c_reaction r |}.
Definition with_result (o : PState) (r : CallRec) : CallRec :=
  {| c_id := c_id r; c_options := c_options r; c_replyPromise := c_replyPromise r;
     c_phase := c_phase r; c_result := o; c_reaction := c_reaction r |}.
Definition with_reaction (k : Reaction) (r : CallRec) : CallRec :=
  {| c_id := c_id r; c_options := c_options r; c_replyPromise := c_replyPromise r;
     c_phase := c_phase r; c_result := c_result r; c_reaction := k |}.

(** [resolve]/[reject] of the [replyPromise] of call [c]: the promise takes the
    outcome if it is pending, and a race waiting on it is settled. *)
Definition settle_reply (c : nat) (o : ReplyOutcome) : M unit :=
  let* r := get (fun s => calls s !! c) in
  match r with
  | Some rec =>
      match c_replyPromise rec with
      | None =>
          set_call c (with_replyPromise (Some o)) ;;
          match c_phase rec with
          | Racing => set_call c (with_phase Done) ;;
                      enqueue (JCallSettle c (outcome o))
          | _ => ret tt
          end
      | Some _ => ret tt
      end
  | None => ret tt
  end.

(** [resolve()] of the promise of a spooled [send]. *)
Definition resolve_send (h : nat) : M unit :=
  let* r := get (fun s => sendPromises s !! h) in
  match r with
  | Some rec =>
      if is_pending (s_state rec) then
        modify (fun s => set_sendPromises
          (<[h := {| s_state := Fulfilled VUndefined; s_then := s_then rec |}]> (sendPromises s)) s) ;;
        match s_then rec with
        | Some c => enqueue (JCallThen c)
        | None => ret tt
        end
      else ret tt
  | None => ret tt
  end.

(** [resolve(v)] of a promise made by [auth] while disconnected. *)
Definition resolve_auth (v : Value) (p : nat) : M unit :=
  modify (fun s => set_authPromises
    (alter (fun st => if is_pending st then Fulfilled v else st) p (authPromises s)) s).

Definition arg_value (a : Arg) : Value :=
  match a with AValue v => v | _ => VUndefined end.

(** What [EventEmitter.emit] throws for an 'error' event without a listener:
    its argument when that is an [Error], else an [Error] of its own. *)
Definition unhandled (a : Arg) : Err :=
  match a with AError e => e | _ => UnhandledError end.

(** [this.emit(name, ...)].  The class never listens to 'error': when the user
    has registered no listener for it either, [emit] throws instead of
    notifying.  Otherwise the notification is logged for the listeners outside
    the class; the [once('authResult', resolve)] listeners left by [auth] are
    run and removed.  The two other events the class listens to itself,
    'close' and 'WelcomeEvent', are dispatched by [emit_event] below; every
    other call site emits a literal name different from those two. *)
Definition emit (name : string) (a : Arg) : M unit :=
  let* unheard := get (fun s =>
    String.eqb name "error" && bool_decide (errorListeners s = 0)) in
  if unheard : bool then throw (unhandled a)
  else
    effect (Emit name a) ;;
    if String.eqb name "authResult" then
      let* ls := get authResultOnce in
      modify (set_authResultOnce []) ;;
      forEach (resolve_auth (arg_value a)) ls
    else ret tt.

(** [on(name, listener)] of [EventEmitter], called by the user.  The listeners
    of the user read the log; the instance itself depends on them only
    through [emit] looking for a listener of 'error'. *)
Definition on (name : string) : M unit :=
  if String.eqb name "error" then
    modify (fun s => set_errorListeners (S (errorListeners s)) s)
  else ret tt.

(** ** The methods of [ChatSocket] *)

(** The constructor.  [offset] is the value of
    [Math.floor(Math.random() * endpoints.length)]; the 'close' listener it
    registers is [closeHandler] below. *)
Definition new_ChatSocket (eps : list string) (opts : ISocketOptions)
    (offset : nat) (rnd : nat -> Z) : ChatSocket :=
  {| socket := None; options := opts; state := Idle; endpoints := eps;
     endpointOffset := offset; queue := []; replies := ∅; authPacket := None;
     pingTimeoutHandle := None; reconnectTimeout := None;
     attempts := 0; welcomeOnce := 0; errorListeners := 0;
     authResultOnce := []; authPromises := [];
     sockets := []; timers := []; sendPromises := []; calls := []; pings := [];
     jobs := []; random := rnd; draws := 0; log := [] |}.

(** [setEndpoints]; [offset] as in the constructor. *)
Definition setEndpoints (eps : list string) (offset : nat) : M unit :=
  modify (set_endpoints eps) ;;
  modify (set_endpointOffset offset).

Definition getState : M SocketState := get state.

Definition isConnected : M bool :=
  get (fun s => bool_decide (state s = Connected)).

(** [getAddress]: [++this.endpointOffset], reset to 0 when it reaches the
    length, then [this.endpoints[this.endpointOffset]] ([None] is
    [undefined]). *)
Definition getAddress : M (option string) :=
  modify (fun s => set_endpointOffset (S (endpointOffset s)) s) ;;
  let* over := get (fun s => bool_decide (length (endpoints s) <= endpointOffset s)) in
  (if over : bool then modify (set_endpointOffset 0) else ret tt) ;;
  get (fun s => endpoints s !! endpointOffset s).

(** [ws.on('open' | 'message' | 'close' | 'error', whilstSameSocket(..))] *)
Definition wire (ws : nat) : M unit :=
  modify (fun s => set_sockets
    (alter (fun r => {| ws_address := ws_address r; ws_wired := true;
                        ws_pong := ws_pong r |}) ws (sockets s)) s).

(** [boot]: the transport is created and stored before the state is looked
    at. *)
Definition boot : M unit :=
  let* address := getAddress in
  let* ws := new_Socket address in
  modify (set_socket (Some ws)) ;;
  let* st := get state in
  if decide (st = Closing) then
    modify (set_state Refreshing)
  else
    modify (set_state Connecting) ;;
    wire ws ;;
    modify (fun s => set_welcomeOnce (S (welcomeOnce s)) s).

(** [close] *)
Definition close : M unit :=
  let* sock := get socket in
  match sock with
  | Some ws =>
      effect (WsClose ws) ;;
      modify (set_state Closing)
  | None =>
      (let* h := get reconnectTimeout in clearTimeout h) ;;
      (let* h := get pingTimeoutHandle in clearTimeout h) ;;
      modify (set_state Closed)
  end.

(** [this.options.reconnectionPolicy.next()] *)
Definition reconnectionPolicy_next : M Z :=
  let* next := get (fun s => policy_next (reconnectionPolicy (options s)) (attempts s)) in
  modify (set_attempts next.2) ;;
  ret next.1.

(** The 'close' listener registered by the constructor. *)
Definition closeHandler (evt : Value) : M unit :=
  let* st := get state in
  if decide (st = Refreshing) then
    modify (set_state Idle) ;;
    boot
  else if decide (st = Closing) then
    modify (set_state Closed) ;;
    emit "closed" ANone ;;
    (let* h := get pingTimeoutHandle in clearTimeout h) ;;
    (let* h := get reconnectTimeout in clearTimeout h)
  else
    let* auto := get (fun s => autoReconnect (options s)) in
    if negb auto then ret tt
    else
      modify (set_state Reconnecting) ;;
      let* interval := reconnectionPolicy_next in
      emit "reconnecting" (AReconnecting interval evt) ;;
      let* h := setTimeout CbBoot interval in
      modify (set_reconnectTimeout (Some h)).

(** [resetPingTimeout] *)
Definition resetPingTimeout : M unit :=
  (let* h := get pingTimeoutHandle in clearTimeout h) ;;
  let* delay := get (fun s => pingInterval (options s)) in
  let* h := setTimeout CbPing delay in
  modify (set_pingTimeoutHandle (Some h)).

(** [this.socket.m(..)] raises [TypeError] when [this.socket] is undefined. *)
Definition this_socket : M nat :=
  let* sock := get socket in
  match sock with
  | Some ws => ret ws
  | None => throw TypeError
  end.

(** The body of an [async] function up to its end: an exception becomes the
    rejection of the returned promise. *)
Definition async (body : M unit) : M PState :=
  try_catch (body ;; ret Pending) (fun e => ret (Rejected e)).

(** [ping]; the result is the state of the promise it returns. *)
Definition ping : M PState :=
  async (
    (let* h := get pingTimeoutHandle in clearTimeout h) ;;
    let* connected := isConnected in
    if negb connected then throw TimeoutError
    else
      let* g := get (fun s => length (pings s)) in
      modify (fun s => set_pings (pings s ++ [Pending]) s) ;;
      let* delay := get (fun s => pingTimeout (options s)) in
      setTimeout (CbPingTimeout g) delay ;;
      let* ws := this_socket in
      modify (fun s => set_sockets
        (alter (fun r => {| ws_address := ws_address r; ws_wired := ws_wired r;
                            ws_pong := ws_pong r ++ [g] |}) ws (sockets s)) s) ;;
      let* ws := this_socket in
      effect (WsPing ws)).

(** What [send] returns: [Promise.resolve()] or the promise of a spooled
    packet. *)
Inductive SendResult :=
| SendResolved
| SendPending (h : nat).

(** [send].  The executor of the promise of a spooled packet stores its
    [resolve] in the spool under the method name. *)
Definition send (data : MethodPacket) (opts : ICallOptions) : M SendResult :=
  let* connected := isConnected in
  if connected || force opts then
    (let* ws := this_socket in effect (WsSend ws data)) ;;
    emit "debug" (AOut data) ;;
    ret SendResolved
  else if negb (String.eqb (method data) "auth") then
    let* h := get (fun s => length (sendPromises s)) in
    modify (fun s =>
      set_queue
        (map_set (method data)
           {| sp_resolve := length (sendPromises s); sp_data := data |} (queue s))
        (set_sendPromises
           (sendPromises s ++ [{| s_state := Pending; s_then := None |}]) s)) ;;
    emit "spooled" (AOut data) ;;
    ret (SendPending h)
  else ret SendResolved.

(** The record of a call that has just been made. *)
Definition new_call (i : Z) (opts : ICallOptions) : CallRec :=
  {| c_id := i; c_options := opts; c_replyPromise := None;
     c_phase := AwaitSend; c_result := Pending; c_reaction := NoReaction |}.

(** [call]: the result is the handle of the promise it returns.  The executor
    of [replyPromise] stores the [Reply] under the fresh id before [send] is
    called.  The chain [.then(..).catch(..)] hangs on the promise of [send]:
    it is runnable at once when that promise is already resolved. *)
Definition call (meth : string) (args : list CallArgs) (opts : ICallOptions) : M nat :=
  let* i := Math_random_id in
  let* c := get (fun s => length (calls s)) in
  modify (fun s =>
    set_replies (<[i := {| r_call := c |}]> (replies s))
      (set_calls (calls s ++ [new_call i opts]) s)) ;;
  let* sent := send {| method := meth; arguments := args; id := i |} opts in
  match sent with
  | SendResolved => enqueue (JCallThen c)
  | SendPending h =>
      modify (fun s => set_sendPromises
        (alter (fun r => {| s_state := s_state r; s_then := Some c |}) h (sendPromises s)) s)
  end ;;
  ret c.

(** [options.timeout || this.options.callTimeout] *)
Definition call_delay (opts : ICallOptions) (o : ISocketOptions) : Z :=
  match timeout opts with
  | Some t => if (t =? 0)%Z then callTimeout o else t
  | None => callTimeout o
  end.

(** The then-callback of [call], run when the promise of [send] is
    resolved. *)
Definition call_then (c : nat) : M unit :=
  let* r := get (fun s => calls s !! c) in
  match r with
  | Some rec =>
      if noReply (c_options rec) then
        set_call c (with_phase Done) ;;
        enqueue (JCallSettle c (Fulfilled VUndefined))
      else
        let* delay := get (fun s => call_delay (c_options rec) (options s)) in
        setTimeout (CbCallTimeout c) delay ;;
        match c_replyPromise rec with
        | None => set_call c (with_phase Racing)
        | Some o =>
            set_call c (with_phase Done) ;;
            enqueue (JCallSettle c (outcome o))
        end
  | None => ret tt
  end.

Definition force_only : ICallOptions :=
  {| noReply := false; timeout := None; force := true |}.

(** [sendPackets] of [unSpool].  The promise [send] returns under [force] is
    already resolved, so its [catch] never runs. *)
Definition sendPackets_each (kv : string * ISpooledMethod) : M unit :=
  let '(key, packet) := kv in
  send (sp_data packet) force_only ;;
  resolve_send (sp_resolve packet) ;;
  modify (fun s => set_queue (map_delete key (queue s)) s).

Definition sendPackets : M unit :=
  let* q := get queue in
  forEach sendPackets_each q ;;
  modify (set_state Connected) ;;
  emit "connected" ANone.

(** [unSpool] *)
Definition unSpool : M unit :=
  let* ap := get authPacket in
  match ap with
  | Some args =>
      let* c := call "auth" args force_only in
      set_call c (with_reaction UnSpoolChain)
  | None => sendPackets
  end.

(** The chain [unSpool] hangs on the re-auth call, run with the outcome of
    that call. *)
Definition unSpool_chain (o : PState) : M unit :=
  let failed : M unit :=
    emit "error" (AError (AuthenticationFailedError
      "Failed to authenticate using saved auth packet.")) ;;
    close in
  match o with
  | Fulfilled res =>
      try_catch (emit "authResult" (AValue res) ;; sendPackets) (fun _ => failed)
  | Rejected _ => failed
  | Pending => ret tt
  end.

(** The catch-callback of [call], run with the outcome of the then-callback;
    then whatever hangs on the promise [call] returned. *)
Definition call_catch (c : nat) (o : PState) : M unit :=
  let* r := get (fun s => calls s !! c) in
  match r with
  | Some rec =>
      match o with
      | Rejected e =>
          if instanceof_TimeoutError e then
            modify (fun s => set_replies (delete (c_id rec) (replies s)) s)
          else ret tt
      | _ => ret tt
      end ;;
      set_call c (with_result o) ;;
      match c_reaction rec with
      | UnSpoolChain => unSpool_chain o
      | NoReaction => ret tt
      end
  | None => ret tt
  end.

(** What [auth] returns: the promise of a call, or a promise waiting for the
    next 'authResult'. *)
Inductive AuthResult :=
| AuthCall (c : nat)
| AuthWait (p : nat).

Definition auth_args (channelId : Z) (userId : option Z) (authKey : option string)
    : list CallArgs :=
  [ArgNumber channelId; from_option ArgNumber ArgNull userId;
   from_option ArgString ArgNull authKey].

(** [auth] *)
Definition auth (channelId : Z) (userId : option Z) (authKey : option string)
    : M AuthResult :=
  modify (set_authPacket (Some (auth_args channelId userId authKey))) ;;
  let* connected := isConnected in
  if connected : bool then
    let* c := call "auth" (auth_args channelId userId authKey) no_options in
    ret (AuthCall c)
  else
    let* p := get (fun s => length (authPromises s)) in
    modify (fun s => set_authPromises (authPromises s ++ [Pending]) s) ;;
    modify (fun s => set_authResultOnce (authResultOnce s ++ [p]) s) ;;
    ret (AuthWait p).

(** The listener [boot] registers with [once('WelcomeEvent', ..)]. *)
Definition welcomeHandler (data : Value) : M unit :=
  modify (fun s => set_attempts
    (policy_reset (reconnectionPolicy (options s)) (attempts s)) s) ;;
  (let* st := get state in
   if decide (st = Reconnecting) then emit "reconnected" ANone else ret tt) ;;
  modify (set_state Connected) ;;
  resetPingTimeout ;;
  emit "ready" (AValue data) ;;
  unSpool.

(** [this.emit(name, data)] for a name that is not a literal of the source:
    besides [emit], the listeners the class keeps for 'close' (one, for
    good) and 'WelcomeEvent' (one per [boot], each run once). *)
Definition emit_event (name : string) (a : Arg) : M unit :=
  emit name a ;;
  if String.eqb name "close" then closeHandler (arg_value a)
  else if String.eqb name "WelcomeEvent" then
    let* n := get welcomeOnce in
    repeat_M n (modify (fun s => set_welcomeOnce (pred (welcomeOnce s)) s) ;;
                welcomeHandler (arg_value a))
  else ret tt.

(** [Reply.handle] of reply.ts *)
Definition Reply_handle (r : Reply) (packet : IPacket) : M unit :=
  match p_error packet with
  | Some e => settle_reply (r_call r) (ReplyFailure e)
  | None => settle_reply (r_call r) (ReplyData (p_data packet))
  end.

(** [parsePacket] *)
Definition parsePacket (f : Frame) : M unit :=
  if binary f then
    emit "error" (AError (MessageParserError "Somehow got a binary packet?"))
  else
    match parsed f with
    | None =>
        emit "error" (AError (MessageParserError "Unable to parse the packet as JSON."))
    | Some PNull =>
        emit "debug" AInNull ;;
        throw TypeError
    | Some (POther type) =>
        emit "debug" (AInOther type) ;;
        emit "error" (AError (MessageParserError
          ("Unknown packet found " ++ type)%string))
    | Some (PPacket packet) =>
        emit "debug" (AIn packet) ;;
        if String.eqb (p_type packet) "reply" then
          let* r := get (fun s => replies s !! p_id packet) in
          match r with
          | Some reply =>
              Reply_handle reply packet ;;
              modify (fun s => set_replies (delete (p_id packet) (replies s)) s)
          | None =>
              emit "error" (AError (NoMethodFound "No handler for reply Id."))
          end
        else if String.eqb (p_type packet) "event" then
          emit_event (p_event packet) (AValue (VJson (p_data packet)))
        else
          emit "error" (AError (MessageParserError
            ("Unknown packet found " ++ p_type packet)%string))
    end.

(** ** Callbacks: transport listeners, timers, promise reactions *)

(** [whilstSameSocket(fn)] on the socket [ws] that [boot] wired. *)
Definition whilstSameSocket (ws : nat) (fn : M unit) : M unit :=
  let* wired := get (fun s =>
    match sockets s !! ws with Some r => ws_wired r | None => false end) in
  let* same := get (fun s => bool_decide (socket s = Some ws)) in
  if wired && same then fn else ret tt.

Definition ws_on_open (ws : nat) : M unit :=
  whilstSameSocket ws (emit "open" ANone).

Definition ws_on_message (ws : nat) (f : Frame) : M unit :=
  whilstSameSocket ws (resetPingTimeout ;; parsePacket f).

Definition ws_on_close (ws : nat) (evt : Value) : M unit :=
  whilstSameSocket ws (emit_event "close" (AValue evt)).

Definition ws_on_error (ws : nat) (err : Err) : M unit :=
  whilstSameSocket ws (
    let* st := get state in
    if decide (st = Closing) then ret tt
    else emit "error" (AError err) ;; effect (WsClose ws)).

(** A settlement of one of the two promises raced by ping [g]. *)
Definition settle_ping (g : nat) (o : PState) : M unit :=
  let* st := get (fun s => pings s !! g) in
  match st with
  | Some Pending =>
      modify (fun s => set_pings (<[g := o]> (pings s)) s) ;;
      enqueue (JPingSettle g o)
  | _ => ret tt
  end.

(** The [once('pong', resolve)] listeners of socket [ws]. *)
Definition ws_on_pong (ws : nat) : M unit :=
  let* gs := get (fun s =>
    match sockets s !! ws with Some r => ws_pong r | None => [] end) in
  modify (fun s => set_sockets
    (alter (fun r => {| ws_address := ws_address r; ws_wired := ws_wired r;
                        ws_pong := [] |}) ws (sockets s)) s) ;;
  forEach (fun g => settle_ping g (Fulfilled VUndefined)) gs.

(** [timeout(..)] of util.ts rejecting inside the race of call [c]. *)
Definition timeout_call (c : nat) : M unit :=
  let* r := get (fun s => calls s !! c) in
  match r with
  | Some rec =>
      match c_phase rec with
      | Racing => set_call c (with_phase Done) ;;
                  enqueue (JCallSettle c (Rejected TimeoutError))
      | _ => ret tt
      end
  | None => ret tt
  end.

Definition run_timer (cb : TimerCb) : M unit :=
  match cb with
  | CbBoot => boot
  | CbPing => ping ;; ret tt
  | CbCallTimeout c => timeout_call c
  | CbPingTimeout g => settle_ping g (Rejected TimeoutError)
  end.

(** Timer [h] expires: a live timer runs its callback once. *)
Definition fire (h : nat) : M unit :=
  let* t := get (fun s => timers s !! h) in
  match t with
  | Some t =>
      if t_live t then clearTimeout (Some h) ;; run_timer (t_cb t) else ret tt
  | None => ret tt
  end.

(** [.then(this.resetPingTimeout.bind(this)).catch(err => ..)] of [ping]. *)
Definition ping_settle (o : PState) : M unit :=
  match o with
  | Fulfilled _ => resetPingTimeout
  | Rejected e =>
      if instanceof_TimeoutError e then
        emit "error" (AError e) ;;
        let* ws := this_socket in
        effect (WsClose ws)
      else throw e
  | Pending => ret tt
  end.

(** One promise reaction.  What [ping_settle] throws rejects the promise
    [ping] returned, which [resetPingTimeout] gave a [catch(() => undefined)].
    What the other reactions throw rejects the promise of a chain that the
    class does not hold: the instance stays as the exception left it. *)
Definition run_job (j : Job) : M unit :=
  match j with
  | JCallThen c => call_then c
  | JCallSettle c o => call_catch c o
  | JPingSettle g o => try_catch (ping_settle o) (fun _ => ret tt)
  end.

(** The microtask queue is emptied in order after every task. *)
Fixpoint run_jobs (fuel : nat) (s : ChatSocket) : ChatSocket :=
  match fuel with
  | O => s
  | S fuel' =>
      match jobs s with
      | [] => s
      | j :: js => run_jobs fuel' (run_job j (set_jobs js s)).2
      end
  end.

(** A then-callback makes at most one more job; a settlement may flush the
    spool, which makes at most one then-callback per spooled packet. *)
Definition job_weight (j : Job) : nat :=
  match j with JCallThen _ => 2 | _ => 1 end.

Definition weight (s : ChatSocket) : nat :=
  sum_list_with job_weight (jobs s) + 2 * length (queue s).

Definition drain (s : ChatSocket) : ChatSocket := run_jobs (weight s) s.
Arguments drain : simpl never.

(** ** Tasks *)

Inductive Event :=
(* the public methods *)
| Boot
| Close
| Send (data : MethodPacket) (opts : ICallOptions)
| Call (meth : string) (args : list CallArgs) (opts : ICallOptions)
| Auth (channelId : Z) (userId : option Z) (authKey : option string)
| SetEndpoints (eps : list string) (offset : nat)
| ParsePacket (f : Frame)
| On (name : string)
(* the transport *)
| WsOpenEvent (ws : nat)
| WsMessageEvent (ws : nat) (f : Frame)
| WsCloseEvent (ws : nat) (evt : Value)
| WsErrorEvent (ws : nat) (err : Err)
| WsPongEvent (ws : nat)
(* the clock *)
| TimerExpires (h : nat).

Definition task (ev : Event) : M unit :=
  match ev with
  | Boot => boot
  | Close => close
  | Send data opts => send data opts ;; ret tt
  | Call meth args opts => call meth args opts ;; ret tt
  | Auth channelId userId authKey => auth channelId userId authKey ;; ret tt
  | SetEndpoints eps offset => setEndpoints eps offset
  | ParsePacket f => parsePacket f
  | On name => on name
  | WsOpenEvent ws => ws_on_open ws
  | WsMessageEvent ws f => ws_on_message ws f
  | WsCloseEvent ws evt => ws_on_close ws evt
  | WsErrorEvent ws err => ws_on_error ws err
  | WsPongEvent ws => ws_on_pong ws
  | TimerExpires h => fire h
  end.

(** The instance after a method body: what it threw goes to its caller. *)
Definition after {A} (m : M A) (s : ChatSocket) : ChatSocket :=
  match m s with
  | (Ret _, s') => s'
  | (Throw e, s') => set_log (log s' ++ [Uncaught e]) s'
  end.

(** One task and the microtasks it leaves. *)
Definition step (s : ChatSocket) (ev : Event) : ChatSocket :=
  drain (after (task ev) s).

Definition run (s : ChatSocket) (evs : list Event) : ChatSocket :=
  fold_left step evs s.

(** ** The earlier revision of socket.ts

    [boot] and [close] as they were before the keepalive monitor was added. *)
Module V1.

Definition boot : M unit :=
  let* st := get state in
  if decide (st = Closing) then
    modify (set_state Refreshing)
  else
    let* wss := getAddress in
    let* ws := new_Socket wss in
    modify (set_socket (Some ws)) ;;
    modify (set_state Connecting) ;;
    wire ws.

Definition close : M unit :=
  let* sock := get socket in
  match sock with
  | Some ws =>
      effect (WsClose ws) ;;
      modify (set_state Closing)
  | None =>
      clearTimeout None ;;
      modify (set_state Closed)
  end.

End V1.

(** ** Observations used in the statements *)

(** The packets handed to a transport, in order. *)
Definition sent (l : list Effect) : list MethodPacket :=
  omap (fun e => match e with WsSend _ d => Some d | _ => None end) l.

(** The names of the notifications emitted, in order. *)
Definition emitted (l : list Effect) : list string :=
  omap (fun e => match e with Emit name _ => Some name | _ => None end) l.

(** The transports on which [close] was called, in order. *)
Definition closes (l : list Effect) : list nat :=
  omap (fun e => match e with WsClose ws => Some ws | _ => None end) l.

(** What [step] appended to the log. *)
Definition new_log (s s' : ChatSocket) : list Effect :=
  drop (length (log s)) (log s').

(** The notification [sendPackets] emits when it is done. *)
Definition connected : Effect := Emit "connected" ANone.


(** The addresses returned by [k] successive calls of [getAddress]. *)
Fixpoint getAddresses (k : nat) (s : ChatSocket) : list (option string) :=
  match k with
  | O => []
  | S k' =>
      match getAddress s with
      | (Ret a, s') => a :: getAddresses k' s'
      | (Throw _, _) => []
      end
  end.

(** Timer [h] will not run its callback any more. *)
Definition cleared (h : option nat) (s : ChatSocket) : Prop :=
  forall i t, h = Some i -> timers s !! i = Some t -> t_live t = false.

(** Sample instances for the closed examples. *)
Definition sample_policy : IReconnectionPolicy :=
  {| policy_next := fun n => (Z.of_nat (1000 * 2 ^ n), S n);
     policy_reset := fun _ => 0 |}.

(** [getDefaults()] of util.ts, with the sample policy. *)
Definition getDefaults : ISocketOptions :=
  {| autoReconnect := true; callTimeout := 20 * 1000; replyTimeout := 10000;
     pingInterval := 15 * 1000; pingTimeout := 5 * 1000;
     reconnectionPolicy := sample_policy |}.

Definition no_autoReconnect : ISocketOptions :=
  {| autoReconnect := false; callTimeout := 20 * 1000; replyTimeout := 10000;
     pingInterval := 15 * 1000; pingTimeout := 5 * 1000;
     reconnectionPolicy := sample_policy |}.

Definition sample (opts : ISocketOptions) : ChatSocket :=
  new_ChatSocket ["wss://chat1"; "wss://chat2"; "wss://chat3"] opts 2
    (fun n => Z.of_nat (100 + n)).

Definition WelcomeEvent : Frame :=
  {| binary := false;
     parsed := Some (PPacket {| p_type := "event"; p_id := 0;
                                p_event := "WelcomeEvent";
                                p_data := "{}"; p_error := None |}) |}.

Definition reply_ok (i : Z) : Frame :=
  {| binary := false;
     parsed := Some (PPacket {| p_type := "reply"; p_id := i; p_event := "";
                                p_data := "{}"; p_error := None |}) |}.

Definition reply_error (i : Z) : Frame :=
  {| binary := false;
     parsed := Some (PPacket {| p_type := "reply"; p_id := i; p_event := "";
                                p_data := ""; p_error := Some "UNOTFOUND" |}) |}.

(** A frame carrying the server event [name]. *)
Definition event_frame (name : string) : Frame :=
  {| binary := false;
     parsed := Some (PPacket {| p_type := "event"; p_id := 0; p_event := name;
                                p_data := "{}"; p_error := None |}) |}.

(** The listeners [boot] attached to transport [ws] are attached and pass
    [whilstSameSocket]. *)
Definition listening (ws : nat) (s : ChatSocket) : bool :=
  match sockets s !! ws with Some r => ws_wired r | None => false end
  && bool_decide (socket s = Some ws).

(** Calls are never forgotten and keep their id. *)
Definition calls_grow (s s' : ChatSocket) : Prop :=
  length (calls s) <= length (calls s') /\
  forall c rec, calls s !! c = Some rec ->
    exists rec', calls s' !! c = Some rec' /\ c_id rec' = c_id rec.

(** No call made between [s] and [s'] drew the id [i]. *)
Definition id_unused (i : Z) (s s' : ChatSocket) : Prop :=
  forall c rec, calls s' !! c = Some rec -> length (calls s) <= c -> c_id rec <> i.

(** An id without an entry stays without one unless a new call draws it. *)
Definition R_absent (i : Z) : relation ChatSocket :=
  fun s s' =>
    calls_grow s s' /\
    (id_unused i s s' -> replies s !! i = None -> replies s' !! i = None).

(** A promise of [auth] after its listener ran with [v]. *)
Definition notify (v : Value) (st : PState) : PState :=
  if is_pending st then Fulfilled v else st.

(** The promises of [auth] after the listeners [ls] ran with [v]. *)
Definition notified (v : Value) (ls : list nat) (ps : list PState) : list PState :=
  foldl (fun ps p => alter (notify v) p ps) ps ls.

(** What a reply packet settles its call with. *)
Definition reply_outcome (packet : IPacket) : ReplyOutcome :=
  match p_error packet with
  | Some e => ReplyFailure e
  | None => ReplyData (p_data packet)
  end.

(** The error [unSpool] reports when the re-auth call fails. *)
Definition auth_failed : Effect :=
  Emit "error" (AError (AuthenticationFailedError
    "Failed to authenticate using saved auth packet.")).

(** Call [c] has nothing hung on its promise. *)
Definition plain_call (s : ChatSocket) (c : nat) : Prop :=
  exists rec, calls s !! c = Some rec /\ c_reaction rec = NoReaction.

(** The then-callback of call [c] hangs on the promise of a spooled [send]. *)
Definition chained (s : ChatSocket) (c : nat) : Prop :=
  exists h r, sendPromises s !! h = Some r /\ s_then r = Some c.

(** Only calls made by the user are spooled: the re-auth call of [unSpool] is
    made under [force]. *)
Definition spooled_calls_plain (s : ChatSocket) : Prop :=
  forall c, chained s c -> plain_call s c.

Definition R_plain : relation ChatSocket :=
  fun s s' => spooled_calls_plain s -> spooled_calls_plain s'.

(** A job of a call with nothing hung on its promise. *)
Definition quiet_job (s : ChatSocket) (j : Job) : Prop :=
  match j with
  | JCallThen c | JCallSettle c _ => plain_call s c
  | JPingSettle _ _ => False
  end.

(** The log grows without a packet sent and without 'connected'; spool,
    [send] promises and state are as they were; calls keep what hangs on
    them. *)
Definition R_quiet : relation ChatSocket :=
  fun s s' =>
    exists l, log s' = log s ++ l /\ sent l = [] /\ (connected ∉ l) /\
      queue s' = queue s /\ sendPromises s' = sendPromises s /\
      state s' = state s /\ authPromises s' = authPromises s /\
      length (calls s') = length (calls s) /\
      (forall c rec, calls s !! c = Some rec ->
         exists rec', calls s' !! c = Some rec' /\ c_reaction rec' = c_reaction rec).

(** The log only grows; an empty spool stays empty; and if a notification
    named 'connected' was emitted in between, the spool is empty
    afterwards. *)
Definition R_connected : relation ChatSocket :=
  fun s s' =>
    exists l, log s' = log s ++ l /\
      (queue s = [] -> queue s' = []) /\
      ("connected" ∈ emitted l -> queue s' = []).

(** The log only grows, without a notification named 'connected', and the
    microtask queue is as it was. *)
Definition R_silent : relation ChatSocket :=
  fun s s' =>
    exists l, log s' = log s ++ l /\ ("connected" ∉ emitted l) /\ jobs s' = jobs s.

(** The frame carries the server event [name]. *)
Definition event_frame_for (name : string) (f : Frame) : bool :=
  negb (binary f) &&
  match parsed f with
  | Some (PPacket packet) =>
      String.eqb (p_type packet) "event" && String.eqb (p_event packet) name
  | _ => false
  end.

(** The task hands a frame with the server event [name] to [parsePacket]. *)
Definition carries_event (name : string) (ev : Event) : bool :=
  match ev with
  | ParsePacket f | WsMessageEvent _ f => event_frame_for name f
  | _ => false
  end.

(** The promises [auth] returned while disconnected: the log only grows; a
    promise keeps its state, except that a pending one may be fulfilled when
    'authResult' is emitted; none is ever rejected. *)
Definition R_auth : relation ChatSocket :=
  fun s s' =>
    exists l, log s' = log s ++ l /\
      (forall p st, authPromises s !! p = Some st ->
         authPromises s' !! p = Some st \/
         (st = Pending /\ "authResult" ∈ emitted l /\
          exists v, authPromises s' !! p = Some (Fulfilled v))) /\
      (forall p e, authPromises s' !! p = Some (Rejected e) ->
         authPromises s !! p = Some (Rejected e)).

(** The frame is a reply packet with id [i]. *)
Definition reply_frame_for (i : Z) (f : Frame) : bool :=
  negb (binary f) &&
  match parsed f with
  | Some (PPacket packet) =>
      String.eqb (p_type packet) "reply" && bool_decide (p_id packet = i)
  | _ => false
  end.

(** The event hands a reply packet with id [i] to [parsePacket]. *)
Definition replies_to (i : Z) (ev : Event) : bool :=
  match ev with
  | ParsePacket f | WsMessageEvent _ f => reply_frame_for i f
  | _ => false
  end.

(** The job rejects the promise of a call with a [TimeoutError]. *)
Definition timeout_settlement (j : Job) : bool :=
  match j with
  | JCallSettle _ (Rejected e) => instanceof_TimeoutError e
  | _ => false
  end.

(** The entry [r] under id [i] cannot time out: no later call draws [i], the
    calls made with id [i] do not wait for a reply, and no timeout of such a
    call is under way. *)
Definition entry_kept (i : Z) (r : Reply) (s : ChatSocket) : Prop :=
  replies s !! i = Some r /\
  (forall n, draws s <= n -> random s n <> i) /\
  (forall c rec, calls s !! c = Some rec -> c_id rec = i ->
     noReply (c_options rec) = true /\ c_phase rec <> Racing) /\
  (forall c o rec, JCallSettle c o ∈ jobs s ->
     timeout_settlement (JCallSettle c o) = true ->
     calls s !! c = Some rec -> c_id rec <> i).

Definition R_kept (i : Z) (r : Reply) : relation ChatSocket :=
  fun s s' => entry_kept i r s -> entry_kept i r s'.

(** While the state is [Refreshing], no transport passes
    [whilstSameSocket] with listeners attached. *)
Definition refreshing_unwired (s : ChatSocket) : Prop :=
  state s = Refreshing -> forall ws, listening ws s = false.

Definition R_refreshing : relation ChatSocket :=
  fun s s' => refreshing_unwired s -> refreshing_unwired s'.

(** The number of 'ready' notifications in a log. *)
Definition readies (l : list Effect) : nat :=
  length (filter (fun name => name = "ready") (emitted l)).

(** The log grows without a 'ready' notification, and the 'WelcomeEvent'
    listeners are as they were. *)
Definition R_noready : relation ChatSocket :=
  fun s s' =>
    exists l, log s' = log s ++ l /\ readies l = 0 /\ welcomeOnce s' = welcomeOnce s.

(** A method body keeps a relation between the instance before and after. *)
Definition preserves (R : relation ChatSocket) {A} (m : M A) : Prop :=
  forall s, R s (m s).2.

(** The spool holds at most one entry per key, the key of an entry is the
    method name of its packet, and its [resolve] belongs to a promise that
    exists. *)
Definition keys_unique (s : ChatSocket) : Prop :=
  NoDup (queue s).*1 /\
  (forall k e, (k, e) ∈ queue s ->
     method (sp_data e) = k /\ sp_resolve e < length (sendPromises s)).

Definition R_keys : relation ChatSocket :=
  fun s s' => keys_unique s -> keys_unique s'.

(** The work left in the microtask queue does not grow. *)
Definition R_weight : relation ChatSocket :=
  fun s s' => weight s' <= weight s.

(** What flushing one spooled packet on transport [ws] logs. *)
Definition flush_log (ws : nat) (kv : string * ISpooledMethod) : list Effect :=
  [WsSend ws (sp_data kv.2); Emit "debug" (AOut (sp_data kv.2))].

(** A [send] promise after [resolve()]. *)
Definition resolved (r : SendRec) : SendRec :=
  {| s_state := if is_pending (s_state r) then Fulfilled VUndefined else s_state r;
     s_then := s_then r |}.

(** The promises of [send] after the spooled packets [l] were flushed. *)
Definition flushed (l : list (string * ISpooledMethod)) (sp : list SendRec)
    : list SendRec :=
  foldl (fun sp kv => alter resolved (sp_resolve kv.2) sp) sp l.

(** [s'] differs from [s] in the log, the spool, the [send] promises and the
    microtask queue at most. *)
Definition flush_frame (s s' : ChatSocket) : Prop :=
  s' = set_jobs (jobs s') (set_sendPromises (sendPromises s')
         (set_queue (queue s') (set_log (log s') s))).

(** * Properties *)

(** Method bodies are unfolded by name, or rewritten with their equations. *)
Arguments emit : simpl never.
Arguments getAddress : simpl never.
Arguments boot : simpl never.
Arguments close : simpl never.
Arguments closeHandler : simpl never.
Arguments resetPingTimeout : simpl never.
Arguments ping : simpl never.
Arguments send : simpl never.
Arguments call : simpl never.
Arguments call_then : simpl never.
Arguments call_catch : simpl never.
Arguments sendPackets : simpl never.
Arguments unSpool : simpl never.
Arguments unSpool_chain : simpl never.
Arguments auth : simpl never.
Arguments welcomeHandler : simpl never.
Arguments emit_event : simpl never.
Arguments settle_reply : simpl never.
Arguments resolve_send : simpl never.
Arguments Reply_handle : simpl never.
Arguments parsePacket : simpl never.
Arguments timeout_call : simpl never.
Arguments settle_ping : simpl never.
Arguments fire : simpl never.
Arguments run_job : simpl never.
Arguments flushed : simpl never.
Arguments notified : simpl never.

(** ** Evaluation of method bodies *)

Ltac unfold_M :=
  unfold bind, try_catch, get, modify, ret, throw, effect, enqueue.

(** Two instances are equal when their fields are. *)
Lemma ChatSocket_ext s1 s2 :
  socket s1 = socket s2 -> options s1 = options s2 -> state s1 = state s2 ->
  endpoints s1 = endpoints s2 -> endpointOffset s1 = endpointOffset s2 ->
  queue s1 = queue s2 -> replies s1 = replies s2 -> authPacket s1 = authPacket s2 ->
  pingTimeoutHandle s1 = pingTimeoutHandle s2 ->
  reconnectTimeout s1 = reconnectTimeout s2 -> attempts s1 = attempts s2 ->
  welcomeOnce s1 = welcomeOnce s2 -> errorListeners s1 = errorListeners s2 ->
  authResultOnce s1 = authResultOnce s2 ->
  authPromises s1 = authPromises s2 -> sockets s1 = sockets s2 ->
  timers s1 = timers s2 -> sendPromises s1 = sendPromises s2 ->
  calls s1 = calls s2 -> pings s1 = pings s2 -> jobs s1 = jobs s2 ->
  random s1 = random s2 -> draws s1 = draws s2 -> log s1 = log s2 ->
  s1 = s2.
Proof. destruct s1, s2; cbn; intros; by subst. Qed.

Ltac state_eq := apply ChatSocket_ext; cbn.

(** Decide the tests whose outcome is known. *)
Ltac decided :=
  repeat first
    [ rewrite decide_True by done
    | rewrite decide_False by done
    | rewrite bool_decide_eq_true_2 by done
    | rewrite bool_decide_eq_false_2 by done
    | progress cbn ].

Lemma emit_eq name a s :
  name <> "authResult" -> name <> "error" ->
  emit name a s = (Ret tt, set_log (log s ++ [Emit name a]) s).
Proof.
  intros H He. unfold emit; unfold_M; cbn.
  apply String.eqb_neq in He as ->. cbn.
  by apply String.eqb_neq in H as ->.
Qed.

(** An 'error' notification reaches the listeners when there is one. *)
Lemma emit_error a s :
  0 < errorListeners s ->
  emit "error" a s = (Ret tt, set_log (log s ++ [Emit "error" a]) s).
Proof.
  intros H. unfold emit; unfold_M; cbn.
  by rewrite bool_decide_eq_false_2 by lia.
Qed.

(** Without a listener, [emit] throws and notifies nobody. *)
Lemma emit_error_unheard a s :
  errorListeners s = 0 -> emit "error" a s = (Throw (unhandled a), s).
Proof.
  intros H. unfold emit; unfold_M; cbn.
  by rewrite bool_decide_eq_true_2.
Qed.

(** A notification other than 'authResult' is logged, or thrown as an
    'error' nobody listens to. *)
Lemma emit_cases name a s :
  name <> "authResult" ->
  emit name a s = (Ret tt, set_log (log s ++ [Emit name a]) s) \/
  (name = "error" /\ errorListeners s = 0 /\ emit name a s = (Throw (unhandled a), s)).
Proof.
  intros Hn. destruct (decide (name = "error")) as [->|He].
  - destruct (decide (errorListeners s = 0)) as [H0|H0].
    + right. by rewrite emit_error_unheard.
    + left. rewrite emit_error by lia. done.
  - left. by apply emit_eq.
Qed.

Lemma emit_authResult_eq a s :
  emit "authResult" a s =
    (Ret tt,
     set_authPromises (notified (arg_value a) (authResultOnce s) (authPromises s))
       (set_authResultOnce []
          (set_log (log s ++ [Emit "authResult" a]) s))).
Proof.
  unfold emit; unfold_M; cbn.
  set (s0 := set_authResultOnce [] _).
  assert (H : forall ls (s1 : ChatSocket),
            forEach (resolve_auth (arg_value a)) ls s1 =
              (Ret tt, set_authPromises (notified (arg_value a) ls (authPromises s1)) s1)).
  { induction ls as [|p ls IH]; intros s1.
    - unfold notified. cbn. f_equal. by destruct s1.
    - cbn [forEach]. unfold bind. unfold resolve_auth at 1, modify. rewrite IH.
      f_equal. }
  rewrite H. done.
Qed.

Lemma run_jobs_nil fuel s : jobs s = [] -> run_jobs fuel s = s.
Proof. intros H. destruct fuel; simpl; [done|]. by rewrite H. Qed.

Lemma drain_nil s : jobs s = [] -> drain s = s.
Proof. apply run_jobs_nil. Qed.

Lemma drain_one s j :
  jobs s = [j] -> jobs (run_job j (set_jobs [] s)).2 = [] ->
  drain s = (run_job j (set_jobs [] s)).2.
Proof.
  intros Hj Hn. unfold drain.
  assert (exists n, weight s = S n) as [n ->].
  { unfold weight. rewrite Hj. destruct j; simpl; eauto. }
  cbn [run_jobs]. rewrite Hj. by apply run_jobs_nil.
Qed.

(** ** [boot] while closing *)

(** [boot] of the earlier revision looks at the state first: while closing it
    only records the request. *)
Lemma V1_boot_closing s :
  state s = Closing -> V1.boot s = (Ret tt, set_state Refreshing s).
Proof. intros H. unfold V1.boot; unfold_M. rewrite H. done. Qed.

(** C1.  In the revision with the keepalive monitor, [boot] called in state
    [Closing] does move to [Refreshing] and returns normally, but it has
    already built a second transport with the next address, stored it in
    [this.socket] and advanced the rotation offset.  The close event of the
    transport that is closing is then filtered out by [whilstSameSocket], and
    the new transport has no listeners, so its events are dropped too: the
    deferred reconnect never starts. *)
Theorem boot_closing_opens_second_transport s ws evt :
  state s = Closing -> socket s = Some ws -> ws < length (sockets s) ->
  let s' := (boot s).2 in
  let ws' := length (sockets s) in
  (boot s).1 = Ret tt /\
  state s' = Refreshing /\
  socket s' = Some ws' /\ ws' <> ws /\
  length (sockets s') = S (length (sockets s)) /\
  (exists a, log s' = log s ++ [NewSocket ws' a]) /\
  endpointOffset s' = endpointOffset (getAddress s).2 /\
  ws_on_close ws evt s' = (Ret tt, s') /\
  ws_on_close ws' evt s' = (Ret tt, s').
Proof.
  intros Hst Hsock Hlt. cbn zeta.
  unfold boot, getAddress, new_Socket; unfold_M; cbn.
  destruct (bool_decide (length (endpoints s) <= S (endpointOffset s))) eqn:E;
    cbn; rewrite Hst; decided.
  all: repeat split; eauto; try lia.
  all: try (rewrite length_app; cbn; lia).
  all: unfold ws_on_close, whilstSameSocket; unfold_M; cbn.
  all: try (rewrite bool_decide_eq_false_2 by (intros [=]; lia);
            by rewrite andb_false_r).
  all: by rewrite lookup_app_r, Nat.sub_diag by lia.
Qed.

Lemma boot_closing_opens_second_transport_witness :
  let s := run (sample getDefaults) [Boot; Close] in
  (state s = Closing /\ socket s = Some 0 /\ 0 < length (sockets s)) /\
  state (boot s).2 = Refreshing /\ socket (boot s).2 = Some 1 /\
  length (sockets (boot s).2) = 2.
Proof.
  assert (H1 : state (run (sample getDefaults) [Boot; Close]) = Closing)
    by reflexivity.
  assert (H2 : socket (run (sample getDefaults) [Boot; Close]) = Some 0)
    by reflexivity.
  assert (H3 : 0 < length (sockets (run (sample getDefaults) [Boot; Close])))
    by (vm_compute; lia).
  pose proof (boot_closing_opens_second_transport _ 0 VUndefined H1 H2 H3) as H.
  cbn zeta in H. destruct H as (_ & Hs & Hk & _ & Hl & _).
  exact (conj (conj H1 (conj H2 H3)) (conj Hs (conj Hk Hl))).
Defined.

(** The same on a trace: after [boot(); close(); boot()] the close event of the
    first transport changes nothing, and neither does one of the second. *)
Example boot_closing_trace :
  let s := run (sample getDefaults)
             [Boot; Close; Boot; WsCloseEvent 0 VUndefined; WsCloseEvent 1 VUndefined] in
  state s = Refreshing /\ socket s = Some 1 /\
  log s = [NewSocket 0 (Some "wss://chat1"); WsClose 0;
           NewSocket 1 (Some "wss://chat2")].
Proof. vm_compute. done. Qed.

(** ** [getAddress] *)

Lemma getAddress_eq s :
  endpointOffset s < length (endpoints s) ->
  getAddress s =
    (Ret (endpoints s !! (S (endpointOffset s) mod length (endpoints s))),
     set_endpointOffset (S (endpointOffset s) mod length (endpoints s)) s).
Proof.
  intros Hlt. unfold getAddress; unfold_M; cbn.
  destruct (decide (S (endpointOffset s) = length (endpoints s))) as [E|E].
  - rewrite bool_decide_eq_true_2 by lia. cbn.
    rewrite E, Nat.Div0.mod_same. done.
  - rewrite bool_decide_eq_false_2 by lia. cbn.
    rewrite Nat.mod_small by lia. done.
Qed.

Lemma getAddresses_eq k : forall s,
  endpointOffset s < length (endpoints s) ->
  getAddresses k s =
    (fun i => endpoints s !! ((endpointOffset s + i) mod length (endpoints s)))
      <$> seq 1 k.
Proof.
  induction k as [|k IH]; intros s Hlt; [done|].
  cbn [getAddresses]. rewrite getAddress_eq by done.
  rewrite IH by (cbn; apply Nat.mod_upper_bound; lia).
  cbn. f_equal.
  - f_equal. f_equal. lia.
  - rewrite <- (fmap_S_seq 1), <- list_fmap_compose.
    apply list_fmap_ext. intros _ i _. cbn. f_equal.
    rewrite Nat.Div0.add_mod_idemp_l. f_equal. lia.
Qed.

(** C2.  With [N > 0] endpoints and the offset in range (as the constructor
    and [setEndpoints] leave it), a call of [getAddress] moves the offset to
    [(offset + 1) mod N] and returns the endpoint there; the [i]-th of
    successive calls returns the endpoint at [(offset + i) mod N]; [N]
    successive calls visit [N] different positions and return the whole list,
    rotated to start at [(offset + 1) mod N], and the next call starts over;
    the first call on a new instance returns the endpoint at
    [(offset + 1) mod N], which for [N >= 2] is not the position the
    constructor drew. *)
Theorem getAddress_round_robin (s : ChatSocket) :
  let N := length (endpoints s) in
  let r := endpointOffset s in
  0 < N -> r < N ->
  getAddress s = (Ret (endpoints s !! ((r + 1) mod N)),
                  set_endpointOffset ((r + 1) mod N) s) /\
  (forall k, getAddresses k s =
     (fun i => endpoints s !! ((r + i) mod N)) <$> seq 1 k) /\
  (forall i j, 1 <= i < j -> j <= N -> (r + i) mod N <> (r + j) mod N) /\
  getAddresses N s = Some <$> rotate (r + 1) (endpoints s) /\
  (forall k, getAddresses (N + k) s = getAddresses N s ++ getAddresses k s) /\
  (forall opts rnd,
     (getAddress (new_ChatSocket (endpoints s) opts r rnd)).1 =
       Ret (endpoints s !! ((r + 1) mod N))) /\
  (2 <= N -> (r + 1) mod N <> r).
Proof.
  intros N r HN Hr.
  assert (Hdist : forall i j, 1 <= i < j -> j <= N -> (r + i) mod N <> (r + j) mod N).
  { intros i j Hij Hj Heq.
    pose proof (Nat.div_mod_eq (r + i) N) as E1.
    pose proof (Nat.div_mod_eq (r + j) N) as E2.
    rewrite Heq in E1.
    destruct (decide ((r + j) / N <= (r + i) / N)); nia. }
  assert (Hrot : forall i, i < N ->
            rotate (r + 1) (endpoints s) !! i = endpoints s !! ((r + S i) mod N)).
  { intros i Hi. unfold rotate. fold N.
    replace ((r + S i) mod N) with (((r + 1) mod N + i) mod N)
      by (rewrite Nat.Div0.add_mod_idemp_l; f_equal; lia).
    assert (Hm : (r + 1) mod N < N) by (apply Nat.mod_upper_bound; lia).
    revert Hm. generalize ((r + 1) mod N). intros o Ho.
    assert (HN' : length (endpoints s) = N) by done.
    destruct (decide (o + i < N)) as [Hi2|Hi2].
    - rewrite lookup_app_l by (rewrite length_drop; lia).
      by rewrite lookup_drop, Nat.mod_small by lia.
    - rewrite lookup_app_r by (rewrite length_drop; lia).
      rewrite length_drop, lookup_take_lt by lia.
      replace (o + i) with ((i - (N - o)) + 1 * N) by lia.
      by rewrite Nat.Div0.mod_add, Nat.mod_small by lia. }
  split; [|split; [|split; [|split; [|split; [|split]]]]].
  - rewrite getAddress_eq by done. by rewrite Nat.add_1_r.
  - intros k. by apply getAddresses_eq.
  - exact Hdist.
  - rewrite getAddresses_eq by done.
    apply list_eq. intros i.
    rewrite !list_lookup_fmap.
    destruct (decide (i < N)) as [Hi|Hi].
    + rewrite lookup_seq_lt by done. rewrite Hrot by done.
      cbn [fmap option_fmap option_map]. fold N r.
      destruct (lookup_lt_is_Some_2 (endpoints s) ((r + S i) mod N)) as [x Hx];
        [apply Nat.mod_upper_bound; lia|].
      replace (1 + i) with (S i) by lia. by rewrite Hx.
    + rewrite lookup_seq_ge by lia. cbn.
      rewrite lookup_ge_None_2; [done|]. rewrite length_rotate. fold N. lia.
  - intros k. rewrite !getAddresses_eq by done. fold N r.
    rewrite seq_app, fmap_app. f_equal.
    replace (1 + N) with (N + 1) by lia.
    rewrite <- (fmap_add_seq N 1 k), <- list_fmap_compose.
    apply list_fmap_ext. intros _ i _. cbn. f_equal.
    replace (r + (N + i)) with (r + i + 1 * N) by lia.
    by rewrite Nat.Div0.mod_add.
  - intros opts rnd. rewrite getAddress_eq by done. cbn. fold N r.
    by rewrite Nat.add_1_r.
  - intros H2 Heq.
    destruct (decide (r + 1 = N)) as [E|E].
    + rewrite E, Nat.Div0.mod_same in Heq. lia.
    + rewrite Nat.mod_small in Heq by lia. lia.
Qed.

Lemma getAddress_round_robin_witness :
  let s := sample getDefaults in
  (0 < length (endpoints s) /\ endpointOffset s < length (endpoints s)) /\
  getAddresses 4 s =
    [Some "wss://chat1"; Some "wss://chat2"; Some "wss://chat3"; Some "wss://chat1"].
Proof.
  assert (H1 : 0 < length (endpoints (sample getDefaults))) by (cbn; lia).
  assert (H2 : endpointOffset (sample getDefaults) < length (endpoints (sample getDefaults)))
    by (cbn; lia).
  split; [by split|].
  destruct (getAddress_round_robin (sample getDefaults) H1 H2) as (_ & Hk & _).
  rewrite Hk. reflexivity.
Defined.

(** ** [close] without a transport *)

Lemma lookup_disarm (l : list TimerRec) (i j : nat) t :
  alter disarm i l !! j = Some t ->
  exists t0, l !! j = Some t0 /\
    ((i = j /\ t = disarm t0) \/ (i <> j /\ t = t0)).
Proof.
  destruct (decide (i = j)) as [->|Hne].
  - rewrite list_lookup_alter_eq. intros Ht.
    apply fmap_Some in Ht as (t0 & Ht0 & ->). eauto.
  - rewrite list_lookup_alter_ne by done. eauto.
Qed.

Lemma clearTimeout_cleared h s : cleared h (clearTimeout h s).2.
Proof.
  intros i t ->. cbn. intros Ht.
  apply lookup_disarm in Ht as (t0 & _ & [[_ ->]|[? _]]); done.
Qed.

Lemma clearTimeout_keeps_cleared h h' s :
  cleared h s -> cleared h (clearTimeout h' s).2.
Proof.
  intros Hc i t -> Ht. destruct h' as [j|]; cbn in Ht.
  - apply lookup_disarm in Ht as (t0 & Ht0 & [[_ ->]|[_ ->]]); [done|].
    by eapply Hc.
  - by eapply Hc.
Qed.

(** The timers after [clearTimeout(a)] and [clearTimeout(b)]. *)
Lemma clearTimeout_twice a b s h :
  timers (clearTimeout b (clearTimeout a s).2).2 !! h =
    if decide (a = Some h \/ b = Some h) then disarm <$> timers s !! h
    else timers s !! h.
Proof.
  destruct a as [i|], b as [j|]; cbn.
  - destruct (decide (j = h)) as [->|Hj], (decide (i = h)) as [->|Hi].
    + rewrite decide_True by by left.
      rewrite !list_lookup_alter_eq. by destruct (timers s !! h).
    + rewrite decide_True by by right.
      by rewrite list_lookup_alter_eq, list_lookup_alter_ne.
    + rewrite decide_True by by left.
      by rewrite list_lookup_alter_ne, list_lookup_alter_eq.
    + rewrite decide_False by (intros [[=]|[=]]; done).
      by rewrite !list_lookup_alter_ne.
  - destruct (decide (i = h)) as [->|Hi].
    + rewrite decide_True by by left. by rewrite list_lookup_alter_eq.
    + rewrite decide_False by (intros [[=]|[=]]; done).
      by rewrite list_lookup_alter_ne.
  - destruct (decide (j = h)) as [->|Hj].
    + rewrite decide_True by by right. by rewrite list_lookup_alter_eq.
    + rewrite decide_False by (intros [[=]|[=]]; done).
      by rewrite list_lookup_alter_ne.
  - by rewrite decide_False by (intros [[=]|[=]]).
Qed.

(** C3, as the code has it.  [close] on an instance without a transport sets
    the state to [Closed] at once and clears the two timers whose handles the
    instance holds, that of the last reconnect timer and that of the last
    keepalive timer; every other timer is left as it is.  It returns
    normally, calls nothing on a transport and emits no notification: the log
    is unchanged, so no 'closed' notification is emitted on this path.
    Nothing but the state and these two timers changes. *)
Theorem close_without_transport s :
  socket s = None ->
  let s' := (close s).2 in
  (close s).1 = Ret tt /\
  state s' = Closed /\
  cleared (reconnectTimeout s) s' /\
  cleared (pingTimeoutHandle s) s' /\
  (forall h,
     timers s' !! h =
       if decide (reconnectTimeout s = Some h \/ pingTimeoutHandle s = Some h)
       then disarm <$> timers s !! h else timers s !! h) /\
  log s' = log s /\
  s' = set_state Closed (set_timers (timers s') s) /\
  (jobs s = [] -> step s Close = s').
Proof.
  intros Hs. cbn zeta.
  assert (E : close s = (Ret tt, set_state Closed
             (clearTimeout (pingTimeoutHandle s) (clearTimeout (reconnectTimeout s) s).2).2)).
  { unfold close, clearTimeout; unfold_M. rewrite Hs.
    destruct (reconnectTimeout s); cbn; destruct (pingTimeoutHandle s); reflexivity. }
  rewrite E. cbn [fst snd]. split; [done|]. split; [done|].
  split; [|split; [|split; [|split; [|split]]]].
  - intros i t Hi Ht. eapply clearTimeout_keeps_cleared;
      [apply clearTimeout_cleared | exact Hi | exact Ht].
  - intros i t Hi Ht. eapply (clearTimeout_cleared (pingTimeoutHandle s)); [exact Hi|exact Ht].
  - intros h. apply (clearTimeout_twice (reconnectTimeout s) (pingTimeoutHandle s) s h).
  - by destruct (reconnectTimeout s), (pingTimeoutHandle s).
  - destruct (reconnectTimeout s), (pingTimeoutHandle s); by state_eq.
  - intros Hj. unfold step, after, task. rewrite E. apply drain_nil.
    by destruct (reconnectTimeout s), (pingTimeoutHandle s).
Qed.

(** An instance that never had a transport and waits to reconnect: the
    server event 'close' was handed to [parsePacket]. *)
Lemma close_without_transport_witness :
  let s := run (sample getDefaults) [ParsePacket (event_frame "close")] in
  let reconnect := {| t_cb := CbBoot; t_delay := 1000; t_live := true |} in
  (socket s = None /\ reconnectTimeout s = Some 0 /\ timers s !! 0 = Some reconnect) /\
  state (close s).2 = Closed /\
  timers (close s).2 !! 0 = Some (disarm reconnect) /\
  log (close s).2 = log s.
Proof.
  intros s reconnect.
  assert (H : socket s = None) by (vm_compute; reflexivity).
  assert (Hr : reconnectTimeout s = Some 0) by (vm_compute; reflexivity).
  assert (Ht : timers s !! 0 = Some reconnect) by (vm_compute; reflexivity).
  destruct (close_without_transport s H) as (_ & Hst & _ & _ & Hh & Hl & _).
  refine (conj (conj H (conj Hr Ht)) (conj Hst (conj _ Hl))).
  rewrite Hh, decide_True by (by left). by rewrite Ht.
Defined.

(** C3 as stated fails twice.  [close()] on an instance without a transport
    reaches [Closed] but emits no 'closed' notification.  And it clears only
    the reconnect timer whose handle is stored: after two 'close' events
    without a transport, the first reconnect timer is still armed after
    [close()], and its expiry boots the instance out of [Closed]. *)
Lemma close_without_transport_no_closed_notification :
  let s0 := run (sample getDefaults)
              [ParsePacket (event_frame "close"); ParsePacket (event_frame "close")] in
  let s := step s0 Close in
  socket s0 = None /\ state s = Closed /\ emitted (new_log s0 s) = [] /\
  timers s0 !! 0 = Some {| t_cb := CbBoot; t_delay := 1000; t_live := true |} /\
  reconnectTimeout s0 = Some 1 /\
  timers s !! 0 = Some {| t_cb := CbBoot; t_delay := 1000; t_live := true |} /\
  timers s !! 1 = Some {| t_cb := CbBoot; t_delay := 2000; t_live := false |} /\
  state (step s (TimerExpires 0)) = Connecting.
Proof.
  cbn zeta.
  refine (conj _ (conj _ (conj _ (conj _ (conj _ (conj _ (conj _ _))))))).
  all: by vm_compute.
Qed.

(** The earlier revision calls [clearTimeout(null)] there: a pending reconnect
    timer stays armed. *)
Lemma V1_close_without_transport s :
  socket s = None -> V1.close s = (Ret tt, set_state Closed s).
Proof. intros H. unfold V1.close; unfold_M. by rewrite H. Qed.

(** ** The transport closes and [autoReconnect] is off *)

(** C7, as the code has it.  When the transport closes in state [Connecting],
    [Connected] or [Reconnecting] and [autoReconnect] is false, the 'close'
    listener returns without touching the instance: the state stays what it
    was (it does not become [Idle]), no timer is armed and nothing is emitted
    beyond the forwarded 'close' event. *)
Theorem transport_closed_without_autoReconnect s ws evt :
  state s = Connecting \/ state s = Connected \/ state s = Reconnecting ->
  autoReconnect (options s) = false ->
  closeHandler evt s = (Ret tt, s) /\
  (ws_on_close ws evt s).1 = Ret tt /\
  state (ws_on_close ws evt s).2 = state s /\
  timers (ws_on_close ws evt s).2 = timers s /\
  reconnectTimeout (ws_on_close ws evt s).2 = reconnectTimeout s /\
  (forall a, Emit "reconnecting" a ∉ log s ->
             Emit "reconnecting" a ∉ log (ws_on_close ws evt s).2) /\
  (jobs s = [] ->
   step s (WsCloseEvent ws evt) = s \/
   step s (WsCloseEvent ws evt) = set_log (log s ++ [Emit "close" (AValue evt)]) s).
Proof.
  intros Hst Hauto.
  assert (E : closeHandler evt s = (Ret tt, s)).
  { unfold closeHandler; unfold_M.
    destruct Hst as [H|[H|H]]; rewrite H; decided; by rewrite Hauto. }
  assert (E' : ws_on_close ws evt s = (Ret tt, s) \/
               ws_on_close ws evt s =
                 (Ret tt, set_log (log s ++ [Emit "close" (AValue evt)]) s)).
  { unfold ws_on_close, whilstSameSocket; unfold_M.
    destruct (_ && _); [right|by left].
    unfold emit_event, emit; unfold_M; cbn.
    change (closeHandler (arg_value (AValue evt))) with (closeHandler evt).
    unfold closeHandler; unfold_M; cbn.
    destruct Hst as [H|[H|H]]; rewrite H; decided; by rewrite Hauto. }
  split; [done|].
  destruct E' as [E'|E']; rewrite E'; cbn [fst snd].
  - repeat split; try done. intros Hj. left.
    unfold step, after, task. rewrite E'. by apply drain_nil.
  - repeat split; try done.
    + intros a Ha. cbn. rewrite elem_of_app, list_elem_of_singleton.
      intros [?|?]; [done|congruence].
    + intros Hj. right. unfold step, after, task. rewrite E'. by apply drain_nil.
Qed.

Lemma transport_closed_without_autoReconnect_witness :
  let s := run (sample no_autoReconnect) [Boot; WsMessageEvent 0 WelcomeEvent] in
  (state s = Connected /\ autoReconnect (options s) = false) /\
  state (ws_on_close 0 VUndefined s).2 = Connected.
Proof.
  cbn zeta.
  assert (H1 : state (run (sample no_autoReconnect) [Boot; WsMessageEvent 0 WelcomeEvent])
               = Connected) by (vm_compute; reflexivity).
  assert (H2 : autoReconnect (options (run (sample no_autoReconnect)
                 [Boot; WsMessageEvent 0 WelcomeEvent])) = false)
    by (vm_compute; reflexivity).
  destruct (transport_closed_without_autoReconnect _ 0 VUndefined
              (or_intror (or_introl H1)) H2) as (_ & _ & Hst & _).
  split; [by split|]. by rewrite Hst.
Defined.

(** C7 as stated fails: with [autoReconnect] off, the close of the transport
    of a connected instance leaves the state [Connected], not [Idle]. *)
Lemma transport_closed_state_not_idle :
  let s := run (sample no_autoReconnect) [Boot; WsMessageEvent 0 WelcomeEvent] in
  state s = Connected /\ autoReconnect (options s) = false /\
  state (step s (WsCloseEvent 0 VUndefined)) = Connected /\
  state (step s (WsCloseEvent 0 VUndefined)) <> Idle.
Proof. vm_compute. repeat split; congruence. Qed.

(** ** Keepalive *)



Lemma fire_live s h t :
  timers s !! h = Some t -> t_live t = true ->
  fire h s = run_timer (t_cb t) (clearTimeout (Some h) s).2.
Proof. intros Ht Hl. unfold fire; unfold_M. rewrite Ht, Hl. done. Qed.












(** ** Relations kept by every method body *)

Section Preserves.
Context (R : relation ChatSocket) `{!PreOrder R}.

Lemma preserves_ret {A} (a : A) : preserves R (ret a).
Proof. intros s. reflexivity. Qed.

Lemma preserves_throw {A} e : preserves R (@throw A e).
Proof. intros s. reflexivity. Qed.

Lemma preserves_get {A} (f : ChatSocket -> A) : preserves R (get f).
Proof. intros s. reflexivity. Qed.

Lemma preserves_modify f : (forall s, R s (f s)) -> preserves R (modify f).
Proof. intros H s. apply H. Qed.

Lemma preserves_bind {A B} (m : M A) (k : A -> M B) :
  preserves R m -> (forall a, preserves R (k a)) -> preserves R (bind m k).
Proof.
  intros Hm Hk s. unfold bind. specialize (Hm s).
  destruct (m s) as [[a|e] s']; cbn in *; [|done].
  etrans; [exact Hm|apply Hk].
Qed.

Lemma preserves_try_catch {A} (m : M A) (h : Err -> M A) :
  preserves R m -> (forall e, preserves R (h e)) -> preserves R (try_catch m h).
Proof.
  intros Hm Hh s. unfold try_catch. specialize (Hm s).
  destruct (m s) as [[a|e] s']; cbn in *; [done|].
  etrans; [exact Hm|apply Hh].
Qed.

Lemma preserves_forEach {A} (f : A -> M unit) l :
  (forall x, preserves R (f x)) -> preserves R (forEach f l).
Proof.
  intros Hf. induction l as [|x l IH]; cbn [forEach].
  - apply preserves_ret.
  - apply preserves_bind; [apply Hf|by intros _].
Qed.

Lemma preserves_repeat_M n m : preserves R m -> preserves R (repeat_M n m).
Proof.
  intros Hm. induction n as [|n IH]; cbn [repeat_M].
  - apply preserves_ret.
  - apply preserves_bind; [done|by intros _].
Qed.

Lemma preserves_async m : preserves R m -> preserves R (async m).
Proof.
  intros Hm. apply preserves_try_catch.
  - apply preserves_bind; [done|intros; apply preserves_ret].
  - intros; apply preserves_ret.
Qed.

(** From the tasks and the jobs to whole runs. *)
Lemma preserves_after {A} (m : M A) s :
  preserves R m -> (forall e s, R s (set_log (log s ++ [Uncaught e]) s)) ->
  R s (after m s).
Proof.
  intros Hm Hu. unfold after. specialize (Hm s).
  destruct (m s) as [[a|e] s']; cbn in *; [done|].
  etrans; [exact Hm|apply Hu].
Qed.

Lemma preserves_run_jobs fuel : forall s,
  (forall j, preserves R (run_job j)) -> (forall js s, R s (set_jobs js s)) ->
  R s (run_jobs fuel s).
Proof.
  induction fuel as [|fuel IH]; intros s Hj Hs; cbn [run_jobs]; [reflexivity|].
  destruct (jobs s) as [|j js]; [reflexivity|].
  etrans; [apply (Hs js)|]. etrans; [apply Hj|]. by apply IH.
Qed.

Lemma preserves_step s ev :
  (forall ev, preserves R (task ev)) -> (forall j, preserves R (run_job j)) ->
  (forall js s, R s (set_jobs js s)) ->
  (forall e s, R s (set_log (log s ++ [Uncaught e]) s)) ->
  R s (step s ev).
Proof.
  intros Ht Hj Hs Hu. unfold step, drain.
  etrans; [apply (preserves_after (task ev)); auto|]. by apply preserves_run_jobs.
Qed.

Lemma preserves_run evs : forall s,
  (forall ev, preserves R (task ev)) -> (forall j, preserves R (run_job j)) ->
  (forall js s, R s (set_jobs js s)) ->
  (forall e s, R s (set_log (log s ++ [Uncaught e]) s)) ->
  R s (run s evs).
Proof.
  induction evs as [|ev evs IH]; intros s Ht Hj Hs Hu; cbn; [reflexivity|].
  etrans; [by apply preserves_step|]. by apply IH.
Qed.
End Preserves.

Ltac head t := lazymatch t with ?f _ => head f | _ => t end.

(** Walk through a method body: [known] closes calls that have a lemma,
    [leaf] closes the field updates. *)
Ltac pres_step known leaf :=
  cbn beta;
  lazymatch goal with
  | |- preserves _ (bind _ _) => refine (preserves_bind _ _ _ _ _); [|intros ?]
  | |- preserves _ (ret _) => refine (preserves_ret _ _)
  | |- preserves _ (throw _) => refine (preserves_throw _ _)
  | |- preserves _ (get _) => refine (preserves_get _ _)
  | |- preserves _ (modify _) => refine (preserves_modify _ _ _); intros ?; leaf
  | |- preserves _ (try_catch _ _) =>
      refine (preserves_try_catch _ _ _ _ _); [|intros ?]
  | |- preserves _ (async _) => refine (preserves_async _ _ _)
  | |- preserves _ (forEach _ _) => refine (preserves_forEach _ _ _ _); intros ?
  | |- preserves _ (repeat_M _ _) => refine (preserves_repeat_M _ _ _ _)
  | |- preserves _ (if ?b then _ else _) => destruct b eqn:?
  | |- preserves _ (match ?x with _ => _ end) => destruct x eqn:?
  | |- preserves _ ?m =>
      first [ solve [known]
            | let h := head m in unfold h ]
  end.

Ltac pres known leaf := repeat pres_step known leaf.

(** ** The spool queue *)

#[local] Instance R_keys_preorder : PreOrder R_keys.
Proof. split; unfold R_keys; [intros ?; auto|intros ???; auto]. Qed.

Lemma map_set_keys {V} k (v : V) m :
  (map_set k v m).*1 = if decide (k ∈ m.*1) then m.*1 else m.*1 ++ [k].
Proof.
  induction m as [|[k' v'] m IH]; cbn; [done|].
  destruct (decide (k' = k)) as [->|Hne]; cbn.
  - rewrite decide_True by apply list_elem_of_here. done.
  - rewrite IH. destruct (decide (k ∈ m.*1)).
    + by rewrite decide_True by by apply list_elem_of_further.
    + rewrite decide_False; [done|]. rewrite elem_of_cons. naive_solver.
Qed.

Lemma NoDup_map_set {V} k (v : V) m : NoDup m.*1 -> NoDup (map_set k v m).*1.
Proof.
  intros H. rewrite map_set_keys. destruct (decide _); [done|].
  apply NoDup_app. split; [done|]. split; [|apply NoDup_singleton].
  intros x Hx ->%list_elem_of_singleton. done.
Qed.

Lemma NoDup_map_delete {V} k (m : list (string * V)) :
  NoDup m.*1 -> NoDup (map_delete k m).*1.
Proof.
  intros H. eapply sublist_NoDup; [exact H|].
  apply fmap_sublist, sublist_filter.
Qed.

Lemma elem_of_map_set {V} k (v : V) m k' v' :
  (k', v') ∈ map_set k v m -> (k' = k /\ v' = v) \/ (k', v') ∈ m.
Proof.
  induction m as [|[k0 v0] m IH]; cbn.
  - intros H%list_elem_of_singleton. left. by inversion H.
  - destruct (decide (k0 = k)) as [->|Hne]; rewrite !elem_of_cons.
    + intros [H|?]; [left; by inversion H|by right; right].
    + intros [?|H]; [by right; left|]. destruct (IH H); [by left|by right; right].
Qed.

Lemma keys_unique_same s s' :
  queue s' = queue s -> length (sendPromises s) <= length (sendPromises s') ->
  R_keys s s'.
Proof.
  intros Hq Hl [Hn Hk]. split; rewrite Hq; [done|].
  intros k e He. destruct (Hk k e He). split; [done|lia].
Qed.

Lemma keys_unique_delete s s' k :
  queue s' = map_delete k (queue s) ->
  length (sendPromises s) <= length (sendPromises s') -> R_keys s s'.
Proof.
  intros Hq Hl [Hn Hk]. split; rewrite Hq; [by apply NoDup_map_delete|].
  intros k' e He. apply list_elem_of_filter in He as [_ He].
  destruct (Hk k' e He). split; [done|lia].
Qed.

Lemma keys_unique_set s s' data :
  queue s' = map_set (method data)
               {| sp_resolve := length (sendPromises s); sp_data := data |} (queue s) ->
  length (sendPromises s') = S (length (sendPromises s)) -> R_keys s s'.
Proof.
  intros Hq Hl [Hn Hk]. split; rewrite Hq; [by apply NoDup_map_set|].
  intros k e [[-> ->]|He]%elem_of_map_set; cbn; [split; [done|lia]|].
  destruct (Hk k e He). split; [done|lia].
Qed.

Ltac leaf_keys :=
  first
    [ by apply keys_unique_same;
        [reflexivity | cbn; rewrite ?length_alter, ?length_insert, ?length_app; lia]
    | by eapply keys_unique_delete;
        [reflexivity | cbn; rewrite ?length_alter, ?length_insert, ?length_app; lia]
    | by eapply keys_unique_set;
        [reflexivity | cbn; rewrite ?length_app; cbn; lia] ].

Lemma keys_task ev : preserves R_keys (task ev).
Proof. destruct ev; cbn [task]; pres fail leaf_keys. Qed.

Lemma keys_run_job j : preserves R_keys (run_job j).
Proof. destruct j; cbn [run_job]; pres fail leaf_keys. Qed.

Lemma keys_unique_run s evs : keys_unique s -> keys_unique (run s evs).
Proof.
  apply (preserves_run R_keys); auto using keys_task, keys_run_job.
  all: intros; leaf_keys.
Qed.

(** ** Method bodies as equations *)

Lemma send_now data opts s ws :
  state s = Connected \/ force opts = true -> socket s = Some ws ->
  send data opts s =
    (Ret SendResolved,
     set_log (log s ++ [WsSend ws data; Emit "debug" (AOut data)]) s).
Proof.
  intros Hc Hws. unfold send, isConnected, this_socket, emit; unfold_M; cbn.
  assert (bool_decide (state s = Connected) || force opts = true) as ->.
  { destruct Hc as [->| ->]; [done|]. by rewrite orb_true_r. }
  rewrite Hws. cbn. by rewrite <- app_assoc.
Qed.

Lemma send_without_socket data opts s :
  state s = Connected \/ force opts = true -> socket s = None ->
  send data opts s = (Throw TypeError, s).
Proof.
  intros Hc Hws. unfold send, isConnected, this_socket, emit; unfold_M; cbn.
  assert (bool_decide (state s = Connected) || force opts = true) as ->.
  { destruct Hc as [->| ->]; [done|]. by rewrite orb_true_r. }
  by rewrite Hws.
Qed.

Lemma send_spooled data opts s :
  state s <> Connected -> force opts = false -> method data <> "auth" ->
  send data opts s =
    (Ret (SendPending (length (sendPromises s))),
     set_log (log s ++ [Emit "spooled" (AOut data)])
       (set_queue
          (map_set (method data)
             {| sp_resolve := length (sendPromises s); sp_data := data |} (queue s))
          (set_sendPromises
             (sendPromises s ++ [{| s_state := Pending; s_then := None |}]) s))).
Proof.
  intros Hc Hf Hm. unfold send, isConnected, emit; unfold_M; cbn.
  rewrite bool_decide_eq_false_2, Hf by done. cbn.
  by apply String.eqb_neq in Hm as ->.
Qed.

Lemma send_auth_dropped data opts s :
  state s <> Connected -> force opts = false -> method data = "auth" ->
  send data opts s = (Ret SendResolved, s).
Proof.
  intros Hc Hf Hm. unfold send, isConnected; unfold_M; cbn.
  rewrite bool_decide_eq_false_2, Hf, Hm by done. done.
Qed.

Lemma call_now meth args opts s ws :
  state s = Connected \/ force opts = true -> socket s = Some ws ->
  let i := random s (draws s) in
  let c := length (calls s) in
  call meth args opts s =
    (Ret c,
     set_jobs (jobs s ++ [JCallThen c])
       (set_log (log s ++ [WsSend ws {| method := meth; arguments := args; id := i |};
                           Emit "debug" (AOut {| method := meth; arguments := args; id := i |})])
          (set_replies (<[i := {| r_call := c |}]> (replies s))
             (set_calls (calls s ++ [new_call i opts])
                (set_draws (S (draws s)) s))))).
Proof.
  intros Hc Hws. cbn zeta. unfold call, Math_random_id; unfold_M; cbn.
  erewrite send_now; [|done..]. done.
Qed.

Lemma call_without_socket meth args opts s :
  state s = Connected \/ force opts = true -> socket s = None ->
  let i := random s (draws s) in
  call meth args opts s =
    (Throw TypeError,
     set_replies (<[i := {| r_call := length (calls s) |}]> (replies s))
       (set_calls (calls s ++ [new_call i opts]) (set_draws (S (draws s)) s))).
Proof.
  intros Hc Hws. cbn zeta. unfold call, Math_random_id; unfold_M; cbn.
  erewrite send_without_socket; [|done..]. done.
Qed.

Lemma call_spooled meth args opts s :
  state s <> Connected -> force opts = false -> meth <> "auth" ->
  let i := random s (draws s) in
  let c := length (calls s) in
  let h := length (sendPromises s) in
  let data := {| method := meth; arguments := args; id := i |} in
  call meth args opts s =
    (Ret c,
     set_sendPromises (sendPromises s ++ [{| s_state := Pending; s_then := Some c |}])
       (set_log (log s ++ [Emit "spooled" (AOut data)])
          (set_queue (map_set meth {| sp_resolve := h; sp_data := data |} (queue s))
             (set_replies (<[i := {| r_call := c |}]> (replies s))
                (set_calls (calls s ++ [new_call i opts])
                   (set_draws (S (draws s)) s)))))).
Proof.
  intros Hc Hf Hm. cbn zeta. unfold call, Math_random_id; unfold_M; cbn.
  erewrite send_spooled; [|done..]. cbn.
  rewrite alter_app_r_alt by lia. rewrite Nat.sub_diag. done.
Qed.

(** The then-callback of a call that waits for its reply arms the timeout
    and leaves the race pending. *)
Lemma call_then_races c rec s :
  calls s !! c = Some rec -> noReply (c_options rec) = false ->
  c_replyPromise rec = None ->
  call_then c s =
    (Ret tt,
     set_calls (alter (with_phase Racing) c (calls s))
       (set_log (log s ++ [SetTimeout (length (timers s)) (CbCallTimeout c)
                             (call_delay (c_options rec) (options s))])
          (set_timers (timers s ++ [{| t_cb := CbCallTimeout c;
                                       t_delay := call_delay (c_options rec) (options s);
                                       t_live := true |}]) s))).
Proof.
  intros Hc Hn Hr. unfold call_then, setTimeout, set_call; unfold_M; cbn.
  rewrite Hc, Hn. cbn. by rewrite Hr.
Qed.

(** The then-callback of a [noReply] call resolves at once: no timer. *)
Lemma call_then_noReply c rec s :
  calls s !! c = Some rec -> noReply (c_options rec) = true ->
  call_then c s =
    (Ret tt,
     set_jobs (jobs s ++ [JCallSettle c (Fulfilled VUndefined)])
       (set_calls (alter (with_phase Done) c (calls s)) s)).
Proof.
  intros Hc Hn. unfold call_then, set_call; unfold_M; cbn.
  by rewrite Hc, Hn.
Qed.

(** The timeout of a racing call wins the race. *)
Lemma timeout_call_racing c rec s :
  calls s !! c = Some rec -> c_phase rec = Racing ->
  timeout_call c s =
    (Ret tt,
     set_jobs (jobs s ++ [JCallSettle c (Rejected TimeoutError)])
       (set_calls (alter (with_phase Done) c (calls s)) s)).
Proof.
  intros Hc Hp. unfold timeout_call, set_call; unfold_M; cbn.
  by rewrite Hc, Hp.
Qed.

(** The catch-callback on a timeout removes the entry and rejects. *)
Lemma call_catch_timeout c rec s :
  calls s !! c = Some rec -> c_reaction rec = NoReaction ->
  call_catch c (Rejected TimeoutError) s =
    (Ret tt,
     set_calls (alter (with_result (Rejected TimeoutError)) c (calls s))
       (set_replies (delete (c_id rec) (replies s)) s)).
Proof.
  intros Hc Hk. unfold call_catch, set_call; unfold_M; cbn.
  by rewrite Hc, Hk.
Qed.

(** The catch-callback on anything but a timeout passes the outcome on. *)
Lemma call_catch_other c rec o s :
  calls s !! c = Some rec -> c_reaction rec = NoReaction ->
  (forall e, o = Rejected e -> instanceof_TimeoutError e = false) ->
  call_catch c o s =
    (Ret tt, set_calls (alter (with_result o) c (calls s)) s).
Proof.
  intros Hc Hk Ho. unfold call_catch, set_call; unfold_M; cbn.
  rewrite Hc, Hk. destruct o as [|v|e]; cbn; try done.
  by rewrite (Ho e eq_refl).
Qed.

(** A reply frame whose id has no entry. *)
Lemma parsePacket_unmatched f packet s :
  binary f = false -> parsed f = Some (PPacket packet) -> p_type packet = "reply" ->
  replies s !! p_id packet = None -> 0 < errorListeners s ->
  parsePacket f s =
    (Ret tt,
     set_log (log s ++ [Emit "debug" (AIn packet);
                        Emit "error" (AError (NoMethodFound "No handler for reply Id."))]) s).
Proof.
  intros Hb Hp Ht Hr He. unfold parsePacket, emit; unfold_M; cbn.
  rewrite Hb, Hp, Ht. cbn. rewrite Hr. cbn.
  rewrite bool_decide_eq_false_2 by lia. cbn. by rewrite <- app_assoc.
Qed.

(** The same when nobody listens to 'error': the error is thrown out of
    [parsePacket]. *)
Lemma parsePacket_unmatched_unheard f packet s :
  binary f = false -> parsed f = Some (PPacket packet) -> p_type packet = "reply" ->
  replies s !! p_id packet = None -> errorListeners s = 0 ->
  parsePacket f s =
    (Throw (NoMethodFound "No handler for reply Id."),
     set_log (log s ++ [Emit "debug" (AIn packet)]) s).
Proof.
  intros Hb Hp Ht Hr He. unfold parsePacket, emit; unfold_M; cbn.
  rewrite Hb, Hp, Ht. cbn. rewrite Hr. cbn.
  by rewrite bool_decide_eq_true_2.
Qed.

(** ** Flushing the spool *)

Lemma resolved_settled r : is_pending (s_state r) = false -> resolved r = r.
Proof. intros H. unfold resolved. rewrite H. by destruct r. Qed.

Lemma chained_resolved s s' h c :
  sendPromises s' = alter resolved h (sendPromises s) -> chained s' c -> chained s c.
Proof.
  intros Hs (h' & r & Hr & Ht). rewrite Hs in Hr.
  destruct (decide (h = h')) as [->|Hne].
  - rewrite list_lookup_alter_eq in Hr. apply fmap_Some in Hr as (r0 & Hr0 & ->).
    by exists h', r0.
  - rewrite list_lookup_alter_ne in Hr by done. by exists h', r.
Qed.

Lemma resolve_send_eq h s :
  exists js,
    resolve_send h s =
      (Ret tt, set_jobs (jobs s ++ js)
                 (set_sendPromises (alter resolved h (sendPromises s)) s)) /\
    sum_list_with job_weight js <= 2 /\
    Forall (fun j => exists c, j = JCallThen c /\ chained s c) js.
Proof.
  unfold resolve_send; unfold_M; cbn.
  destruct (sendPromises s !! h) as [rec|] eqn:E.
  - destruct (is_pending (s_state rec)) eqn:Hp.
    + assert (alter resolved h (sendPromises s) =
              <[h := {| s_state := Fulfilled VUndefined; s_then := s_then rec |}]>
                (sendPromises s)) as ->.
      { apply list_eq. intros i. destruct (decide (i = h)) as [->|Hne].
        - rewrite list_lookup_alter_eq, list_lookup_insert_eq, E
            by (by eapply lookup_lt_Some).
          cbn. unfold resolved. by rewrite Hp.
        - by rewrite list_lookup_alter_ne, list_lookup_insert_ne by done. }
      destruct (s_then rec) as [c|] eqn:Et; cbn.
      * exists [JCallThen c]. split; [done|]. split; [cbn; lia|].
        repeat constructor. exists c. split; [done|]. by exists h, rec.
      * exists []. rewrite app_nil_r. split; [done|split; [cbn; lia|constructor]].
    + exists []. rewrite app_nil_r. split; [|split; [cbn; lia|constructor]].
      f_equal. replace (alter resolved h (sendPromises s)) with (sendPromises s).
      { by destruct s. }
      apply list_eq. intros i. destruct (decide (i = h)) as [->|Hne].
      * rewrite list_lookup_alter_eq, E. cbn. by rewrite resolved_settled.
      * by rewrite list_lookup_alter_ne.
  - exists []. rewrite app_nil_r. split; [|split; [cbn; lia|constructor]].
    f_equal. replace (alter resolved h (sendPromises s)) with (sendPromises s).
    { by destruct s. }
    apply list_eq. intros i. destruct (decide (i = h)) as [->|Hne].
    * by rewrite list_lookup_alter_eq, E.
    * by rewrite list_lookup_alter_ne.
Qed.

Lemma sendPackets_each_eq kv s ws :
  socket s = Some ws ->
  exists js,
    sendPackets_each kv s =
      (Ret tt,
       set_jobs (jobs s ++ js)
         (set_sendPromises (alter resolved (sp_resolve kv.2) (sendPromises s))
            (set_queue (map_delete kv.1 (queue s))
               (set_log (log s ++ flush_log ws kv) s)))) /\
    sum_list_with job_weight js <= 2 /\
    Forall (fun j => exists c, j = JCallThen c /\ chained s c) js.
Proof.
  intros Hws. destruct kv as [key packet]. unfold sendPackets_each. unfold bind at 1.
  rewrite (send_now _ _ _ ws) by (by right || done).
  unfold bind at 1.
  destruct (resolve_send_eq (sp_resolve packet)
              (set_log (log s ++ [WsSend ws (sp_data packet);
                                  Emit "debug" (AOut (sp_data packet))]) s))
    as (js & -> & Hw & Hf).
  exists js. split; [done|]. split; [done|].
  eapply Forall_impl; [exact Hf|]. intros j (c & -> & h & r & Hr & Ht).
  exists c. split; [done|]. by exists h, r.
Qed.

Lemma filter_map_delete {V} (k : string) (P : string * V -> Prop)
    `{!forall x, Decision (P x)} (m : list (string * V)) :
  filter P (map_delete k m) = filter (fun kv => kv.1 <> k /\ P kv) m.
Proof.
  unfold map_delete. rewrite list_filter_filter.
  apply list_filter_iff. naive_solver.
Qed.

(** The loop of [sendPackets] over the entries [l]: each packet is sent on
    the transport, its promise resolved, its key deleted. *)
Lemma flush_loop l : forall s ws,
  socket s = Some ws ->
  exists js,
    forEach sendPackets_each l s =
      (Ret tt,
       set_jobs (jobs s ++ js)
         (set_sendPromises (flushed l (sendPromises s))
            (set_queue (filter (fun kv => kv.1 ∉ l.*1) (queue s))
               (set_log (log s ++ concat (flush_log ws <$> l)) s)))) /\
    sum_list_with job_weight js <= 2 * length l /\
    Forall (fun j => exists c, j = JCallThen c /\ chained s c) js.
Proof.
  induction l as [|kv l IH]; intros s ws Hws.
  - exists []. cbn. rewrite !app_nil_r. split; [|split; [lia|constructor]].
    unfold ret. f_equal.
    replace (filter (fun kv => kv.1 ∉ []) (queue s)) with (queue s).
    { by destruct s. }
    induction (queue s) as [|x q IHq]; [done|].
    rewrite filter_cons_True by apply not_elem_of_nil. by f_equal.
  - cbn [forEach]. unfold bind at 1.
    destruct (sendPackets_each_eq kv s ws Hws) as (js1 & -> & Hw1 & Hf1).
    cbn iota beta.
    lazymatch goal with
    | |- context [forEach sendPackets_each l ?s1] =>
        destruct (IH s1 ws) as (js2 & -> & Hw2 & Hf2); [done|]
    end.
    exists (js1 ++ js2). split; [|split].
    + f_equal. state_eq; rewrite <- ?app_assoc; try done.
      rewrite filter_map_delete. apply list_filter_iff.
      intros [k e]. cbn. rewrite not_elem_of_cons. naive_solver.
    + rewrite sum_list_with_app. cbn [length]. lia.
    + apply Forall_app. split; [done|].
      eapply Forall_impl; [exact Hf2|]. intros j (c & -> & Hc).
      exists c. split; [done|]. by eapply chained_resolved; [|exact Hc].
Qed.

Lemma filter_own_keys {V} (q : list (string * V)) :
  filter (fun kv => kv.1 ∉ q.*1) q = [].
Proof.
  assert (H : forall (l : list (string * V)) (ks : list string),
            (forall x, x ∈ l -> x.1 ∈ ks) ->
            filter (fun kv : string * V => kv.1 ∉ ks) l = []).
  { induction l as [|x l IH]; intros ks Hl; [done|].
    rewrite filter_cons_False by (intros Hx; apply Hx, Hl, list_elem_of_here).
    apply IH. intros y Hy. by apply Hl, list_elem_of_further. }
  apply H. intros x Hx. by apply list_elem_of_fmap_2.
Qed.

(** [sendPackets] on an instance with a transport: every spooled packet is
    sent in the order of the spool, every promise resolved, the spool left
    empty, and then 'connected' is emitted. *)
Lemma sendPackets_eq s ws :
  socket s = Some ws ->
  exists js,
    sendPackets s =
      (Ret tt,
       set_jobs (jobs s ++ js)
         (set_sendPromises (flushed (queue s) (sendPromises s))
            (set_queue []
               (set_log (log s ++ concat (flush_log ws <$> queue s)
                           ++ [Emit "connected" ANone])
                  (set_state Connected s))))) /\
    sum_list_with job_weight js <= 2 * length (queue s) /\
    Forall (fun j => exists c, j = JCallThen c /\ chained s c) js.
Proof.
  intros Hws. unfold sendPackets. unfold bind at 1. unfold get at 1.
  unfold bind at 1.
  destruct (flush_loop (queue s) s ws Hws) as (js & -> & Hw & Hf).
  exists js. split; [|done]. unfold_M; cbn. rewrite emit_eq by done.
  f_equal. state_eq; rewrite <- ?app_assoc; try done.
  apply filter_own_keys.
Qed.

(** Without a transport the first [send] throws; an empty spool is fine. *)
Lemma sendPackets_without_socket s :
  socket s = None ->
  sendPackets s =
    match queue s with
    | [] => (Ret tt, set_log (log s ++ [Emit "connected" ANone]) (set_state Connected s))
    | _ :: _ => (Throw TypeError, s)
    end.
Proof.
  intros Hws. unfold sendPackets; unfold_M.
  destruct (queue s) as [|[k e] q]; cbn.
  - by rewrite emit_eq.
  - unfold sendPackets_each; unfold_M.
    by rewrite send_without_socket by (by right || done).
Qed.

(** ** The microtask queue is empty after every task *)

#[local] Instance R_weight_preorder : PreOrder R_weight.
Proof. split; unfold R_weight; [intros ?; lia|intros ???; lia]. Qed.

Ltac leaf_weight := unfold R_weight, weight; cbn; lia.

Lemma weight_sendPackets : preserves R_weight sendPackets.
Proof.
  intros s. destruct (socket s) as [ws|] eqn:Hws.
  - destruct (sendPackets_eq s ws Hws) as (js & -> & Hw & _).
    unfold R_weight, weight. cbn. rewrite sum_list_with_app. lia.
  - rewrite sendPackets_without_socket by done.
    destruct (queue s) eqn:E; unfold R_weight, weight; cbn; rewrite ?E; cbn; lia.
Qed.

Lemma weight_call_catch c o : preserves R_weight (call_catch c o).
Proof. unfold call_catch. pres ltac:(apply weight_sendPackets) leaf_weight. Qed.

Lemma weight_ping_settle o : preserves R_weight (ping_settle o).
Proof. unfold ping_settle. pres fail leaf_weight. Qed.

Lemma weight_call_then c s : weight (call_then c s).2 <= weight s + 1.
Proof.
  unfold call_then, set_call, setTimeout; unfold_M; cbn.
  destruct (calls s !! c) as [rec|]; cbn; [|lia].
  destruct (noReply (c_options rec)); cbn.
  - unfold weight; cbn. rewrite sum_list_with_app. cbn. lia.
  - destruct (c_replyPromise rec); cbn; unfold weight; cbn;
      rewrite ?sum_list_with_app; cbn; lia.
Qed.

Lemma weight_run_job j js s :
  jobs s = j :: js -> weight (run_job j (set_jobs js s)).2 < weight s.
Proof.
  intros Hj.
  assert (Hw : weight s = job_weight j + weight (set_jobs js s)).
  { unfold weight. rewrite Hj. cbn. lia. }
  destruct j as [c|c o|g o]; unfold run_job.
  - pose proof (weight_call_then c (set_jobs js s)). cbn [job_weight] in Hw. lia.
  - pose proof (weight_call_catch c o (set_jobs js s)) as H.
    unfold R_weight in H. cbn [job_weight] in Hw. lia.
  - assert (H : preserves R_weight (try_catch (ping_settle o) (fun _ => ret tt))).
    { apply preserves_try_catch; [apply _|apply weight_ping_settle|].
      intros; apply preserves_ret; apply _. }
    specialize (H (set_jobs js s)). unfold R_weight in H. cbn [job_weight] in Hw. lia.
Qed.

Lemma run_jobs_complete fuel : forall s,
  weight s <= fuel -> jobs (run_jobs fuel s) = [].
Proof.
  induction fuel as [|fuel IH]; intros s Hw; cbn [run_jobs].
  - destruct (jobs s) as [|j js] eqn:Hj; [done|].
    unfold weight in Hw. rewrite Hj in Hw. destruct j; cbn in Hw; lia.
  - destruct (jobs s) as [|j js] eqn:Hj; [done|].
    apply IH. pose proof (weight_run_job j js s Hj). lia.
Qed.

(** Every task leaves the microtask queue empty. *)
Lemma step_quiescent s ev : jobs (step s ev) = [].
Proof. unfold step, drain. by apply run_jobs_complete. Qed.

Lemma run_quiescent evs : forall s, jobs s = [] -> jobs (run s evs) = [].
Proof.
  induction evs as [|ev evs IH]; intros s Hs; cbn; [done|].
  apply IH, step_quiescent.
Qed.

(** ** A call and its timeout *)

(** A call that waits for its reply, made while connected or under [force]:
    the entry is registered, the packet sent, the timeout armed. *)
Lemma step_call_races meth args opts s ws :
  jobs s = [] -> state s = Connected \/ force opts = true ->
  socket s = Some ws -> noReply opts = false ->
  let i := random s (draws s) in
  let c := length (calls s) in
  let data := {| method := meth; arguments := args; id := i |} in
  let timer := {| t_cb := CbCallTimeout c; t_delay := call_delay opts (options s);
                  t_live := true |} in
  step s (Call meth args opts) =
    set_calls (calls s ++ [with_phase Racing (new_call i opts)])
      (set_log (log s ++ [WsSend ws data; Emit "debug" (AOut data);
                          SetTimeout (length (timers s)) (CbCallTimeout c)
                            (call_delay opts (options s))])
         (set_timers (timers s ++ [timer])
            (set_replies (<[i := {| r_call := c |}]> (replies s))
               (set_draws (S (draws s)) s)))).
Proof.
  intros Hj Hc Hws Hn. cbn zeta. unfold step, after, task. unfold bind at 1.
  rewrite (call_now _ _ _ _ ws) by done. cbn iota beta. unfold ret.
  rewrite Hj. cbn [app].
  assert (Hl : forall s0 : ChatSocket, calls s0 = calls s ++ [new_call (random s (draws s)) opts] ->
                 calls s0 !! length (calls s) = Some (new_call (random s (draws s)) opts)).
  { intros s0 ->. by rewrite lookup_app_r, Nat.sub_diag by lia. }
  rewrite (drain_one _ (JCallThen (length (calls s)))); [|done|].
  all: unfold run_job; erewrite call_then_races; [|by apply Hl|done..].
  2: done.
  cbn. state_eq; rewrite <- ?app_assoc; try done.
  rewrite alter_app_r_alt by lia. by rewrite Nat.sub_diag.
Qed.

(** The timeout of a racing call expires: the call is rejected with
    [TimeoutError] and its entry is removed. *)
Lemma step_call_timeout s h t c rec :
  jobs s = [] -> timers s !! h = Some t -> t_cb t = CbCallTimeout c ->
  t_live t = true -> calls s !! c = Some rec -> c_phase rec = Racing ->
  c_reaction rec = NoReaction ->
  step s (TimerExpires h) =
    set_calls (alter (with_result (Rejected TimeoutError))
                 c (alter (with_phase Done) c (calls s)))
      (set_replies (delete (c_id rec) (replies s))
         (set_timers (alter disarm h (timers s)) s)).
Proof.
  intros Hj Ht Hcb Hl Hc Hp Hk. unfold step, after, task.
  rewrite (fire_live s h t) by done. rewrite Hcb. cbn [run_timer].
  erewrite timeout_call_racing; [|by cbn|done]. cbn. rewrite Hj. cbn [app].
  assert (Hc' : alter (with_phase Done) c (calls s) !! c = Some (with_phase Done rec)).
  { by rewrite list_lookup_alter_eq, Hc. }
  rewrite (drain_one _ (JCallSettle c (Rejected TimeoutError))); [|done|].
  all: unfold run_job; erewrite call_catch_timeout; [|by cbn|done].
  2: done.
  cbn. by state_eq.
Qed.

(** A reply frame whose id has no entry, handed to [parsePacket] or arriving
    on the transport, is reported and changes nothing else. *)
Lemma step_reply_unmatched f packet s :
  jobs s = [] -> binary f = false -> parsed f = Some (PPacket packet) ->
  p_type packet = "reply" -> replies s !! p_id packet = None ->
  0 < errorListeners s ->
  step s (ParsePacket f) =
    set_log (log s ++ [Emit "debug" (AIn packet);
                       Emit "error" (AError (NoMethodFound "No handler for reply Id."))]) s.
Proof.
  intros Hj Hb Hp Ht Hr He. unfold step, after, task.
  erewrite parsePacket_unmatched by done. by rewrite drain_nil.
Qed.

(** When nobody listens to 'error', the caller of [parsePacket] gets the
    error as an exception. *)
Lemma step_reply_unmatched_unheard f packet s :
  jobs s = [] -> binary f = false -> parsed f = Some (PPacket packet) ->
  p_type packet = "reply" -> replies s !! p_id packet = None ->
  errorListeners s = 0 ->
  step s (ParsePacket f) =
    set_log (log s ++ [Emit "debug" (AIn packet);
                       Uncaught (NoMethodFound "No handler for reply Id.")]) s.
Proof.
  intros Hj Hb Hp Ht Hr He. unfold step, after, task.
  erewrite parsePacket_unmatched_unheard by done. rewrite drain_nil by done.
  state_eq; rewrite <- ?app_assoc; done.
Qed.

Lemma whilstSameSocket_eq ws fn s :
  whilstSameSocket ws fn s = if listening ws s then fn s else (Ret tt, s).
Proof.
  unfold whilstSameSocket, listening; unfold_M. by destruct (_ && _).
Qed.

Lemma resetPingTimeout_eq s :
  resetPingTimeout s =
    (Ret tt,
     set_pingTimeoutHandle (Some (length (timers s)))
       (set_log (log s ++ [SetTimeout (length (timers s)) CbPing
                             (pingInterval (options s))])
          (set_timers
             ((clearTimeout (pingTimeoutHandle s) s).2.(timers)
              ++ [{| t_cb := CbPing; t_delay := pingInterval (options s);
                     t_live := true |}]) s))).
Proof.
  unfold resetPingTimeout, setTimeout; unfold_M.
  destruct (pingTimeoutHandle s); cbn; rewrite ?length_alter; f_equal; by state_eq.
Qed.

Lemma ws_message_reply_unmatched ws f packet s :
  jobs s = [] -> binary f = false -> parsed f = Some (PPacket packet) ->
  p_type packet = "reply" -> replies s !! p_id packet = None ->
  0 < errorListeners s ->
  step s (WsMessageEvent ws f) = s \/
  step s (WsMessageEvent ws f) =
    set_log (log s ++ [SetTimeout (length (timers s)) CbPing (pingInterval (options s));
                       Emit "debug" (AIn packet);
                       Emit "error" (AError (NoMethodFound "No handler for reply Id."))])
      (resetPingTimeout s).2.
Proof.
  intros Hj Hb Hp Ht Hr He. unfold step, after, task, ws_on_message.
  rewrite whilstSameSocket_eq. destruct (listening ws s).
  - right. unfold bind at 1. rewrite resetPingTimeout_eq.
    erewrite parsePacket_unmatched; [|done..| by cbn].
    rewrite drain_nil by done. state_eq; rewrite <- ?app_assoc; done.
  - left. by rewrite drain_nil.
Qed.

Lemma ws_message_reply_unmatched_unheard ws f packet s :
  jobs s = [] -> binary f = false -> parsed f = Some (PPacket packet) ->
  p_type packet = "reply" -> replies s !! p_id packet = None ->
  errorListeners s = 0 ->
  step s (WsMessageEvent ws f) = s \/
  step s (WsMessageEvent ws f) =
    set_log (log s ++ [SetTimeout (length (timers s)) CbPing (pingInterval (options s));
                       Emit "debug" (AIn packet);
                       Uncaught (NoMethodFound "No handler for reply Id.")])
      (resetPingTimeout s).2.
Proof.
  intros Hj Hb Hp Ht Hr He. unfold step, after, task, ws_on_message.
  rewrite whilstSameSocket_eq. destruct (listening ws s).
  - right. unfold bind at 1. rewrite resetPingTimeout_eq.
    erewrite parsePacket_unmatched_unheard; [|done..| by cbn].
    rewrite drain_nil by done. state_eq; rewrite <- ?app_assoc; done.
  - left. by rewrite drain_nil.
Qed.

(** A call spooled while disconnected registers its entry and arms no
    timer. *)
Lemma step_call_spooled meth args opts s :
  jobs s = [] -> state s <> Connected -> force opts = false -> meth <> "auth" ->
  let i := random s (draws s) in
  let c := length (calls s) in
  let h := length (sendPromises s) in
  let data := {| method := meth; arguments := args; id := i |} in
  step s (Call meth args opts) =
    set_sendPromises (sendPromises s ++ [{| s_state := Pending; s_then := Some c |}])
      (set_log (log s ++ [Emit "spooled" (AOut data)])
         (set_queue (map_set meth {| sp_resolve := h; sp_data := data |} (queue s))
            (set_replies (<[i := {| r_call := c |}]> (replies s))
               (set_calls (calls s ++ [new_call i opts])
                  (set_draws (S (draws s)) s))))).
Proof.
  intros Hj Hst Hf Hm. cbn zeta. unfold step, after, task. unfold bind at 1.
  rewrite call_spooled by done. unfold ret. by rewrite drain_nil.
Qed.

(** [options.timeout || this.options.callTimeout]: the timeout of the call
    when it is given and not 0, else the configured one. *)
Lemma call_delay_eq opts o :
  (timeout opts = None -> call_delay opts o = callTimeout o) /\
  (timeout opts = Some 0%Z -> call_delay opts o = callTimeout o) /\
  (forall t, timeout opts = Some t -> t <> 0%Z -> call_delay opts o = t).
Proof.
  unfold call_delay. split; [by intros ->|]. split; [by intros ->|].
  intros t -> Ht. by apply Z.eqb_neq in Ht as ->.
Qed.

(** ** An id without an entry *)

Lemma calls_grow_refl s : calls_grow s s.
Proof. split; [done|]. eauto. Qed.

Lemma calls_grow_trans s1 s2 s3 :
  calls_grow s1 s2 -> calls_grow s2 s3 -> calls_grow s1 s3.
Proof.
  intros [Hl1 H1] [Hl2 H2]. split; [lia|].
  intros c rec Hc. destruct (H1 c rec Hc) as (rec' & Hc' & E).
  destruct (H2 c rec' Hc') as (rec'' & Hc'' & E'). exists rec''. split; [done|congruence].
Qed.

#[local] Instance R_absent_preorder i : PreOrder (R_absent i).
Proof.
  split.
  - intros s. split; [apply calls_grow_refl|auto].
  - intros s1 s2 s3 [G1 H1] [G2 H2]. split; [by eapply calls_grow_trans|].
    intros Hu Hn. apply H2.
    + intros c rec Hc Hl. apply (Hu c rec Hc). destruct G1. lia.
    + apply H1; [|done].
      intros c rec Hc Hl. destruct G2 as [_ G2].
      destruct (G2 c rec Hc) as (rec' & Hc' & <-). by apply (Hu c rec').
Qed.

Lemma R_absent_same i s s' :
  calls s' = calls s -> replies s' = replies s -> R_absent i s s'.
Proof.
  intros Hc Hr. split.
  - unfold calls_grow. rewrite Hc. split; [done|]. eauto.
  - by rewrite Hr.
Qed.

Lemma R_absent_alter i s s' c f :
  (forall r, c_id (f r) = c_id r) ->
  calls s' = alter f c (calls s) -> replies s' = replies s -> R_absent i s s'.
Proof.
  intros Hf Hc Hr. split.
  - unfold calls_grow. rewrite Hc, length_alter. split; [done|].
    intros c' rec Hc'. destruct (decide (c = c')) as [->|Hne].
    + exists (f rec). by rewrite list_lookup_alter_eq, Hc'.
    + exists rec. by rewrite list_lookup_alter_ne.
  - by rewrite Hr.
Qed.

Lemma R_absent_delete i s s' k :
  calls s' = calls s -> replies s' = delete k (replies s) -> R_absent i s s'.
Proof.
  intros Hc Hr. split.
  - unfold calls_grow. rewrite Hc. split; [done|]. eauto.
  - intros _ Hn. rewrite Hr. destruct (decide (k = i)) as [->|Hne].
    + apply lookup_delete_eq.
    + by rewrite lookup_delete_ne.
Qed.

Lemma R_absent_call i s s' i' r opts :
  calls s' = calls s ++ [new_call i' opts] ->
  replies s' = <[i' := r]> (replies s) -> R_absent i s s'.
Proof.
  intros Hc Hr. split.
  - unfold calls_grow. rewrite Hc, length_app. split; [lia|].
    intros c rec Hc'. exists rec. split; [|done]. by apply lookup_app_l_Some.
  - intros Hu Hn. rewrite Hr.
    assert (i' <> i).
    { apply (Hu (length (calls s)) (new_call i' opts)); [|done].
      by rewrite Hc, lookup_app_r, Nat.sub_diag by lia. }
    by rewrite lookup_insert_ne.
Qed.

Ltac leaf_absent :=
  first
    [ by apply R_absent_same
    | by eapply R_absent_alter; [|reflexivity|reflexivity]
    | by eapply R_absent_delete
    | by eapply R_absent_call ].

Lemma absent_task i ev : preserves (R_absent i) (task ev).
Proof. destruct ev; cbn [task]; pres fail leaf_absent. Qed.

Lemma absent_run_job i j : preserves (R_absent i) (run_job j).
Proof. destruct j; unfold run_job; pres fail leaf_absent. Qed.

(** A reply id that has no entry still has none after any run in which no
    new call drew that id. *)
Lemma absent_run i s evs :
  id_unused i s (run s evs) -> replies s !! i = None ->
  replies (run s evs) !! i = None.
Proof.
  apply (preserves_run (R_absent i)); auto using absent_task, absent_run_job.
  all: intros; leaf_absent.
Qed.

(** C4.  The timeout of a call is [options.timeout] when that is given and
    not 0, else the configured [callTimeout].  A call that waits for its
    reply and is handed to the transport at once, that is, made while
    connected or under [force], registers its entry, sends the packet and
    arms a timer of that delay.  When the timer expires while the race is
    still pending (no reply has arrived), the call is rejected with
    [TimeoutError], its entry is removed and nothing is emitted.  From then
    on, after any run in which no new call draws the same id, a reply frame
    with that id settles no promise: apart from the log (and the keepalive
    timer when the frame arrives on the transport) the instance is
    unchanged.  The frame is reported as "No handler for reply Id.": as an
    'error' notification when the user listens to 'error', and otherwise as
    an exception thrown out of [parsePacket].  A call spooled while
    disconnected registers its entry too, but arms no timer when it is
    made. *)
Theorem call_timeout_purges_entry meth args opts s :
  jobs s = [] -> noReply opts = false ->
  let i := random s (draws s) in
  let c := length (calls s) in
  let h := length (timers s) in
  let timer := {| t_cb := CbCallTimeout c; t_delay := call_delay opts (options s);
                  t_live := true |} in
  let s1 := step s (Call meth args opts) in
  ((timeout opts = None -> t_delay timer = callTimeout (options s)) /\
   (timeout opts = Some 0%Z -> t_delay timer = callTimeout (options s)) /\
   (forall t, timeout opts = Some t -> t <> 0%Z -> t_delay timer = t)) /\
  (forall ws,
     state s = Connected \/ force opts = true -> socket s = Some ws ->
     replies s1 !! i = Some {| r_call := c |} /\
     calls s1 !! c = Some (with_phase Racing (new_call i opts)) /\
     timers s1 !! h = Some timer /\
     jobs s1 = [] /\
     forall s2 rec,
       jobs s2 = [] -> timers s2 !! h = Some timer -> calls s2 !! c = Some rec ->
       c_id rec = i -> c_phase rec = Racing -> c_reaction rec = NoReaction ->
       let s3 := step s2 (TimerExpires h) in
       calls s3 !! c = Some (with_result (Rejected TimeoutError) (with_phase Done rec)) /\
       replies s3 !! i = None /\
       log s3 = log s2 /\
       forall evs f packet,
         id_unused i s3 (run s3 evs) ->
         binary f = false -> parsed f = Some (PPacket packet) ->
         p_type packet = "reply" -> p_id packet = i ->
         let s4 := run s3 evs in
         let err := NoMethodFound "No handler for reply Id." in
         let ping_timer := SetTimeout (length (timers s4)) CbPing
                             (pingInterval (options s4)) in
         (0 < errorListeners s4 ->
          let report := [Emit "debug" (AIn packet); Emit "error" (AError err)] in
          step s4 (ParsePacket f) = set_log (log s4 ++ report) s4 /\
          forall ws',
            step s4 (WsMessageEvent ws' f) = s4 \/
            step s4 (WsMessageEvent ws' f) =
              set_log (log s4 ++ ping_timer :: report) (resetPingTimeout s4).2) /\
         (errorListeners s4 = 0 ->
          let report := [Emit "debug" (AIn packet); Uncaught err] in
          step s4 (ParsePacket f) = set_log (log s4 ++ report) s4 /\
          forall ws',
            step s4 (WsMessageEvent ws' f) = s4 \/
            step s4 (WsMessageEvent ws' f) =
              set_log (log s4 ++ ping_timer :: report) (resetPingTimeout s4).2)) /\
  (state s <> Connected -> force opts = false -> meth <> "auth" ->
   replies s1 !! i = Some {| r_call := c |} /\
   calls s1 !! c = Some (new_call i opts) /\
   timers s1 = timers s /\
   sendPromises s1 !! length (sendPromises s) =
     Some {| s_state := Pending; s_then := Some c |} /\
   jobs s1 = []).
Proof.
  intros Hj Hn. cbn zeta. split; [apply call_delay_eq|]. split.
  - intros ws Hc Hws.
    rewrite (step_call_races _ _ _ _ ws) by done. cbn.
    split; [apply lookup_insert_eq|].
    split; [by rewrite lookup_app_r, Nat.sub_diag by lia|].
    split; [by rewrite lookup_app_r, Nat.sub_diag by lia|].
    split; [done|].
    intros s2 rec Hj2 Ht2 Hc2 Hid Hph Hk.
    rewrite (step_call_timeout s2 _ _ (length (calls s)) rec Hj2 Ht2) by done. cbn.
    split; [by rewrite !list_lookup_alter_eq, Hc2|].
    split; [rewrite Hid; apply lookup_delete_eq|].
    split; [done|].
    intros evs f packet Hu Hb Hp Hty Hpid.
    match goal with |- context [run ?x evs] => set (s3 := x) in * end.
    assert (Hq : jobs (run s3 evs) = []) by (by apply run_quiescent).
    assert (Hr : replies (run s3 evs) !! p_id packet = None).
    { rewrite Hpid. apply absent_run; [done|].
      subst s3. cbn. rewrite Hid. apply lookup_delete_eq. }
    split; intros He.
    + split; [by apply step_reply_unmatched|].
      intros ws'. by apply ws_message_reply_unmatched.
    + split; [by apply step_reply_unmatched_unheard|].
      intros ws'. by apply ws_message_reply_unmatched_unheard.
  - intros Hst Hf Hm. rewrite step_call_spooled by done. cbn.
    split; [apply lookup_insert_eq|].
    split; [by rewrite lookup_app_r, Nat.sub_diag by lia|].
    split; [done|].
    split; [by rewrite lookup_app_r, Nat.sub_diag by lia|done].
Qed.

Lemma call_timeout_purges_entry_witness :
  let s := run (sample getDefaults) [Boot; WsMessageEvent 0 WelcomeEvent] in
  (jobs s = [] /\ state s = Connected /\ socket s = Some 0) /\
  replies (step s (Call "foo" [] no_options)) !! random s (draws s) =
    Some {| r_call := length (calls s) |} /\
  timers (step s (Call "foo" [] no_options)) !! length (timers s) =
    Some {| t_cb := CbCallTimeout (length (calls s)); t_delay := 20000;
            t_live := true |}.
Proof.
  intros s.
  assert (Hj : jobs s = []) by (vm_compute; reflexivity).
  assert (Hst : state s = Connected) by (vm_compute; reflexivity).
  assert (Hws : socket s = Some 0) by (vm_compute; reflexivity).
  pose proof (call_timeout_purges_entry "foo" [] no_options s Hj eq_refl) as H.
  cbn zeta in H. destruct H as (_ & H & _).
  destruct (H 0 (or_introl Hst) Hws) as (H1 & _ & H3 & _).
  exact (conj (conj Hj (conj Hst Hws)) (conj H1 H3)).
Defined.

(** C4 as stated fails for a call spooled while disconnected whose spool
    entry is replaced by a later call of the same method: the promise of its
    [send] is never resolved, so its timeout is never armed.  After the flush
    and the expiry of the timeout of the second call, the first call is still
    pending and its entry is still in the map. *)
Lemma spooled_call_never_times_out :
  let s := run (sample getDefaults)
             [Boot; Call "foo" [ArgString "a"] no_options;
              Call "foo" [ArgString "b"] no_options;
              WsMessageEvent 0 WelcomeEvent] in
  let s' := step s (TimerExpires 2) in
  sent (log s) = [{| method := "foo"; arguments := [ArgString "b"]; id := 101 |}] /\
  t_cb <$> timers s = [CbPing; CbPing; CbCallTimeout 1] /\
  (c_result <$> calls s' !! 1) = Some (Rejected TimeoutError) /\
  (c_result <$> calls s' !! 0) = Some Pending /\
  (c_phase <$> calls s' !! 0) = Some AwaitSend /\
  replies s' !! 100%Z = Some {| r_call := 0 |} /\
  t_cb <$> filter (fun t => t_live t = true) (timers s') = [CbPing].
Proof.
  cbn zeta. refine (conj _ (conj _ (conj _ (conj _ (conj _ (conj _ _)))))).
  all: by vm_compute.
Qed.

(** The scenario on a trace: connect, call "foo", let the call timer (handle
    2) expire, then receive the reply. *)
Example call_timeout_trace :
  let s := run (sample getDefaults)
             [On "error"; Boot; WsMessageEvent 0 WelcomeEvent;
              Call "foo" [] no_options; TimerExpires 2] in
  let s' := step s (ParsePacket (reply_ok 100)) in
  (c_result <$> calls s !! 0) = Some (Rejected TimeoutError) /\
  replies s !! 100%Z = None /\
  new_log s s' =
    [Emit "debug" (AIn {| p_type := "reply"; p_id := 100; p_event := "";
                          p_data := "{}"; p_error := None |});
     Emit "error" (AError (NoMethodFound "No handler for reply Id."))] /\
  calls s' = calls s.
Proof. vm_compute. done. Qed.

(** ** One spooled entry per method *)

Lemma resolved_idemp r : resolved (resolved r) = resolved r.
Proof. destruct r as [[|v|e] t]; reflexivity. Qed.

Lemma flushed_lookup l : forall (sp : list SendRec) (h : nat),
  flushed l sp !! h =
    if decide (h ∈ (fun kv : string * ISpooledMethod => sp_resolve kv.2) <$> l)
    then resolved <$> sp !! h else sp !! h.
Proof.
  induction l as [|kv l IH]; intros sp h; cbn.
  - rewrite decide_False by apply not_elem_of_nil. done.
  - unfold flushed in *. cbn [foldl]. rewrite IH.
    destruct (decide (sp_resolve kv.2 = h)) as [->|Hne].
    + rewrite list_lookup_alter_eq.
      rewrite (decide_True (P := _ ∈ _ :: _)) by apply list_elem_of_here.
      destruct (decide _); [|done].
      destruct (sp !! h); cbn; [|done]. by rewrite resolved_idemp.
    + rewrite list_lookup_alter_ne by done.
      destruct (decide (h ∈ _ <$> l)).
      * by rewrite decide_True by by apply list_elem_of_further.
      * rewrite decide_False; [done|]. rewrite elem_of_cons. naive_solver.
Qed.

Lemma sent_flush ws (q : list (string * ISpooledMethod)) :
  sent (concat (flush_log ws <$> q)) = (fun kv => sp_data kv.2) <$> q.
Proof. induction q as [|kv q IH]; cbn; [done|]. by rewrite <- IH. Qed.

Lemma sent_app l1 l2 : sent (l1 ++ l2) = sent l1 ++ sent l2.
Proof. apply omap_app. Qed.

Lemma new_log_app s s' l : log s' = log s ++ l -> new_log s s' = l.
Proof. intros H. unfold new_log. rewrite H. apply drop_app_length. Qed.

(** Setting a key that is present replaces its value in place. *)
Lemma map_set_present {V} k (v : V) m :
  k ∈ m.*1 -> (map_set k v m).*1 = m.*1.
Proof. intros H. by rewrite map_set_keys, decide_True. Qed.

Lemma map_set_key_in {V} k (v : V) m : k ∈ (map_set k v m).*1.
Proof.
  rewrite map_set_keys. destruct (decide _); [done|].
  rewrite elem_of_app, list_elem_of_singleton. by right.
Qed.

Lemma map_set_value_in {V} k (v : V) m : (k, v) ∈ map_set k v m.
Proof.
  induction m as [|[k0 v0] m IH]; cbn; [apply list_elem_of_here|].
  destruct (decide (k0 = k)); [apply list_elem_of_here|by apply list_elem_of_further].
Qed.

Lemma NoDup_keys_value {V} (m : list (string * V)) k v v' :
  NoDup m.*1 -> (k, v) ∈ m -> (k, v') ∈ m -> v = v'.
Proof.
  induction m as [|[k0 v0] m IH]; cbn; [by intros _ ?%elem_of_nil|].
  rewrite NoDup_cons. intros [Hn Hd]. rewrite !elem_of_cons.
  intros [E1|H1] [E2|H2].
  - congruence.
  - inversion E1; subst. destruct Hn. apply list_elem_of_fmap. by exists (k0, v').
  - inversion E2; subst. destruct Hn. apply list_elem_of_fmap. by exists (k0, v).
  - by apply IH.
Qed.

(** The packets of a spool whose method is [m], when keys are unique and
    are the method names: the packet stored under [m], if any. *)
Lemma filter_method_absent (q : list (string * ISpooledMethod)) m :
  (forall k e, (k, e) ∈ q -> method (sp_data e) = k) -> m ∉ q.*1 ->
  filter (fun d => method d = m) ((fun kv => sp_data kv.2) <$> q) = [].
Proof.
  induction q as [|[k0 e0] q IH]; intros Hk Hn; [done|].
  rewrite fmap_cons in *. apply not_elem_of_cons in Hn as [Hne Hn].
  rewrite filter_cons_False.
  - apply IH; [|done]. intros k e He. by apply Hk, list_elem_of_further.
  - cbn. rewrite (Hk k0 e0) by apply list_elem_of_here. by intros <-.
Qed.

Lemma filter_method_spool (q : list (string * ISpooledMethod)) m e :
  NoDup q.*1 -> (forall k e, (k, e) ∈ q -> method (sp_data e) = k) ->
  (m, e) ∈ q ->
  filter (fun d => method d = m) ((fun kv => sp_data kv.2) <$> q) = [sp_data e].
Proof.
  induction q as [|[k0 e0] q IH]; intros Hd Hk Hin; [by apply elem_of_nil in Hin|].
  rewrite fmap_cons in *. apply NoDup_cons in Hd as [Hn Hd].
  apply elem_of_cons in Hin as [E|Hin].
  - inversion E; subst k0 e0.
    rewrite filter_cons_True by (apply Hk, list_elem_of_here).
    f_equal. apply filter_method_absent; [|done].
    intros k e' He'. by apply Hk, list_elem_of_further.
  - rewrite filter_cons_False.
    + apply IH; [done| |done]. intros k e' He'. by apply Hk, list_elem_of_further.
    + cbn. rewrite (Hk k0 e0) by apply list_elem_of_here. intros ->.
      apply Hn. apply list_elem_of_fmap. by exists (m, e).
Qed.

Lemma keys_send data opts : preserves R_keys (send data opts).
Proof. unfold send. pres fail leaf_keys. Qed.

Lemma keys_unique_new eps opts r rnd : keys_unique (new_ChatSocket eps opts r rnd).
Proof. split; [constructor|]. intros k e H. by apply elem_of_nil in H. Qed.

(** C5.  In every state reachable from a new instance the spool holds at most
    one entry per key, and the key of an entry is the method name of its
    packet.  Two [send]s with the same method name (not 'auth', no [force])
    while not connected each return a pending promise; the second adds no
    entry but replaces packet and [resolve] of the first.  When the spool is
    then flushed, exactly one packet with that method name is handed to the
    transport, the second one; the promise of the second [send] is resolved
    and the promise of the first stays pending. *)
Theorem spool_one_entry_per_method :
  (forall eps opts r rnd evs,
     keys_unique (run (new_ChatSocket eps opts r rnd) evs)) /\
  (forall s d1 d2 o1 o2 ws,
     keys_unique s -> state s <> Connected -> socket s = Some ws ->
     force o1 = false -> force o2 = false ->
     method d1 <> "auth" -> method d2 = method d1 ->
     let h1 := length (sendPromises s) in
     let h2 := S h1 in
     let s1 := (send d1 o1 s).2 in
     let s2 := (send d2 o2 s1).2 in
     let s3 := (sendPackets s2).2 in
     (send d1 o1 s).1 = Ret (SendPending h1) /\
     (send d2 o2 s1).1 = Ret (SendPending h2) /\
     (queue s2).*1 = (queue s1).*1 /\
     (forall e, (method d1, e) ∈ queue s2 <->
                e = {| sp_resolve := h2; sp_data := d2 |}) /\
     filter (fun d => method d = method d1) (sent (new_log s2 s3)) = [d2] /\
     sendPromises s3 !! h2 = Some {| s_state := Fulfilled VUndefined; s_then := None |} /\
     sendPromises s3 !! h1 = Some {| s_state := Pending; s_then := None |} /\
     queue s3 = []).
Proof.
  split.
  { intros eps opts r rnd evs. apply keys_unique_run, keys_unique_new. }
  intros s d1 d2 o1 o2 ws Hk Hst Hws Hf1 Hf2 Hm1 Hm2. cbn zeta.
  rewrite (send_spooled d1 o1 s) by done. cbn [fst snd].
  set (e1 := {| sp_resolve := length (sendPromises s); sp_data := d1 |}).
  set (s1 := set_log _ _).
  assert (Hk1 : keys_unique s1).
  { pose proof (keys_send d1 o1 s Hk) as H. by rewrite (send_spooled d1 o1 s) in H. }
  rewrite (send_spooled d2 o2 s1) by (done || congruence). cbn [fst snd].
  assert (Hl1 : length (sendPromises s1) = S (length (sendPromises s))).
  { subst s1. cbn. rewrite length_app. cbn. lia. }
  rewrite Hl1.
  set (e2 := {| sp_resolve := S (length (sendPromises s)); sp_data := d2 |}).
  set (s2 := set_log _ _).
  assert (Hk2 : keys_unique s2).
  { pose proof (keys_send d2 o2 s1 Hk1) as H.
    by rewrite (send_spooled d2 o2 s1), Hl1 in H by (done || congruence). }
  assert (Hq1 : queue s1 = map_set (method d1) e1 (queue s)) by done.
  assert (Hq2 : queue s2 = map_set (method d1) e2 (queue s1)).
  { subst s2. cbn. by rewrite Hm2. }
  assert (Hin2 : (method d1, e2) ∈ queue s2).
  { rewrite Hq2. apply map_set_value_in. }
  assert (Hval : forall e, (method d1, e) ∈ queue s2 <-> e = e2).
  { intros e. split; [|by intros ->].
    intros He. by apply (NoDup_keys_value (queue s2) (method d1)); [apply Hk2|..]. }
  assert (Hsp2 : sendPromises s2 =
            (sendPromises s ++ [{| s_state := Pending; s_then := None |}])
            ++ [{| s_state := Pending; s_then := None |}]) by done.
  assert (Hws2 : socket s2 = Some ws) by done.
  split; [done|]. split; [done|].
  split. { rewrite Hq2. apply map_set_present. rewrite Hq1. apply map_set_key_in. }
  split; [exact Hval|].
  clearbody s2. clearbody s1.
  destruct (sendPackets_eq s2 ws) as (js & -> & _ & _); [done|]. cbn [fst snd].
  split.
  { erewrite new_log_app by (cbn; reflexivity).
    rewrite sent_app, sent_flush. cbn. rewrite app_nil_r.
    apply (filter_method_spool (queue s2) (method d1) e2); [apply Hk2| |done].
    intros k e He. by apply Hk2. }
  cbn. rewrite !flushed_lookup, Hsp2.
  split; [|split; [|done]].
  - rewrite decide_True by (apply list_elem_of_fmap; by exists (method d1, e2)).
    rewrite lookup_app_r by (rewrite length_app; cbn; lia).
    rewrite length_app. cbn. by replace (_ - _) with 0 by lia.
  - rewrite decide_False.
    + rewrite lookup_app_l by (rewrite length_app; cbn; lia).
      by rewrite lookup_app_r, Nat.sub_diag by lia.
    + intros ([k e] & Hh & He)%list_elem_of_fmap. cbn in Hh.
      pose proof He as He'.
      rewrite Hq2 in He. apply elem_of_map_set in He as [[_ ->]|He]; [cbn in Hh; lia|].
      rewrite Hq1 in He. apply elem_of_map_set in He as [[-> ->]|He].
      * apply Hval in He'. inversion He'. lia.
      * destruct Hk as [_ Hk]. destruct (Hk k e He). lia.
Qed.

Lemma spool_one_entry_per_method_witness :
  let s := run (sample getDefaults) [Boot] in
  let d1 := {| method := "msg"; arguments := [ArgString "first"]; id := 1 |} in
  let d2 := {| method := "msg"; arguments := [ArgString "second"]; id := 2 |} in
  (keys_unique s /\ state s <> Connected /\ socket s = Some 0 /\
   method d1 <> "auth" /\ method d2 = method d1) /\
  (send d1 no_options s).1 = Ret (SendPending (length (sendPromises s))).
Proof.
  intros s d1 d2.
  assert (Hk : keys_unique s) by apply keys_unique_run, keys_unique_new.
  assert (Hst : state s <> Connected) by (vm_compute; discriminate).
  assert (Hws : socket s = Some 0) by (vm_compute; reflexivity).
  assert (Hm1 : method d1 <> "auth") by (vm_compute; discriminate).
  assert (Hm2 : method d2 = method d1) by reflexivity.
  pose proof (proj2 spool_one_entry_per_method s d1 d2 no_options no_options 0
                Hk Hst Hws eq_refl eq_refl Hm1 Hm2) as H.
  exact (conj (conj Hk (conj Hst (conj Hws (conj Hm1 Hm2)))) (proj1 H)).
Defined.

(** The scenario on a trace: two sends of "msg" before the handshake, then the
    welcome event (no saved credentials): one packet, the second, is sent. *)
Example spool_collapse_trace :
  let d1 := {| method := "msg"; arguments := [ArgString "first"]; id := 1 |} in
  let d2 := {| method := "msg"; arguments := [ArgString "second"]; id := 2 |} in
  let s := run (sample getDefaults)
             [Boot; Send d1 no_options; Send d2 no_options] in
  let s' := step s (WsMessageEvent 0 WelcomeEvent) in
  (queue s).*1 = ["msg"] /\ sent (new_log s s') = [d2] /\
  (s_state <$> sendPromises s') = [Pending; Fulfilled VUndefined] /\
  queue s' = [].
Proof. vm_compute. done. Qed.

(** ** The 'connected' notification *)

Lemma drain_enough n : forall m s,
  weight s <= n -> weight s <= m -> run_jobs n s = run_jobs m s.
Proof.
  induction n as [|n IH]; intros m s Hn Hm.
  - assert (Hj : jobs s = []).
    { destruct (jobs s) as [|j js] eqn:Hj; [done|].
      unfold weight in Hn. rewrite Hj in Hn. destruct j; cbn in Hn; lia. }
    by rewrite !run_jobs_nil.
  - destruct (jobs s) as [|j js] eqn:Hj; [by rewrite !run_jobs_nil|].
    pose proof (weight_run_job j js s Hj) as Hw.
    destruct m as [|m]; [lia|]. cbn [run_jobs]. rewrite Hj. apply IH; lia.
Qed.

(** The microtask queue is worked off job by job. *)
Lemma drain_cons s j js :
  jobs s = j :: js -> drain s = drain (run_job j (set_jobs js s)).2.
Proof.
  intros Hj. unfold drain. pose proof (weight_run_job j js s Hj) as Hw.
  destruct (weight s) as [|n] eqn:E; [lia|]. cbn [run_jobs]. rewrite Hj.
  apply drain_enough; lia.
Qed.

Lemma emitted_app l1 l2 : emitted (l1 ++ l2) = emitted l1 ++ emitted l2.
Proof. apply omap_app. Qed.

(** An effect that is not a notification named 'connected'. *)
Lemma emitted_other e :
  (forall a, e <> Emit "connected" a) -> "connected" ∉ emitted [e].
Proof.
  intros He. destruct e as [name a| | | | | |]; cbn; try apply not_elem_of_nil.
  intros E%list_elem_of_singleton. apply (He a). by rewrite E.
Qed.

#[local] Instance R_connected_preorder : PreOrder R_connected.
Proof.
  split.
  - intros s. exists []. rewrite app_nil_r. split; [done|]. split; [done|].
    by intros ?%elem_of_nil.
  - intros s1 s2 s3 (l1 & E1 & Q1 & C1) (l2 & E2 & Q2 & C2).
    exists (l1 ++ l2). rewrite E2, E1, app_assoc. split; [done|].
    split; [auto|]. rewrite emitted_app, elem_of_app. intros [H|H]; auto.
Qed.

#[local] Instance R_silent_preorder : PreOrder R_silent.
Proof.
  split.
  - intros s. exists []. rewrite app_nil_r. split; [done|]. split; [|done].
    apply not_elem_of_nil.
  - intros s1 s2 s3 (l1 & E1 & C1 & J1) (l2 & E2 & C2 & J2).
    exists (l1 ++ l2). rewrite E2, E1, app_assoc. split; [done|].
    split; [|congruence]. rewrite emitted_app, elem_of_app. tauto.
Qed.

Lemma R_connected_quiet s s' :
  log s' = log s -> (queue s = [] -> queue s' = []) -> R_connected s s'.
Proof.
  intros Hl Hq. exists []. rewrite app_nil_r. split; [done|]. split; [done|].
  by intros ?%elem_of_nil.
Qed.

Lemma R_connected_effect s s' e :
  log s' = log s ++ [e] -> (forall a, e <> Emit "connected" a) ->
  queue s' = queue s -> R_connected s s'.
Proof.
  intros Hl He Hq. exists [e]. split; [done|]. rewrite Hq. split; [done|].
  intros H. by apply emitted_other in H.
Qed.

Lemma map_delete_nil {V} k (q : list (string * V)) : q = [] -> map_delete k q = [].
Proof. by intros ->. Qed.

Ltac leaf_connected :=
  first
    [ by apply R_connected_quiet; cbn; auto using map_delete_nil
    | by eapply R_connected_effect; [reflexivity| |reflexivity] ].

Lemma connected_sendPackets : preserves R_connected sendPackets.
Proof.
  intros s. destruct (socket s) as [ws|] eqn:Hws.
  - destruct (sendPackets_eq s ws Hws) as (js & -> & _ & _). cbn.
    eexists. split; [reflexivity|]. done.
  - rewrite sendPackets_without_socket by done.
    destruct (queue s) eqn:E; cbn.
    + exists [connected]. by rewrite E.
    + reflexivity.
Qed.

Lemma connected_send_force data opts :
  force opts = true -> preserves R_connected (send data opts).
Proof.
  intros Hf s. destruct (socket s) as [ws|] eqn:Hws.
  - rewrite (send_now _ _ _ ws) by (by right || done). cbn.
    eexists. split; [reflexivity|]. split; [done|].
    cbn. by intros ?%list_elem_of_singleton.
  - rewrite send_without_socket by (by right || done). reflexivity.
Qed.

(** A notification under another name than 'connected'. *)
Lemma connected_emit name a :
  name <> "connected" -> preserves R_connected (emit name a).
Proof.
  intros Hne s. destruct (decide (name = "authResult")) as [->|Hna].
  - rewrite emit_authResult_eq. cbn [snd].
    by eapply R_connected_effect; [reflexivity| |reflexivity].
  - destruct (emit_cases name a s Hna) as [->|(_ & _ & ->)]; cbn [snd];
      [|reflexivity].
    eapply R_connected_effect; [reflexivity| |reflexivity].
    intros a0 [=]. done.
Qed.

Ltac known_connected :=
  idtac;
  lazymatch goal with
  | |- preserves _ sendPackets => apply connected_sendPackets
  | |- preserves _ (send _ _) => apply connected_send_force; reflexivity
  end.

(** A frame that does not carry a server event named 'connected'. *)
Lemma connected_parsePacket f :
  event_frame_for "connected" f = false -> preserves R_connected (parsePacket f).
Proof.
  intros Hf. unfold event_frame_for in Hf. unfold parsePacket.
  destruct (binary f); [pres known_connected leaf_connected|].
  destruct (parsed f) as [[|packet|ty]|];
    [pres known_connected leaf_connected| |pres known_connected leaf_connected..].
  cbn in Hf.
  refine (preserves_bind _ _ _ _ _); [pres known_connected leaf_connected|intros _].
  destruct (String.eqb (p_type packet) "reply"); [pres known_connected leaf_connected|].
  destruct (String.eqb (p_type packet) "event"); [|pres known_connected leaf_connected].
  cbn in Hf. apply String.eqb_neq in Hf. unfold emit_event.
  refine (preserves_bind _ _ _ _ _); [by apply connected_emit|intros _].
  pres known_connected leaf_connected.
Qed.

Lemma connected_run_job j : preserves R_connected (run_job j).
Proof. destruct j; unfold run_job; pres known_connected leaf_connected. Qed.

Lemma connected_run_jobs fuel s : R_connected s (run_jobs fuel s).
Proof.
  apply preserves_run_jobs; [apply _|apply connected_run_job|].
  intros; leaf_connected.
Qed.

(** Every task keeps [R_connected] but the three that may spool and the frame
    with a server event named 'connected'. *)
Lemma connected_task ev :
  match ev with Send _ _ | Call _ _ _ | Auth _ _ _ => False | _ => True end ->
  carries_event "connected" ev = false ->
  preserves R_connected (task ev).
Proof.
  destruct ev; cbn [task carries_event]; intros H Hc; try done.
  all: try (pres known_connected leaf_connected; fail).
  - by apply connected_parsePacket.
  - unfold ws_on_message, whilstSameSocket.
    pres ltac:(idtac; lazymatch goal with
                      | |- preserves _ (parsePacket _) => by apply connected_parsePacket
                      end) leaf_connected.
Qed.

Lemma R_silent_quiet s s' :
  log s' = log s -> jobs s' = jobs s -> R_silent s s'.
Proof.
  intros Hl Hj. exists []. rewrite app_nil_r. split; [done|]. split; [|done].
  apply not_elem_of_nil.
Qed.

Lemma R_silent_effect s s' e :
  log s' = log s ++ [e] -> (forall a, e <> Emit "connected" a) ->
  jobs s' = jobs s -> R_silent s s'.
Proof.
  intros Hl He Hj. exists [e]. split; [done|]. split; [|done].
  by apply emitted_other.
Qed.

Ltac leaf_silent :=
  first
    [ by apply R_silent_quiet
    | by eapply R_silent_effect; [reflexivity| |reflexivity] ].

Lemma silent_send data opts : preserves R_silent (send data opts).
Proof. unfold send. pres fail leaf_silent. Qed.

Lemma call_auth_dropped args opts s :
  state s <> Connected -> force opts = false ->
  let i := random s (draws s) in
  let c := length (calls s) in
  call "auth" args opts s =
    (Ret c,
     set_jobs (jobs s ++ [JCallThen c])
       (set_replies (<[i := {| r_call := c |}]> (replies s))
          (set_calls (calls s ++ [new_call i opts])
             (set_draws (S (draws s)) s)))).
Proof.
  intros Hc Hf. cbn zeta. unfold call, Math_random_id; unfold_M; cbn.
  by rewrite send_auth_dropped.
Qed.

(** The then-callback of a call that has just been made: at most a timer is
    armed. *)
Lemma drain_fresh_call s c i o :
  jobs s = [JCallThen c] -> calls s !! c = Some (new_call i o) ->
  exists l, log (drain s) = log s ++ l /\ emitted l = [] /\
            queue (drain s) = queue s.
Proof.
  intros Hj Hc. rewrite (drain_cons s _ _ Hj). unfold run_job.
  destruct (noReply o) eqn:Hn.
  - erewrite call_then_noReply; [|by cbn|done]. cbn [snd].
    erewrite drain_cons by (by cbn). unfold run_job.
    erewrite call_catch_other;
      [|by cbn; rewrite list_lookup_alter_eq, Hc|done|done].
    rewrite drain_nil by done. exists []. cbn. by rewrite app_nil_r.
  - erewrite call_then_races; [|by cbn|done..]. cbn [snd].
    rewrite drain_nil by done. eexists. cbn. split; [reflexivity|]. done.
Qed.

Lemma silent_step_Call meth args opts s :
  jobs s = [] ->
  exists l, log (step s (Call meth args opts)) = log s ++ l /\
            "connected" ∉ emitted l.
Proof.
  intros Hj. unfold step, after, task. unfold bind at 1.
  assert (Hnew : forall (s0 : ChatSocket) i,
            calls s0 = calls s ++ [new_call i opts] ->
            calls s0 !! length (calls s) = Some (new_call i opts)).
  { intros s0 i ->. by rewrite lookup_app_r, Nat.sub_diag by lia. }
  destruct (decide (state s = Connected \/ force opts = true)) as [Hc|Hc].
  - destruct (socket s) as [ws|] eqn:Hws.
    + rewrite (call_now _ _ _ _ ws) by done. unfold ret. rewrite Hj. cbn [app].
      edestruct drain_fresh_call as (l & -> & Hl & _); [by cbn|by eapply Hnew|].
      cbn. eexists. rewrite <- app_assoc. split; [reflexivity|].
      rewrite emitted_app, Hl. cbn. by intros ?%list_elem_of_singleton.
    + rewrite call_without_socket by done. rewrite drain_nil by done.
      eexists. cbn. split; [reflexivity|]. apply not_elem_of_nil.
  - assert (state s <> Connected /\ force opts = false) as [Hst Hf].
    { split; [tauto|]. destruct (force opts); tauto. }
    destruct (decide (meth = "auth")) as [->|Hm].
    + rewrite call_auth_dropped by done. unfold ret. rewrite Hj. cbn [app].
      edestruct drain_fresh_call as (l & -> & Hl & _); [by cbn|by eapply Hnew|].
      cbn. exists l. split; [done|]. rewrite Hl. apply not_elem_of_nil.
    + rewrite call_spooled by done. unfold ret. rewrite drain_nil by done.
      eexists. cbn. split; [reflexivity|]. cbn. by intros ?%list_elem_of_singleton.
Qed.

Lemma silent_step_Auth channelId userId authKey s :
  jobs s = [] ->
  exists l, log (step s (Auth channelId userId authKey)) = log s ++ l /\
            "connected" ∉ emitted l.
Proof.
  intros Hj. unfold step, after, task, auth, isConnected; unfold_M; cbn.
  destruct (bool_decide (state s = Connected)) eqn:Hst.
  - apply bool_decide_eq_true in Hst.
    destruct (socket s) as [ws|] eqn:Hws.
    + rewrite (call_now _ _ _ _ ws) by (by left || done). cbn. rewrite Hj. cbn [app].
      edestruct drain_fresh_call as (l & -> & Hl & _);
        [by cbn|by cbn; rewrite lookup_app_r, Nat.sub_diag by lia|].
      cbn. eexists. rewrite <- app_assoc. split; [reflexivity|].
      rewrite emitted_app, Hl. cbn. by intros ?%list_elem_of_singleton.
    + rewrite call_without_socket by (by left || done). cbn.
      rewrite drain_nil by done.
      eexists. cbn. split; [reflexivity|]. apply not_elem_of_nil.
  - cbn. rewrite drain_nil by done. exists []. cbn. rewrite app_nil_r.
    split; [done|apply not_elem_of_nil].
Qed.

Lemma silent_step_Send data opts s :
  jobs s = [] ->
  exists l, log (step s (Send data opts)) = log s ++ l /\
            "connected" ∉ emitted l.
Proof.
  intros Hj. unfold step, after, task. unfold bind at 1.
  destruct (silent_send data opts s) as (l & Hl & Hc & Hjs).
  destruct (send data opts s) as [[r|e] s']; cbn in *.
  - rewrite drain_nil by congruence. eauto.
  - rewrite drain_nil by (cbn; congruence). cbn. rewrite Hl, <- app_assoc.
    eexists. split; [reflexivity|]. rewrite emitted_app, not_elem_of_app.
    split; [done|]. apply not_elem_of_nil.
Qed.

(** A frame with a server event named 'connected' is passed on as it is. *)
Lemma parsePacket_connected_event f packet s :
  binary f = false -> parsed f = Some (PPacket packet) ->
  p_type packet = "event" -> p_event packet = "connected" ->
  parsePacket f s =
    (Ret tt,
     set_log (log s ++ [Emit "debug" (AIn packet);
                        Emit "connected" (AValue (VJson (p_data packet)))]) s).
Proof.
  intros Hb Hp Ht He. unfold parsePacket, emit_event, emit; unfold_M; cbn.
  rewrite Hb, Hp, Ht. cbn. rewrite He. cbn. by rewrite <- app_assoc.
Qed.

(** X4. Whatever the task, a public method, a transport event or a timer,
    unless it hands a frame with a server event named 'connected' to
    [parsePacket]: if a notification named 'connected' was emitted during the
    task or its microtasks, the spool is empty when they are over.  A server
    event named 'connected' is passed on by [parsePacket] under that name
    whatever the spool holds, and the spool stays as it is. *)
Lemma connected_step s ev :
  jobs s = [] ->
  (carries_event "connected" ev = false ->
   "connected" ∈ emitted (new_log s (step s ev)) -> queue (step s ev) = []) /\
  (forall f packet,
     ev = ParsePacket f -> binary f = false -> parsed f = Some (PPacket packet) ->
     p_type packet = "event" -> p_event packet = "connected" ->
     step s ev =
       set_log (log s ++ [Emit "debug" (AIn packet);
                          Emit "connected" (AValue (VJson (p_data packet)))]) s).
Proof.
  intros Hj. split.
  - intros Hce.
    assert (Hu : forall l, log (step s ev) = log s ++ l -> "connected" ∉ emitted l ->
                   "connected" ∈ emitted (new_log s (step s ev)) ->
                   queue (step s ev) = []).
    { intros l Hl Hn. by rewrite (new_log_app _ _ l Hl). }
    destruct (match ev with Send _ _ | Call _ _ _ | Auth _ _ _ => true | _ => false end)
      eqn:Hev.
    + destruct ev; try done.
      * destruct (silent_step_Send data opts s Hj) as (l & Hl & Hn). by apply (Hu l).
      * destruct (silent_step_Call meth args opts s Hj) as (l & Hl & Hn). by apply (Hu l).
      * destruct (silent_step_Auth channelId userId authKey s Hj) as (l & Hl & Hn).
        by apply (Hu l).
    + assert (R_connected s (step s ev)) as (l & Hl & _ & Hc).
      { unfold step, drain. etrans; [|apply connected_run_jobs].
        apply (preserves_after R_connected).
        - apply connected_task; [by destruct ev|done].
        - intros; leaf_connected. }
      by rewrite (new_log_app _ _ l Hl).
  - intros f packet -> Hb Hp Ht He. unfold step, after, task.
    rewrite (parsePacket_connected_event f packet) by done. by rewrite drain_nil.
Qed.

Lemma connected_step_witness :
  let s := run (sample getDefaults)
             [Boot; Call "msg" [ArgString "a"] no_options;
              Call "whisper" [ArgString "b"] no_options] in
  (jobs s = [] /\
   "connected" ∈ emitted (new_log s (step s (WsMessageEvent 0 WelcomeEvent)))) /\
  queue (step s (WsMessageEvent 0 WelcomeEvent)) = [].
Proof.
  intros s.
  assert (Hj : jobs s = []) by (vm_compute; reflexivity).
  assert (Hc : "connected" ∈ emitted (new_log s (step s (WsMessageEvent 0 WelcomeEvent)))).
  { apply (list_elem_of_lookup_2 _ 5). vm_compute. reflexivity. }
  exact (conj (conj Hj Hc)
              (proj1 (connected_step s (WsMessageEvent 0 WelcomeEvent) Hj) eq_refl Hc)).
Defined.

(** On a trace: a server event named 'connected' arriving while two calls
    are spooled is notified under that name and leaves the spool alone. *)
Example connected_event_trace :
  let s := run (sample getDefaults)
             [Boot; Call "msg" [ArgString "a"] no_options;
              Call "whisper" [ArgString "b"] no_options] in
  let s' := step s (WsMessageEvent 0 (event_frame "connected")) in
  emitted (new_log s s') = ["debug"; "connected"] /\
  (queue s').*1 = ["msg"; "whisper"] /\ state s' = Connecting.
Proof. vm_compute. done. Qed.

(** ** Re-authentication and the flush *)

(** [unSpool] with saved credentials and a transport: the re-auth call is
    made under [force], and the chain is hung on its promise. *)
Lemma unSpool_reauth args s ws :
  authPacket s = Some args -> socket s = Some ws ->
  let i := random s (draws s) in
  let c := length (calls s) in
  let data := {| method := "auth"; arguments := args; id := i |} in
  unSpool s =
    (Ret tt,
     set_calls (calls s ++ [with_reaction UnSpoolChain (new_call i force_only)])
       (set_jobs (jobs s ++ [JCallThen c])
          (set_log (log s ++ [WsSend ws data; Emit "debug" (AOut data)])
             (set_replies (<[i := {| r_call := c |}]> (replies s))
                (set_draws (S (draws s)) s))))).
Proof.
  intros Ha Hws. cbn zeta. unfold unSpool. unfold bind at 1. unfold get at 1.
  rewrite Ha. unfold bind at 1. rewrite (call_now _ _ _ _ ws) by (by right || done).
  unfold set_call, modify. cbn. f_equal. state_eq; try done.
  rewrite alter_app_r_alt by lia. by rewrite Nat.sub_diag.
Qed.

(** [unSpool] without saved credentials flushes at once. *)
Lemma unSpool_anonymous s : authPacket s = None -> unSpool s = sendPackets s.
Proof. intros Ha. unfold unSpool. unfold bind at 1. unfold get at 1. by rewrite Ha. Qed.

Lemma call_catch_reauth_ok c rec res s ws :
  calls s !! c = Some rec -> c_reaction rec = UnSpoolChain -> socket s = Some ws ->
  exists js,
    call_catch c (Fulfilled res) s =
      (Ret tt,
       set_jobs (jobs s ++ js)
         (set_sendPromises (flushed (queue s) (sendPromises s))
            (set_queue []
               (set_log (log s ++ Emit "authResult" (AValue res)
                           :: concat (flush_log ws <$> queue s) ++ [connected])
                  (set_state Connected
                     (set_authPromises (notified res (authResultOnce s) (authPromises s))
                        (set_authResultOnce []
                           (set_calls (alter (with_result (Fulfilled res)) c (calls s))
                              s)))))))) /\
    sum_list_with job_weight js <= 2 * length (queue s) /\
    Forall (fun j => exists c, j = JCallThen c /\ chained s c) js.
Proof.
  intros Hc Hk Hws. unfold call_catch, set_call; unfold_M; cbn.
  rewrite Hc, Hk. unfold unSpool_chain; unfold_M. rewrite emit_authResult_eq.
  match goal with |- context [sendPackets ?s0] =>
    destruct (sendPackets_eq s0 ws) as (js & -> & Hw & Hf); [done|] end.
  exists js. split; [|by split]. cbn. f_equal. state_eq; try done.
  by rewrite <- app_assoc.
Qed.

Lemma call_catch_reauth_failed c rec e s ws :
  calls s !! c = Some rec -> c_reaction rec = UnSpoolChain -> socket s = Some ws ->
  0 < errorListeners s ->
  call_catch c (Rejected e) s =
    (Ret tt,
     set_state Closing
       (set_log (log s ++ [auth_failed; WsClose ws])
          (set_calls (alter (with_result (Rejected e)) c (calls s))
             (set_replies (if instanceof_TimeoutError e
                           then delete (c_id rec) (replies s) else replies s) s)))).
Proof.
  intros Hc Hk Hws He. unfold call_catch, set_call; unfold_M; cbn.
  rewrite Hc, Hk. unfold unSpool_chain, close; unfold_M.
  destruct (instanceof_TimeoutError e); cbn; rewrite emit_error by done; cbn;
    rewrite Hws; cbn; f_equal; state_eq; try done; by rewrite <- app_assoc.
Qed.

(** When nobody listens to 'error', [emit] throws in the catch-callback of
    [unSpool] before [close] is called. *)
Lemma call_catch_reauth_failed_unheard c rec e s :
  calls s !! c = Some rec -> c_reaction rec = UnSpoolChain ->
  errorListeners s = 0 ->
  call_catch c (Rejected e) s =
    (Throw (AuthenticationFailedError
              "Failed to authenticate using saved auth packet."),
     set_calls (alter (with_result (Rejected e)) c (calls s))
       (set_replies (if instanceof_TimeoutError e
                     then delete (c_id rec) (replies s) else replies s) s)).
Proof.
  intros Hc Hk He. unfold call_catch, set_call; unfold_M; cbn.
  rewrite Hc, Hk. unfold unSpool_chain, close; unfold_M.
  destruct (instanceof_TimeoutError e); cbn; rewrite emit_error_unheard by done;
    cbn; f_equal; state_eq; done.
Qed.

(** A reply frame for a call whose race is pending settles the race. *)
Lemma parsePacket_matched f packet c rec s :
  binary f = false -> parsed f = Some (PPacket packet) -> p_type packet = "reply" ->
  replies s !! p_id packet = Some {| r_call := c |} ->
  calls s !! c = Some rec -> c_replyPromise rec = None -> c_phase rec = Racing ->
  parsePacket f s =
    (Ret tt,
     set_replies (delete (p_id packet) (replies s))
       (set_jobs (jobs s ++ [JCallSettle c (outcome (reply_outcome packet))])
          (set_calls (alter (with_phase Done) c
                        (alter (with_replyPromise (Some (reply_outcome packet))) c (calls s)))
             (set_log (log s ++ [Emit "debug" (AIn packet)]) s)))).
Proof.
  intros Hb Hp Ht Hr Hc Hrp Hph. unfold parsePacket; unfold_M; cbn.
  rewrite Hb, Hp, emit_eq by done. cbn. rewrite Ht. cbn. rewrite Hr.
  unfold Reply_handle, reply_outcome, settle_reply, set_call; unfold_M; cbn.
  destruct (p_error packet); cbn; rewrite Hc, Hrp, Hph; done.
Qed.

(** ** Spooled calls carry no reaction *)

#[local] Instance R_plain_preorder : PreOrder R_plain.
Proof. split; unfold R_plain; [intros ?; auto|intros ???; auto]. Qed.

Lemma plain_same s s' :
  sendPromises s' = sendPromises s -> calls s' = calls s -> R_plain s s'.
Proof.
  intros Hs Hc W c (h & r & Hr & Ht). rewrite Hs in Hr.
  destruct (W c) as (rec & Hrec & Hk); [by exists h, r|].
  exists rec. by rewrite Hc.
Qed.

Lemma plain_calls_alter s s' c f :
  (forall r, c_reaction (f r) = c_reaction r) ->
  calls s' = alter f c (calls s) -> sendPromises s' = sendPromises s ->
  R_plain s s'.
Proof.
  intros Hf Hc Hs W c' (h & r & Hr & Ht). rewrite Hs in Hr.
  destruct (W c') as (rec & Hrec & Hk); [by exists h, r|].
  unfold plain_call. rewrite Hc. destruct (decide (c = c')) as [->|Hne].
  - exists (f rec). rewrite list_lookup_alter_eq, Hrec. by rewrite Hf.
  - exists rec. by rewrite list_lookup_alter_ne.
Qed.

Lemma plain_calls_app s s' r :
  calls s' = calls s ++ [r] -> sendPromises s' = sendPromises s -> R_plain s s'.
Proof.
  intros Hc Hs W c' (h & r' & Hr & Ht). rewrite Hs in Hr.
  destruct (W c') as (rec & Hrec & Hk); [by exists h, r'|].
  exists rec. rewrite Hc. split; [by apply lookup_app_l_Some|done].
Qed.

Lemma plain_send_app s s' :
  sendPromises s' = sendPromises s ++ [{| s_state := Pending; s_then := None |}] ->
  calls s' = calls s -> R_plain s s'.
Proof.
  intros Hs Hc W c (h & r & Hr & Ht). rewrite Hs in Hr.
  apply lookup_app_Some in Hr as [Hr|[_ Hr]].
  - destruct (W c) as (rec & Hrec & Hk); [by exists h, r|]. exists rec. by rewrite Hc.
  - destruct (h - length (sendPromises s)) as [|n]; cbn in Hr; [|done].
    by inversion Hr; subst.
Qed.

Lemma plain_send_resolved s s' h :
  sendPromises s' = alter resolved h (sendPromises s) -> calls s' = calls s ->
  R_plain s s'.
Proof.
  intros Hs Hc W c Hch. destruct (W c) as (rec & Hrec & Hk).
  - by eapply chained_resolved.
  - exists rec. by rewrite Hc.
Qed.

Ltac leaf_plain :=
  first
    [ by apply plain_same
    | by eapply plain_calls_alter; [|reflexivity|reflexivity]
    | by eapply plain_calls_app
    | by eapply plain_send_app
    | by eapply plain_send_resolved ].

Lemma plain_resolve_send h : preserves R_plain (resolve_send h).
Proof.
  intros s. destruct (resolve_send_eq h s) as (js & -> & _ & _). cbn [snd].
  by eapply plain_send_resolved.
Qed.

Lemma plain_call_M meth args opts : preserves R_plain (call meth args opts).
Proof.
  intros s.
  destruct (decide (state s = Connected \/ force opts = true)) as [Hc|Hc].
  - destruct (socket s) as [ws|] eqn:Hws.
    + rewrite (call_now _ _ _ _ ws) by done. by eapply plain_calls_app.
    + rewrite call_without_socket by done. by eapply plain_calls_app.
  - assert (state s <> Connected /\ force opts = false) as [Hst Hf].
    { split; [tauto|]. destruct (force opts); tauto. }
    destruct (decide (meth = "auth")) as [->|Hm].
    + rewrite call_auth_dropped by done. by eapply plain_calls_app.
    + rewrite call_spooled by done. cbn [snd].
      intros W c (h & r & Hr & Ht). cbn in Hr.
      apply lookup_app_Some in Hr as [Hr|[_ Hr]].
      * destruct (W c) as (rec & Hrec & Hk); [by exists h, r|].
        exists rec. cbn. split; [by apply lookup_app_l_Some|done].
      * destruct (h - length (sendPromises s)) as [|n]; cbn in Hr; [|done].
        inversion Hr; subst. cbn in Ht. inversion Ht; subst.
        eexists. cbn. by rewrite lookup_app_r, Nat.sub_diag by lia.
Qed.

Lemma plain_sendPackets : preserves R_plain sendPackets.
Proof.
  unfold sendPackets, sendPackets_each.
  pres ltac:(idtac; lazymatch goal with
                    | |- preserves _ (resolve_send _) => apply plain_resolve_send
                    end) leaf_plain.
Qed.

Lemma plain_unSpool : preserves R_plain unSpool.
Proof.
  intros s. destruct (authPacket s) as [args|] eqn:Ha.
  - destruct (socket s) as [ws|] eqn:Hws.
    + rewrite (unSpool_reauth args s ws) by done. by eapply plain_calls_app.
    + unfold unSpool. unfold bind at 1. unfold get at 1. rewrite Ha.
      unfold bind at 1. rewrite call_without_socket by (by right || done).
      by eapply plain_calls_app.
  - rewrite unSpool_anonymous by done. apply plain_sendPackets.
Qed.

Ltac known_plain :=
  idtac;
  lazymatch goal with
  | |- preserves _ (resolve_send _) => apply plain_resolve_send
  | |- preserves _ (call _ _ _) => apply plain_call_M
  | |- preserves _ unSpool => apply plain_unSpool
  | |- preserves _ sendPackets => apply plain_sendPackets
  end.

Lemma plain_task ev : preserves R_plain (task ev).
Proof. destruct ev; cbn [task]; pres known_plain leaf_plain. Qed.

Lemma plain_run_job j : preserves R_plain (run_job j).
Proof. destruct j; unfold run_job; pres known_plain leaf_plain. Qed.

Lemma spooled_calls_plain_new eps opts r rnd :
  spooled_calls_plain (new_ChatSocket eps opts r rnd).
Proof. intros c (h & rec & Hr & _). done. Qed.

Lemma spooled_calls_plain_run s evs :
  spooled_calls_plain s -> spooled_calls_plain (run s evs).
Proof.
  apply (preserves_run R_plain); auto using plain_task, plain_run_job.
  all: intros; leaf_plain.
Qed.

(** ** Callbacks of calls with nothing hung on them *)

#[local] Instance R_quiet_preorder : PreOrder R_quiet.
Proof.
  split.
  - intros s. exists []. rewrite app_nil_r. repeat split; try done.
    + apply not_elem_of_nil.
    + eauto.
  - intros s1 s2 s3 (l1 & E1 & S1 & C1 & Q1 & P1 & T1 & A1 & L1 & K1)
                    (l2 & E2 & S2 & C2 & Q2 & P2 & T2 & A2 & L2 & K2).
    exists (l1 ++ l2). rewrite E2, E1, app_assoc, sent_app, S1, S2.
    repeat split; try congruence.
    + rewrite elem_of_app. tauto.
    + intros c rec Hc. destruct (K1 c rec Hc) as (rec' & Hc' & E).
      destruct (K2 c rec' Hc') as (rec'' & Hc'' & E').
      exists rec''. split; [done|congruence].
Qed.

Lemma R_quiet_alter s s' l c f :
  (forall r, c_reaction (f r) = c_reaction r) ->
  calls s' = alter f c (calls s) ->
  log s' = log s ++ l -> sent l = [] -> connected ∉ l ->
  queue s' = queue s -> sendPromises s' = sendPromises s -> state s' = state s ->
  authPromises s' = authPromises s ->
  R_quiet s s'.
Proof.
  intros Hf Hc Hl Hs Hn Hq Hp Ht Ha. exists l. repeat split; try done.
  - by rewrite Hc, length_alter.
  - intros c' rec Hc'. rewrite Hc. destruct (decide (c = c')) as [->|Hne].
    + exists (f rec). by rewrite list_lookup_alter_eq, Hc'.
    + exists rec. by rewrite list_lookup_alter_ne.
Qed.

Lemma R_quiet_plain s s' c : R_quiet s s' -> plain_call s c -> plain_call s' c.
Proof.
  intros (l & _ & _ & _ & _ & _ & _ & _ & _ & K) (rec & Hc & Hk).
  destruct (K c rec Hc) as (rec' & Hc' & E). exists rec'. split; [done|congruence].
Qed.

(** The then-callback of a call whose reply is already there. *)
Lemma call_then_settled c rec o s :
  calls s !! c = Some rec -> noReply (c_options rec) = false ->
  c_replyPromise rec = Some o ->
  call_then c s =
    (Ret tt,
     set_jobs (jobs s ++ [JCallSettle c (outcome o)])
       (set_calls (alter (with_phase Done) c (calls s))
          (set_log (log s ++ [SetTimeout (length (timers s)) (CbCallTimeout c)
                                (call_delay (c_options rec) (options s))])
             (set_timers (timers s ++ [{| t_cb := CbCallTimeout c;
                                          t_delay := call_delay (c_options rec) (options s);
                                          t_live := true |}]) s)))).
Proof.
  intros Hc Hn Hr. unfold call_then, setTimeout, set_call; unfold_M; cbn.
  rewrite Hc, Hn. cbn. by rewrite Hr.
Qed.

Lemma call_catch_pending c rec s :
  calls s !! c = Some rec -> c_reaction rec = NoReaction ->
  call_catch c Pending s = (Ret tt, set_calls (alter (with_result Pending) c (calls s)) s).
Proof. intros Hc Hk. by apply (call_catch_other c rec). Qed.

(** Running such a job sends nothing, notifies nobody, and leaves at most
    one more such job. *)
Lemma quiet_run_job j s :
  quiet_job s j ->
  R_quiet s (run_job j s).2 /\
  exists js, jobs (run_job j s).2 = jobs s ++ js /\
             Forall (quiet_job (run_job j s).2) js.
Proof.
  assert (Hp : forall c rec f (s' : ChatSocket),
            calls s !! c = Some rec -> c_reaction rec = NoReaction ->
            (forall r, c_reaction (f r) = c_reaction r) ->
            calls s' = alter f c (calls s) -> plain_call s' c).
  { intros c rec f s' Hc Hk Hf E. exists (f rec).
    by rewrite E, list_lookup_alter_eq, Hc, Hf. }
  destruct j as [c|c o|g o]; cbn [quiet_job]; [| |done]; intros (rec & Hc & Hk);
    unfold run_job.
  - destruct (noReply (c_options rec)) eqn:Hn.
    + rewrite (call_then_noReply c rec) by done. cbn [snd]. split.
      * apply (R_quiet_alter _ _ [] c (with_phase Done)); try done;
          [cbn; by rewrite app_nil_r|apply not_elem_of_nil].
      * eexists. split; [reflexivity|]. apply Forall_singleton.
         by apply (Hp c rec (with_phase Done)).
    + destruct (c_replyPromise rec) as [o|] eqn:Hr.
      * rewrite (call_then_settled c rec o) by done. cbn [snd]. split.
        -- eapply (R_quiet_alter _ _ _ c (with_phase Done)); try done.
           by intros ?%list_elem_of_singleton.
        -- eexists. split; [reflexivity|]. apply Forall_singleton.
         by apply (Hp c rec (with_phase Done)).
      * rewrite (call_then_races c rec) by done. cbn [snd]. split.
        -- eapply (R_quiet_alter _ _ _ c (with_phase Racing)); try done.
           by intros ?%list_elem_of_singleton.
        -- exists []. by rewrite app_nil_r.
  - assert (He : exists s', call_catch c o s = (Ret tt, s') /\
               calls s' = alter (with_result o) c (calls s) /\ log s' = log s /\
               queue s' = queue s /\ sendPromises s' = sendPromises s /\
               state s' = state s /\ authPromises s' = authPromises s /\
               jobs s' = jobs s).
    { destruct o as [|v|e].
      - eexists. split; [by apply (call_catch_pending c rec)|]. done.
      - eexists. split; [by apply (call_catch_other c rec)|]. done.
      - destruct (instanceof_TimeoutError e) eqn:He.
        + destruct e; try done. eexists. split; [by apply (call_catch_timeout c rec)|]. done.
        + eexists. split; [apply (call_catch_other c rec); try done; congruence|]. done. }
    destruct He as (s' & -> & E & Hl & Hq & Hs & Ht & Ha & Hj). cbn [snd]. split.
    + apply (R_quiet_alter _ _ [] c (with_result o)); try done;
        [by rewrite app_nil_r|apply not_elem_of_nil].
    + exists []. by rewrite app_nil_r.
Qed.

Lemma R_quiet_jobs js s : R_quiet s (set_jobs js s).
Proof.
  exists []. cbn. rewrite app_nil_r. repeat split; try done; [apply not_elem_of_nil|eauto].
Qed.

(** The microtask queue of such jobs is worked off without a packet sent. *)
Lemma quiet_drain n : forall s,
  weight s <= n -> Forall (quiet_job s) (jobs s) -> R_quiet s (drain s).
Proof.
  induction n as [|n IH]; intros s Hw Hq.
  - assert (Hj : jobs s = []).
    { destruct (jobs s) as [|j js] eqn:Hj; [done|].
      unfold weight in Hw. rewrite Hj in Hw. destruct j; cbn in Hw; lia. }
    rewrite drain_nil by done. reflexivity.
  - destruct (jobs s) as [|j js] eqn:Hj; [rewrite drain_nil by done; reflexivity|].
    rewrite (drain_cons s j js Hj).
    pose proof (weight_run_job j js s Hj) as Hlt.
    apply Forall_cons in Hq as [Hq1 Hq2].
    destruct (quiet_run_job j (set_jobs js s)) as (HR & js' & Hjs & Hq'); [done|].
    etrans; [apply (R_quiet_jobs js)|]. etrans; [exact HR|].
    apply IH; [lia|]. rewrite Hjs. cbn. apply Forall_app. split; [|done].
    eapply Forall_impl; [exact Hq2|]. intros j' Hj'.
    destruct j'; cbn in *; try done; by eapply R_quiet_plain.
Qed.

(** ** The handshake with saved credentials *)

(** The 'WelcomeEvent' listener with saved credentials and a transport: the
    only packet it sends is the re-auth call; the spool is not touched. *)
Lemma welcomeHandler_reauth data args ws s :
  authPacket s = Some args -> socket s = Some ws ->
  let i := random s (draws s) in
  let c := length (calls s) in
  let d := {| method := "auth"; arguments := args; id := i |} in
  exists s1 l,
    welcomeHandler data s = (Ret tt, s1) /\
    log s1 = log s ++ l ++ [WsSend ws d; Emit "debug" (AOut d)] /\
    sent l = [] /\ (connected ∉ l) /\
    calls s1 = calls s ++ [with_reaction UnSpoolChain (new_call i force_only)] /\
    jobs s1 = jobs s ++ [JCallThen c] /\
    replies s1 = <[i := {| r_call := c |}]> (replies s) /\
    queue s1 = queue s /\ sendPromises s1 = sendPromises s /\
    authPromises s1 = authPromises s /\
    state s1 = Connected /\ socket s1 = Some ws /\ sockets s1 = sockets s.
Proof.
  intros Ha Hws. cbn zeta. unfold welcomeHandler.
  unfold bind at 1. unfold modify at 1.
  set (s0 := set_attempts _ s).
  unfold bind at 1.
  assert (Hre : exists s2 l2,
            (let* st := get state in
             if decide (st = Reconnecting) then emit "reconnected" ANone else ret tt) s0
              = (Ret tt, s2) /\
            s2 = set_log (log s ++ l2) s0 /\ sent l2 = [] /\ (connected ∉ l2)).
  { unfold bind, get. cbn [state s0 set_attempts].
    destruct (decide (state s = Reconnecting)).
    - rewrite emit_eq by done. eexists _, [_]. split; [done|]. split; [done|].
      split; [done|]. by intros ?%list_elem_of_singleton.
    - exists s0, []. unfold ret. split; [done|]. rewrite app_nil_r.
      split; [by state_eq|]. split; [done|apply not_elem_of_nil]. }
  destruct Hre as (s2 & l2 & -> & -> & Hs2 & Hc2).
  unfold bind at 1. unfold modify at 1. unfold bind at 1.
  rewrite resetPingTimeout_eq. unfold bind at 1. rewrite emit_eq by done.
  erewrite unSpool_reauth; [|by cbn|by cbn].
  eexists _, (l2 ++ [_; _]). split; [reflexivity|]. cbn.
  rewrite <- !app_assoc. split; [done|]. rewrite sent_app, Hs2.
  split; [done|]. split; [|done].
  rewrite elem_of_app, !elem_of_cons, elem_of_nil. intros [?|[?|[?|?]]]; done.
Qed.

(** An event frame is handed to the listeners of its event. *)
Lemma parsePacket_event f packet s :
  binary f = false -> parsed f = Some (PPacket packet) -> p_type packet = "event" ->
  parsePacket f s =
    emit_event (p_event packet) (AValue (VJson (p_data packet)))
      (set_log (log s ++ [Emit "debug" (AIn packet)]) s).
Proof.
  intros Hb Hp Ht. unfold parsePacket. rewrite Hb, Hp. unfold bind at 1.
  rewrite emit_eq by done. by rewrite Ht.
Qed.

(** One [boot] since the last handshake: one listener, run once. *)
Lemma emit_event_welcome a s :
  welcomeOnce s = 1 ->
  emit_event "WelcomeEvent" a s =
    (let* _ := welcomeHandler (arg_value a) in ret tt)
      (set_welcomeOnce 0 (set_log (log s ++ [Emit "WelcomeEvent" a]) s)).
Proof.
  intros Hw. unfold emit_event. unfold bind at 1. rewrite emit_eq by done.
  cbn [String.eqb Ascii.eqb Bool.eqb]. unfold bind at 1, get at 1.
  cbn [welcomeOnce set_log]. rewrite Hw. cbn [repeat_M].
  unfold bind at 1 2. unfold modify at 1. cbn [welcomeOnce set_log]. rewrite Hw.
  unfold bind. cbn [pred]. by destruct (welcomeHandler _ _) as [[[]|e] s'].
Qed.

Lemma listening_socket ws s : listening ws s = true -> socket s = Some ws.
Proof.
  unfold listening. intros [_ H]%andb_true_iff. by apply bool_decide_eq_true in H.
Qed.

(** The welcome frame on the current transport, with saved credentials. *)
Lemma ws_message_welcome ws f packet args s :
  listening ws s = true -> welcomeOnce s = 1 -> authPacket s = Some args ->
  binary f = false -> parsed f = Some (PPacket packet) -> p_type packet = "event" ->
  p_event packet = "WelcomeEvent" ->
  let i := random s (draws s) in
  let c := length (calls s) in
  let d := {| method := "auth"; arguments := args; id := i |} in
  exists s1 l,
    ws_on_message ws f s = (Ret tt, s1) /\
    log s1 = log s ++ l ++ [WsSend ws d; Emit "debug" (AOut d)] /\
    sent l = [] /\ (connected ∉ l) /\
    calls s1 = calls s ++ [with_reaction UnSpoolChain (new_call i force_only)] /\
    jobs s1 = jobs s ++ [JCallThen c] /\
    replies s1 = <[i := {| r_call := c |}]> (replies s) /\
    queue s1 = queue s /\ sendPromises s1 = sendPromises s /\
    authPromises s1 = authPromises s /\
    state s1 = Connected /\ socket s1 = Some ws /\ sockets s1 = sockets s.
Proof.
  intros Hl Hw Ha Hb Hp Ht He. cbn zeta.
  pose proof (listening_socket ws s Hl) as Hws.
  unfold ws_on_message. rewrite whilstSameSocket_eq, Hl.
  unfold bind at 1. rewrite resetPingTimeout_eq.
  rewrite (parsePacket_event f packet) by done. rewrite He.
  rewrite emit_event_welcome by done.
  match goal with |- context [bind (welcomeHandler ?a) _ ?x] =>
    destruct (welcomeHandler_reauth a args ws x)
      as (s1 & l & E1 & Hlog & Hs & Hc & Hcalls & Hjobs & Hrep & Hq & Hsp & Hap & Hst
          & Hsock & Hsocks); [done..|] end.
  unfold bind at 1. rewrite E1. unfold ret.
  exists s1, ([SetTimeout (length (timers s)) CbPing (pingInterval (options s));
               Emit "debug" (AIn packet);
               Emit "WelcomeEvent" (AValue (VJson (p_data packet)))] ++ l).
  split; [done|].
  split; [rewrite Hlog; cbn; by rewrite <- !app_assoc|].
  rewrite sent_app, Hs. split; [done|].
  split; [|done].
  rewrite elem_of_app, !elem_of_cons, elem_of_nil. intros [[?|[?|[?|?]]]|?]; done.
Qed.

(** X1. The welcome frame arrives on the current transport while credentials
    are saved (one 'WelcomeEvent' listener registered): the only packet sent
    in that task and its microtasks is the re-auth call, made under [force]
    with the saved arguments and a fresh id; it is registered and waits for
    its reply; spool and [send] promises are as they were and 'connected' is
    not emitted, although the state is already [Connected]. *)
Lemma step_welcome_reauth ws f packet args s :
  jobs s = [] -> listening ws s = true -> welcomeOnce s = 1 ->
  authPacket s = Some args ->
  binary f = false -> parsed f = Some (PPacket packet) -> p_type packet = "event" ->
  p_event packet = "WelcomeEvent" ->
  let i := random s (draws s) in
  let c := length (calls s) in
  let s' := step s (WsMessageEvent ws f) in
  sent (new_log s s') = [{| method := "auth"; arguments := args; id := i |}] /\
  (connected ∉ new_log s s') /\
  queue s' = queue s /\ sendPromises s' = sendPromises s /\
  replies s' = <[i := {| r_call := c |}]> (replies s) /\
  calls s' = calls s ++ [with_phase Racing
                           (with_reaction UnSpoolChain (new_call i force_only))] /\
  state s' = Connected /\ jobs s' = [] /\ listening ws s' = true.
Proof.
  intros Hj Hl Hw Ha Hb Hp Ht He. cbn zeta.
  destruct (ws_message_welcome ws f packet args s)
    as (s1 & l & E1 & Hlog & Hs & Hc & Hcalls & Hjobs & Hrep & Hq & Hsp & Hap & Hst
        & Hsock & Hsocks); [done..|].
  rewrite Hj in Hjobs. cbn [app] in Hjobs.
  set (rec := with_reaction UnSpoolChain (new_call (random s (draws s)) force_only)) in *.
  assert (Hrec : calls (set_jobs [] s1) !! length (calls s) = Some rec).
  { cbn. by rewrite Hcalls, lookup_app_r, Nat.sub_diag by lia. }
  assert (Hthen := call_then_races _ rec (set_jobs [] s1) Hrec eq_refl eq_refl).
  assert (E : step s (WsMessageEvent ws f) =
              (call_then (length (calls s)) (set_jobs [] s1)).2).
  { unfold step, after, task. rewrite E1.
    rewrite (drain_one s1 (JCallThen (length (calls s))));
      [done|done|unfold run_job; by rewrite Hthen]. }
  rewrite E, Hthen. clear E Hthen E1. cbn [snd].
  erewrite new_log_app; [|cbn; rewrite Hlog, <- !app_assoc; reflexivity].
  cbn [queue sendPromises replies calls state jobs set_calls set_log set_timers set_jobs].
  rewrite !sent_app, Hs. split; [done|].
  split.
  { rewrite !elem_of_app, !elem_of_cons, !elem_of_nil.
    intros [?|[[?|[?|?]]|[?|?]]]; done. }
  rewrite Hcalls, alter_app_r_alt, Nat.sub_diag by lia.
  repeat split; try done.
  unfold listening in Hl |- *.
  cbn [sockets socket set_calls set_log set_timers set_jobs].
  rewrite Hsocks, Hsock. apply andb_true_iff in Hl as [-> _].
  by rewrite bool_decide_eq_true_2.
Qed.

(** A reply frame on the current transport for a call whose race is pending. *)
Lemma ws_message_reply_matched ws f packet c rec s :
  listening ws s = true ->
  binary f = false -> parsed f = Some (PPacket packet) -> p_type packet = "reply" ->
  replies s !! p_id packet = Some {| r_call := c |} ->
  calls s !! c = Some rec -> c_replyPromise rec = None -> c_phase rec = Racing ->
  exists s1,
    ws_on_message ws f s = (Ret tt, s1) /\
    log s1 = log s ++ [SetTimeout (length (timers s)) CbPing (pingInterval (options s));
                       Emit "debug" (AIn packet)] /\
    calls s1 = alter (with_phase Done) c
                 (alter (with_replyPromise (Some (reply_outcome packet))) c (calls s)) /\
    jobs s1 = jobs s ++ [JCallSettle c (outcome (reply_outcome packet))] /\
    replies s1 = delete (p_id packet) (replies s) /\
    queue s1 = queue s /\ sendPromises s1 = sendPromises s /\
    authPromises s1 = authPromises s /\ authResultOnce s1 = authResultOnce s /\
    state s1 = state s /\ socket s1 = socket s /\ sockets s1 = sockets s /\
    errorListeners s1 = errorListeners s.
Proof.
  intros Hl Hb Hp Ht Hr Hc Hrp Hph.
  unfold ws_on_message. rewrite whilstSameSocket_eq, Hl.
  unfold bind at 1. rewrite resetPingTimeout_eq.
  rewrite (parsePacket_matched f packet c rec) by done.
  eexists. split; [reflexivity|]. cbn. rewrite <- app_assoc. done.
Qed.

Lemma plain_alter (cs : list CallRec) f c c' :
  (forall r, c_reaction (f r) = c_reaction r) ->
  (exists rec, cs !! c' = Some rec /\ c_reaction rec = NoReaction) ->
  exists rec, alter f c cs !! c' = Some rec /\ c_reaction rec = NoReaction.
Proof.
  intros Hf (rec & Hc & Hk). destruct (decide (c = c')) as [->|Hne].
  - exists (f rec). by rewrite list_lookup_alter_eq, Hc, Hf.
  - exists rec. by rewrite list_lookup_alter_ne.
Qed.

(** X2. The reply to the re-auth call arrives with data: 'authResult' is
    emitted with the data, then every spooled packet is sent in the order of
    the spool, then 'connected' is emitted; what follows sends nothing.  The
    spool is empty, its promises are resolved, the promises [auth] returned
    while disconnected are resolved with the data, and the state is
    [Connected]. *)
Lemma step_reauth_ok ws f packet c rec s :
  jobs s = [] -> listening ws s = true -> spooled_calls_plain s ->
  binary f = false -> parsed f = Some (PPacket packet) -> p_type packet = "reply" ->
  p_error packet = None ->
  replies s !! p_id packet = Some {| r_call := c |} ->
  calls s !! c = Some rec -> c_reaction rec = UnSpoolChain ->
  c_replyPromise rec = None -> c_phase rec = Racing ->
  exists post,
    log (step s (WsMessageEvent ws f)) =
      log s ++ [SetTimeout (length (timers s)) CbPing (pingInterval (options s));
                Emit "debug" (AIn packet);
                Emit "authResult" (AValue (VJson (p_data packet)))]
            ++ concat (flush_log ws <$> queue s) ++ [connected] ++ post /\
    sent post = [] /\ (connected ∉ post) /\
    queue (step s (WsMessageEvent ws f)) = [] /\
    sendPromises (step s (WsMessageEvent ws f)) = flushed (queue s) (sendPromises s) /\
    authPromises (step s (WsMessageEvent ws f)) =
      notified (VJson (p_data packet)) (authResultOnce s) (authPromises s) /\
    state (step s (WsMessageEvent ws f)) = Connected.
Proof.
  intros Hj Hl W Hb Hp Ht Herr Hr Hc Hk Hrp Hph.
  pose proof (listening_socket ws s Hl) as Hws.
  destruct (ws_message_reply_matched ws f packet c rec s)
    as (s1 & E1 & Hlog & Hcalls & Hjobs & Hrep & Hq & Hsp & Hap & Hao & Hst & Hsock & _);
    [done..|].
  assert (E : step s (WsMessageEvent ws f) = drain s1).
  { unfold step, after, task. by rewrite E1. }
  rewrite E. clear E E1.
  rewrite Hj in Hjobs. cbn [app] in Hjobs.
  assert (Ho : outcome (reply_outcome packet) = Fulfilled (VJson (p_data packet))).
  { unfold reply_outcome. by rewrite Herr. }
  rewrite Ho in Hjobs. rewrite (drain_cons s1 _ [] Hjobs). unfold run_job.
  set (rec' := with_phase Done (with_replyPromise (Some (reply_outcome packet)) rec)).
  assert (Hc' : calls (set_jobs [] s1) !! c = Some rec').
  { cbn. by rewrite Hcalls, !list_lookup_alter_eq, Hc. }
  destruct (call_catch_reauth_ok c rec' (VJson (p_data packet)) (set_jobs [] s1) ws)
    as (js & -> & _ & Hf); [done|done|cbn; congruence|].
  cbn [snd].
  match goal with |- context [drain ?x] => set (s2 := x) end.
  assert (F2 : log s2 = log s1 ++ Emit "authResult" (AValue (VJson (p_data packet)))
                 :: concat (flush_log ws <$> queue s) ++ [connected]).
  { subst s2. cbn. by rewrite Hq. }
  assert (Q2 : queue s2 = []) by done.
  assert (P2 : sendPromises s2 = flushed (queue s) (sendPromises s)).
  { subst s2. cbn. by rewrite Hq, Hsp. }
  assert (A2 : authPromises s2 =
               notified (VJson (p_data packet)) (authResultOnce s) (authPromises s)).
  { subst s2. cbn. by rewrite Hao, Hap. }
  assert (T2 : state s2 = Connected) by done.
  assert (J2 : jobs s2 = js) by done.
  assert (C2 : calls s2 = alter (with_result (Fulfilled (VJson (p_data packet)))) c (calls s1))
    by done.
  revert F2 Q2 P2 A2 T2 J2 C2. generalize s2. clear s2.
  intros s2 F2 Q2 P2 A2 T2 J2 C2.
  assert (Hquiet : Forall (quiet_job s2) (jobs s2)).
  { rewrite J2. eapply Forall_impl; [exact Hf|]. intros j (c' & -> & h & r & Hh & Hth).
    cbn in Hh. rewrite Hsp in Hh. cbn [quiet_job]. unfold plain_call.
    rewrite C2, Hcalls. do 3 (apply plain_alter; [done|]).
    apply W. by exists h, r. }
  destruct (quiet_drain (weight s2) s2 (le_n _) Hquiet)
    as (l & Hl2 & Hs2 & Hn2 & Hq2 & Hp2 & Ht2 & Ha2 & _).
  exists l. rewrite Hl2, F2, Hlog, Hq2, Hp2, Ht2, Ha2.
  split; [|done].
  rewrite <- !app_assoc. cbn [app]. by rewrite <- !app_assoc.
Qed.

(** X3. The reply to the re-auth call carries an error: no spooled packet is
    sent, the spool and its promises are kept, and the promises [auth]
    returned while disconnected stay as they were.  If the user listens to
    'error', an [AuthenticationFailedError] is emitted and the transport is
    closed (state [Closing]).  If nobody listens to 'error', [emit] throws in
    the catch-callback of [unSpool] before [close] is called: nothing is
    emitted, the transport is not closed and the state is as it was. *)
Lemma step_reauth_failed ws f packet e c rec s :
  jobs s = [] -> listening ws s = true ->
  binary f = false -> parsed f = Some (PPacket packet) -> p_type packet = "reply" ->
  p_error packet = Some e ->
  replies s !! p_id packet = Some {| r_call := c |} ->
  calls s !! c = Some rec -> c_reaction rec = UnSpoolChain ->
  c_replyPromise rec = None -> c_phase rec = Racing ->
  let s' := step s (WsMessageEvent ws f) in
  let seen := [SetTimeout (length (timers s)) CbPing (pingInterval (options s));
               Emit "debug" (AIn packet)] in
  queue s' = queue s /\
  sendPromises s' = sendPromises s /\
  authPromises s' = authPromises s /\
  (0 < errorListeners s ->
   log s' = log s ++ seen ++ [auth_failed; WsClose ws] /\ state s' = Closing) /\
  (errorListeners s = 0 ->
   log s' = log s ++ seen /\ state s' = state s /\ socket s' = Some ws).
Proof.
  intros Hj Hl Hb Hp Ht Herr Hr Hc Hk Hrp Hph. cbn zeta.
  pose proof (listening_socket ws s Hl) as Hws.
  destruct (ws_message_reply_matched ws f packet c rec s)
    as (s1 & E1 & Hlog & Hcalls & Hjobs & Hrep & Hq & Hsp & Hap & Hao & Hst & Hsock
        & _ & Hel);
    [done..|].
  assert (E : step s (WsMessageEvent ws f) = drain s1).
  { unfold step, after, task. by rewrite E1. }
  rewrite E. clear E E1.
  rewrite Hj in Hjobs. cbn [app] in Hjobs.
  assert (Ho : outcome (reply_outcome packet) = Rejected (ReplyError e)).
  { unfold reply_outcome. by rewrite Herr. }
  rewrite Ho in Hjobs. rewrite (drain_cons s1 _ [] Hjobs). unfold run_job.
  set (rec' := with_phase Done (with_replyPromise (Some (reply_outcome packet)) rec)).
  assert (Hc' : calls (set_jobs [] s1) !! c = Some rec').
  { cbn. by rewrite Hcalls, !list_lookup_alter_eq, Hc. }
  destruct (decide (errorListeners s = 0)) as [He|He].
  - rewrite (call_catch_reauth_failed_unheard c rec' (ReplyError e) (set_jobs [] s1));
      [|done|done|cbn; congruence].
    rewrite drain_nil by done. cbn. rewrite Hlog, Hst, Hsock.
    repeat split; try done; lia.
  - rewrite (call_catch_reauth_failed c rec' (ReplyError e) (set_jobs [] s1) ws);
      [|done|done|cbn; congruence|cbn; lia].
    rewrite drain_nil by done. cbn. rewrite Hlog, <- app_assoc.
    repeat split; try done; lia.
Qed.

(** The sample scenario: boot, save credentials and spool two calls while
    connecting, then the handshake. *)
Lemma step_welcome_reauth_witness :
  let s := run (sample getDefaults)
             [Boot; Auth 7 (Some 42%Z) (Some "key");
              Call "msg" [ArgString "a"] no_options;
              Call "whisper" [ArgString "b"] no_options] in
  (jobs s = [] /\ listening 0 s = true /\ welcomeOnce s = 1 /\
   authPacket s = Some (auth_args 7 (Some 42%Z) (Some "key"))) /\
  sent (new_log s (step s (WsMessageEvent 0 WelcomeEvent))) =
    [{| method := "auth"; arguments := auth_args 7 (Some 42%Z) (Some "key");
        id := random s (draws s) |}].
Proof.
  intros s.
  assert (Hj : jobs s = []) by (vm_compute; reflexivity).
  assert (Hl : listening 0 s = true) by (vm_compute; reflexivity).
  assert (Hw : welcomeOnce s = 1) by (vm_compute; reflexivity).
  assert (Ha : authPacket s = Some (auth_args 7 (Some 42%Z) (Some "key")))
    by (vm_compute; reflexivity).
  pose proof (step_welcome_reauth 0 WelcomeEvent _ _ s Hj Hl Hw Ha
                eq_refl eq_refl eq_refl eq_refl) as H.
  exact (conj (conj Hj (conj Hl (conj Hw Ha))) (proj1 H)).
Defined.

Lemma step_reauth_ok_witness :
  let s := run (sample getDefaults)
             [Boot; Auth 7 (Some 42%Z) (Some "key");
              Call "msg" [ArgString "a"] no_options;
              Call "whisper" [ArgString "b"] no_options;
              WsMessageEvent 0 WelcomeEvent] in
  let rec := with_phase Racing (with_reaction UnSpoolChain (new_call 102 force_only)) in
  (jobs s = [] /\ listening 0 s = true /\ spooled_calls_plain s /\
   replies s !! 102%Z = Some {| r_call := 2 |} /\ calls s !! 2 = Some rec) /\
  exists post,
    log (step s (WsMessageEvent 0 (reply_ok 102))) =
      log s ++ [SetTimeout (length (timers s)) CbPing (pingInterval (options s));
                Emit "debug" (AIn {| p_type := "reply"; p_id := 102; p_event := "";
                                     p_data := "{}"; p_error := None |});
                Emit "authResult" (AValue (VJson "{}"))]
            ++ concat (flush_log 0 <$> queue s) ++ [connected] ++ post /\
    sent post = [] /\ (connected ∉ post) /\
    queue (step s (WsMessageEvent 0 (reply_ok 102))) = [] /\
    sendPromises (step s (WsMessageEvent 0 (reply_ok 102))) =
      flushed (queue s) (sendPromises s) /\
    authPromises (step s (WsMessageEvent 0 (reply_ok 102))) =
      notified (VJson "{}") (authResultOnce s) (authPromises s) /\
    state (step s (WsMessageEvent 0 (reply_ok 102))) = Connected.
Proof.
  intros s rec.
  assert (Hj : jobs s = []) by (vm_compute; reflexivity).
  assert (Hl : listening 0 s = true) by (vm_compute; reflexivity).
  assert (W : spooled_calls_plain s)
    by apply spooled_calls_plain_run, spooled_calls_plain_new.
  assert (Hr : replies s !! 102%Z = Some {| r_call := 2 |}) by (vm_compute; reflexivity).
  assert (Hc : calls s !! 2 = Some rec) by (vm_compute; reflexivity).
  pose proof (step_reauth_ok 0 (reply_ok 102) _ 2 rec s Hj Hl W
                eq_refl eq_refl eq_refl eq_refl Hr Hc eq_refl eq_refl eq_refl) as H.
  exact (conj (conj Hj (conj Hl (conj W (conj Hr Hc)))) H).
Defined.

Lemma step_reauth_failed_witness :
  let s := run (sample getDefaults)
             [On "error"; Boot; Auth 7 (Some 42%Z) (Some "key");
              Call "msg" [ArgString "a"] no_options;
              Call "whisper" [ArgString "b"] no_options;
              WsMessageEvent 0 WelcomeEvent] in
  let rec := with_phase Racing (with_reaction UnSpoolChain (new_call 102 force_only)) in
  (jobs s = [] /\ listening 0 s = true /\
   replies s !! 102%Z = Some {| r_call := 2 |} /\ calls s !! 2 = Some rec /\
   0 < errorListeners s) /\
  queue (step s (WsMessageEvent 0 (reply_error 102))) = queue s /\
  state (step s (WsMessageEvent 0 (reply_error 102))) = Closing.
Proof.
  intros s rec.
  assert (Hj : jobs s = []) by (vm_compute; reflexivity).
  assert (Hl : listening 0 s = true) by (vm_compute; reflexivity).
  assert (Hr : replies s !! 102%Z = Some {| r_call := 2 |}) by (vm_compute; reflexivity).
  assert (Hc : calls s !! 2 = Some rec) by (vm_compute; reflexivity).
  assert (He : 0 < errorListeners s) by (vm_compute; lia).
  pose proof (step_reauth_failed 0 (reply_error 102) _ "UNOTFOUND" 2 rec s Hj Hl
                eq_refl eq_refl eq_refl eq_refl Hr Hc eq_refl eq_refl eq_refl) as H.
  cbn zeta in H. destruct H as (Hq & _ & _ & H & _).
  exact (conj (conj Hj (conj Hl (conj Hr (conj Hc He)))) (conj Hq (proj2 (H He)))).
Defined.

(** The scenario on a trace: the packets handed to the transport, in order,
    when the re-auth succeeds, and when it fails. *)
Example reauth_flush_trace :
  let s := run (sample getDefaults)
             [On "error"; Boot; Auth 7 (Some 42%Z) (Some "key");
              Call "msg" [ArgString "a"] no_options;
              Call "whisper" [ArgString "b"] no_options;
              Call "msg" [ArgString "c"] no_options;
              WsMessageEvent 0 WelcomeEvent] in
  let ok := step s (WsMessageEvent 0 (reply_ok 103)) in
  let ko := step s (WsMessageEvent 0 (reply_error 103)) in
  method <$> sent (log s) = ["auth"] /\
  (fun d => (method d, arguments d)) <$> sent (new_log s ok) =
    [("msg", [ArgString "c"]); ("whisper", [ArgString "b"])] /\
  emitted (new_log s ok) = ["debug"; "authResult"; "debug"; "debug"; "connected"] /\
  authPromises s = [Pending] /\ authPromises ok = [Fulfilled (VJson "{}")] /\
  s_state <$> sendPromises ok = [Pending; Fulfilled VUndefined; Fulfilled VUndefined] /\
  sent (new_log s ko) = [] /\ authPromises ko = [Pending] /\ state ko = Closing /\
  (queue ko).*1 = ["msg"; "whisper"].
Proof. vm_compute. done. Qed.

(** The failing re-auth on an instance nobody listens to for 'error': the
    transport stays open and the state [Connected], with the spool unsent. *)
Example reauth_failed_unheard_trace :
  let s := run (sample getDefaults)
             [Boot; Auth 7 (Some 42%Z) (Some "key");
              Call "msg" [ArgString "a"] no_options;
              WsMessageEvent 0 WelcomeEvent] in
  let ko := step s (WsMessageEvent 0 (reply_error 101)) in
  emitted (new_log s ko) = ["debug"] /\ state ko = Connected /\
  socket ko = Some 0 /\ (queue ko).*1 = ["msg"] /\
  closes (log ko) = [].
Proof. vm_compute. done. Qed.

(** ** Running a method body step by step *)

Lemma bind_assoc {A B C} (m : M A) (k1 : A -> M B) (k2 : B -> M C) s :
  bind (bind m k1) k2 s = bind m (fun a => bind (k1 a) k2) s.
Proof. unfold bind. by destruct (m s) as [[a|e] s']. Qed.

Lemma bind_modify {B} f (k : unit -> M B) s : bind (modify f) k s = k tt (f s).
Proof. done. Qed.

Lemma bind_get {A B} (g : ChatSocket -> A) (k : A -> M B) s :
  bind (get g) k s = k (g s) s.
Proof. done. Qed.

Lemma bind_ret {A B} (a : A) (k : A -> M B) s : bind (ret a) k s = k a s.
Proof. done. Qed.

Lemma bind_Ret {A B} (m : M A) (k : A -> M B) s a s' :
  m s = (Ret a, s') -> bind m k s = k a s'.
Proof. unfold bind. by intros ->. Qed.

Lemma bind_Throw {A B} (m : M A) (k : A -> M B) s e s' :
  m s = (Throw e, s') -> bind m k s = (Throw e, s').
Proof. unfold bind. by intros ->. Qed.

Ltac exec :=
  repeat first [ rewrite bind_assoc | rewrite bind_modify | rewrite bind_get
               | rewrite bind_ret ];
  cbn beta.

Lemma state_set_attempts a s : state (set_attempts a s) = state s.
Proof. done. Qed.

(** ** The handshake without saved credentials *)

(** The welcome frame up to [unSpool]: the listener resets the reconnection
    policy, reports, arms the keepalive timer and sets the state. *)
Lemma ws_message_welcome_unSpool ws f packet s :
  listening ws s = true -> welcomeOnce s = 1 ->
  binary f = false -> parsed f = Some (PPacket packet) -> p_type packet = "event" ->
  p_event packet = "WelcomeEvent" ->
  exists s0 l,
    ws_on_message ws f s = (let* _ := unSpool in ret tt) s0 /\
    log s0 = log s ++ l /\ sent l = [] /\ (connected ∉ l) /\
    emitted l = ["debug"; "WelcomeEvent"]
                ++ (if decide (state s = Reconnecting) then ["reconnected"] else [])
                ++ ["ready"] /\
    state s0 = Connected /\
    attempts s0 = policy_reset (reconnectionPolicy (options s)) (attempts s) /\
    welcomeOnce s0 = 0 /\
    socket s0 = socket s /\ sockets s0 = sockets s /\ authPacket s0 = authPacket s /\
    queue s0 = queue s /\ sendPromises s0 = sendPromises s /\ calls s0 = calls s /\
    jobs s0 = jobs s /\ replies s0 = replies s /\ random s0 = random s /\
    draws s0 = draws s /\ authPromises s0 = authPromises s /\
    authResultOnce s0 = authResultOnce s.
Proof.
  intros Hl Hw Hb Hp Ht He.
  unfold ws_on_message. rewrite whilstSameSocket_eq, Hl.
  unfold bind at 1. rewrite resetPingTimeout_eq.
  rewrite (parsePacket_event f packet) by done. rewrite He.
  rewrite emit_event_welcome by done.
  match goal with |- context [bind (welcomeHandler ?a) _ ?x] => set (s1 := x) end.
  assert (F : log s1 = log s ++ [SetTimeout (length (timers s)) CbPing
                                   (pingInterval (options s));
                                 Emit "debug" (AIn packet);
                                 Emit "WelcomeEvent" (AValue (VJson (p_data packet)))]).
  { subst s1. cbn. by rewrite <- !app_assoc. }
  assert (G : state s1 = state s /\ attempts s1 = attempts s /\ options s1 = options s /\
              socket s1 = socket s /\ sockets s1 = sockets s /\
              authPacket s1 = authPacket s /\ queue s1 = queue s /\
              sendPromises s1 = sendPromises s /\ calls s1 = calls s /\
              jobs s1 = jobs s /\ replies s1 = replies s /\ random s1 = random s /\
              draws s1 = draws s /\ authPromises s1 = authPromises s /\
              authResultOnce s1 = authResultOnce s /\ welcomeOnce s1 = 0) by done.
  revert F G. generalize s1. clear s1. intros s1 F G.
  destruct G as (G1 & G2 & G3 & G4 & G5 & G6 & G7 & G8 & G9 & G10 & G11 & G12 & G13
                 & G14 & G15 & G16).
  unfold welcomeHandler. exec.
  rewrite (state_set_attempts _ s1), G1.
  destruct (decide (state s = Reconnecting)).
  - erewrite bind_Ret by (by apply emit_eq). exec.
    erewrite bind_Ret by apply resetPingTimeout_eq. exec.
    erewrite bind_Ret by (by apply emit_eq).
    match goal with |- exists s0 l, bind _ _ ?x = _ /\ _ =>
      exists x, ([SetTimeout (length (timers s)) CbPing (pingInterval (options s));
                  Emit "debug" (AIn packet);
                  Emit "WelcomeEvent" (AValue (VJson (p_data packet)));
                  Emit "reconnected" ANone;
                  SetTimeout (length (timers s1)) CbPing (pingInterval (options s));
                  Emit "ready" (AValue (VJson (p_data packet)))]) end.
    split; [reflexivity|].
    cbn [log set_log set_pingTimeoutHandle set_timers set_state set_attempts
         state attempts welcomeOnce socket sockets authPacket queue sendPromises calls
         jobs replies random draws authPromises authResultOnce options timers].
    rewrite F, G2, G3.
    split; [by rewrite <- !app_assoc|].
    repeat split; try done.
    rewrite !elem_of_cons, elem_of_nil; intros H; decompose [or] H; done.
  - exec.
    erewrite bind_Ret by apply resetPingTimeout_eq. exec.
    erewrite bind_Ret by (by apply emit_eq).
    match goal with |- exists s0 l, bind _ _ ?x = _ /\ _ =>
      exists x, ([SetTimeout (length (timers s)) CbPing (pingInterval (options s));
                  Emit "debug" (AIn packet);
                  Emit "WelcomeEvent" (AValue (VJson (p_data packet)));
                  SetTimeout (length (timers s1)) CbPing (pingInterval (options s));
                  Emit "ready" (AValue (VJson (p_data packet)))]) end.
    split; [reflexivity|].
    cbn [log set_log set_pingTimeoutHandle set_timers set_state set_attempts
         state attempts welcomeOnce socket sockets authPacket queue sendPromises calls
         jobs replies random draws authPromises authResultOnce options timers].
    rewrite F, G2, G3.
    split; [by rewrite <- !app_assoc|].
    repeat split; try done.
    rewrite !elem_of_cons, elem_of_nil; intros H; decompose [or] H; done.
Qed.

(** X5. The welcome frame arrives on the current transport while no
    credentials are saved: every spooled packet is sent at once, in the
    order of the spool, and then 'connected' is emitted; nothing else is
    sent.  The spool is empty and its promises are resolved. *)
Lemma step_welcome_anonymous ws f packet s :
  jobs s = [] -> listening ws s = true -> welcomeOnce s = 1 ->
  authPacket s = None -> spooled_calls_plain s ->
  binary f = false -> parsed f = Some (PPacket packet) -> p_type packet = "event" ->
  p_event packet = "WelcomeEvent" ->
  exists pre post,
    log (step s (WsMessageEvent ws f)) =
      log s ++ pre ++ concat (flush_log ws <$> queue s) ++ [connected] ++ post /\
    sent pre = [] /\ (connected ∉ pre) /\ sent post = [] /\ (connected ∉ post) /\
    queue (step s (WsMessageEvent ws f)) = [] /\
    sendPromises (step s (WsMessageEvent ws f)) = flushed (queue s) (sendPromises s) /\
    state (step s (WsMessageEvent ws f)) = Connected.
Proof.
  intros Hj Hl Hw Ha W Hb Hp Ht He.
  pose proof (listening_socket ws s Hl) as Hws.
  destruct (ws_message_welcome_unSpool ws f packet s)
    as (s0 & l & E & Hlog & Hs & Hc & _ & Hst & _ & _ & Hsock & _ & Hap & Hq & Hsp
        & Hcalls & Hjobs & _); [done..|].
  unfold step, after, task. rewrite E. clear E.
  unfold bind. rewrite unSpool_anonymous by congruence.
  destruct (sendPackets_eq s0 ws) as (js & -> & _ & Hf); [congruence|].
  unfold ret.
  match goal with |- context [drain ?x] => set (s2 := x) end.
  assert (F2 : log s2 = log s ++ l ++ concat (flush_log ws <$> queue s) ++ [connected]).
  { subst s2. cbn. by rewrite Hlog, Hq, <- !app_assoc. }
  assert (Q2 : queue s2 = []) by done.
  assert (P2 : sendPromises s2 = flushed (queue s) (sendPromises s)).
  { subst s2. cbn. by rewrite Hq, Hsp. }
  assert (T2 : state s2 = Connected) by done.
  assert (J2 : jobs s2 = js).
  { subst s2. cbn. by rewrite Hjobs, Hj. }
  assert (C2 : calls s2 = calls s) by done.
  revert F2 Q2 P2 T2 J2 C2. generalize s2. clear s2. intros s2 F2 Q2 P2 T2 J2 C2.
  assert (Hquiet : Forall (quiet_job s2) (jobs s2)).
  { rewrite J2. eapply Forall_impl; [exact Hf|]. intros j (c' & -> & h & r & Hh & Hth).
    rewrite Hsp in Hh. cbn [quiet_job]. unfold plain_call. rewrite C2.
    apply W. by exists h, r. }
  destruct (quiet_drain (weight s2) s2 (le_n _) Hquiet)
    as (l' & Hl2 & Hs2 & Hn2 & Hq2 & Hp2 & Ht2 & _).
  exists l, l'. rewrite Hl2, F2, Hq2, Hp2, Ht2.
  split; [by rewrite <- !app_assoc|]. done.
Qed.

Lemma step_welcome_anonymous_witness :
  let s := run (sample getDefaults)
             [Boot; Call "msg" [ArgString "a"] no_options;
              Call "whisper" [ArgString "b"] no_options] in
  (jobs s = [] /\ listening 0 s = true /\ welcomeOnce s = 1 /\ authPacket s = None /\
   spooled_calls_plain s) /\
  exists pre post,
    log (step s (WsMessageEvent 0 WelcomeEvent)) =
      log s ++ pre ++ concat (flush_log 0 <$> queue s) ++ [connected] ++ post /\
    sent pre = [] /\ (connected ∉ pre) /\ sent post = [] /\ (connected ∉ post) /\
    queue (step s (WsMessageEvent 0 WelcomeEvent)) = [] /\
    sendPromises (step s (WsMessageEvent 0 WelcomeEvent)) =
      flushed (queue s) (sendPromises s) /\
    state (step s (WsMessageEvent 0 WelcomeEvent)) = Connected.
Proof.
  intros s.
  assert (Hj : jobs s = []) by (vm_compute; reflexivity).
  assert (Hl : listening 0 s = true) by (vm_compute; reflexivity).
  assert (Hw : welcomeOnce s = 1) by (vm_compute; reflexivity).
  assert (Ha : authPacket s = None) by (vm_compute; reflexivity).
  assert (W : spooled_calls_plain s)
    by apply spooled_calls_plain_run, spooled_calls_plain_new.
  pose proof (step_welcome_anonymous 0 WelcomeEvent _ s Hj Hl Hw Ha W
                eq_refl eq_refl eq_refl eq_refl) as H.
  exact (conj (conj Hj (conj Hl (conj Hw (conj Ha W)))) H).
Defined.

(** ** The promises of [auth] made while disconnected *)

#[local] Instance R_auth_preorder : PreOrder R_auth.
Proof.
  split.
  - intros s. exists []. rewrite app_nil_r. split; [done|]. split; [|done]. by left.
  - intros s1 s2 s3 (l1 & E1 & K1 & N1) (l2 & E2 & K2 & N2).
    exists (l1 ++ l2). rewrite E2, E1, app_assoc. split; [done|]. split; [|by auto].
    intros p st Hp. rewrite emitted_app, elem_of_app.
    destruct (K1 p st Hp) as [H1|(-> & Hin & v & H1)].
    + destruct (K2 p st H1) as [H2|(-> & Hin & v & H2)]; [by left|].
      right. eauto 6.
    + destruct (K2 p _ H1) as [H2|(? & _)]; [|done]. right. eauto 6.
Qed.

Lemma R_auth_same s s' l :
  log s' = log s ++ l -> authPromises s' = authPromises s -> R_auth s s'.
Proof.
  intros Hl Ha. exists l. rewrite Ha. split; [done|]. split; [|done]. by left.
Qed.

Lemma R_auth_new s s' :
  log s' = log s -> authPromises s' = authPromises s ++ [Pending] -> R_auth s s'.
Proof.
  intros Hl Ha. exists []. rewrite Ha, app_nil_r. split; [done|]. split.
  - intros p st Hp. left. by apply lookup_app_l_Some.
  - intros p e [Hp|[_ Hp]]%lookup_app_Some; [done|].
    destruct (p - length (authPromises s)) as [|n]; cbn in Hp; done.
Qed.

Lemma notified_lookup v ls : forall (ps : list PState) (p : nat) st,
  ps !! p = Some st ->
  notified v ls ps !! p = Some st \/
  (st = Pending /\ notified v ls ps !! p = Some (Fulfilled v)).
Proof.
  unfold notified. induction ls as [|q ls IH]; intros ps p st Hp; cbn; [by left|].
  destruct (decide (q = p)) as [->|Hne].
  - destruct st as [|w|e].
    + right. split; [done|].
      destruct (IH (alter (notify v) p ps) p (Fulfilled v)) as [H|[? _]]; [|done..].
      by rewrite list_lookup_alter_eq, Hp.
    + apply IH. by rewrite list_lookup_alter_eq, Hp.
    + apply IH. by rewrite list_lookup_alter_eq, Hp.
  - apply IH. by rewrite list_lookup_alter_ne.
Qed.

Lemma notified_rejected v ls : forall (ps : list PState) (p : nat) e,
  notified v ls ps !! p = Some (Rejected e) -> ps !! p = Some (Rejected e).
Proof.
  unfold notified. induction ls as [|q ls IH]; intros ps p e Hp; cbn in Hp; [done|].
  apply IH in Hp. destruct (decide (q = p)) as [->|Hne].
  - rewrite list_lookup_alter_eq in Hp. destruct (ps !! p) as [[|w|e']|]; by inversion Hp.
  - by rewrite list_lookup_alter_ne in Hp.
Qed.

Lemma auth_emit name a : preserves R_auth (emit name a).
Proof.
  intros s. destruct (decide (name = "authResult")) as [->|Hne].
  - rewrite emit_authResult_eq. cbn [snd]. exists [Emit "authResult" a]. split; [done|].
    split.
    + intros p st Hp. cbn.
      destruct (notified_lookup (arg_value a) (authResultOnce s) _ p st Hp)
        as [H|[-> H]]; [by left|].
      right. split; [done|]. split; [|by eexists].
      unfold emitted. cbn. apply list_elem_of_here.
    + intros p e Hp. cbn in Hp. by eapply notified_rejected.
  - destruct (emit_cases name a s Hne) as [->|(_ & _ & ->)]; cbn [snd].
    + by eapply R_auth_same.
    + reflexivity.
Qed.

Ltac leaf_auth :=
  first
    [ by eapply (R_auth_same _ _ []); [cbn; by rewrite app_nil_r|]
    | by eapply R_auth_same
    | by eapply R_auth_new ].

Ltac known_auth :=
  idtac;
  lazymatch goal with
  | |- preserves _ (emit _ _) => apply auth_emit
  end.

Lemma auth_task ev : preserves R_auth (task ev).
Proof. destruct ev; cbn [task]; pres known_auth leaf_auth. Qed.

Lemma auth_run_job j : preserves R_auth (run_job j).
Proof. destruct j; unfold run_job; pres known_auth leaf_auth. Qed.

Lemma auth_run s evs : R_auth s (run s evs).
Proof.
  apply (preserves_run R_auth); auto using auth_task, auth_run_job.
  all: intros; leaf_auth.
Qed.

(** [auth] while not connected only saves the credentials and leaves a
    listener for the next 'authResult'. *)
Lemma auth_disconnected channelId userId authKey s :
  state s <> Connected ->
  auth channelId userId authKey s =
    (Ret (AuthWait (length (authPromises s))),
     set_authResultOnce (authResultOnce s ++ [length (authPromises s)])
       (set_authPromises (authPromises s ++ [Pending])
          (set_authPacket (Some (auth_args channelId userId authKey)) s))).
Proof.
  intros Hst. unfold auth, isConnected; unfold_M; cbn.
  by rewrite bool_decide_eq_false_2.
Qed.

(** X6. [auth] called while the state is not [Connected] saves the
    credentials and returns a new pending promise; nothing is sent, spooled,
    registered or emitted.  Whatever happens afterwards, that promise is
    either still pending or fulfilled, never rejected, and it is still
    pending as long as no 'authResult' notification has been emitted. *)
Lemma auth_while_disconnected channelId userId authKey s :
  jobs s = [] -> state s <> Connected ->
  let p := length (authPromises s) in
  let s1 := step s (Auth channelId userId authKey) in
  (auth channelId userId authKey s).1 = Ret (AuthWait p) /\
  authPacket s1 = Some (auth_args channelId userId authKey) /\
  log s1 = log s /\ queue s1 = queue s /\ replies s1 = replies s /\
  calls s1 = calls s /\ authPromises s1 = authPromises s ++ [Pending] /\
  forall evs,
    (authPromises (run s1 evs) !! p = Some Pending \/
     exists v, authPromises (run s1 evs) !! p = Some (Fulfilled v)) /\
    ("authResult" ∉ emitted (new_log s1 (run s1 evs)) ->
     authPromises (run s1 evs) !! p = Some Pending).
Proof.
  intros Hj Hst. cbn zeta.
  assert (E : step s (Auth channelId userId authKey) =
              (auth channelId userId authKey s).2).
  { unfold step, after, task. unfold bind. rewrite auth_disconnected by done.
    cbn. by rewrite drain_nil. }
  rewrite E, auth_disconnected by done. cbn [fst snd].
  match goal with |- context [run ?x _] => set (s1 := x) end.
  assert (Hp : authPromises s1 !! length (authPromises s) = Some Pending).
  { subst s1. cbn. by rewrite lookup_app_r, Nat.sub_diag by lia. }
  repeat split; try done.
  - destruct (auth_run s1 evs) as (l & _ & K & _).
    destruct (K _ _ Hp) as [H|(_ & _ & v & H)]; eauto.
  - intros Hn. destruct (auth_run s1 evs) as (l & Hl & K & _).
    rewrite (new_log_app _ _ l Hl) in Hn.
    destruct (K _ _ Hp) as [H|(_ & Hin & _)]; done.
Qed.

Lemma auth_while_disconnected_witness :
  let s := run (sample getDefaults) [Boot] in
  (jobs s = [] /\ state s <> Connected) /\
  (auth 7 (Some 42%Z) (Some "key") s).1 = Ret (AuthWait 0).
Proof.
  intros s.
  assert (Hj : jobs s = []) by (vm_compute; reflexivity).
  assert (Hst : state s <> Connected) by (vm_compute; discriminate).
  pose proof (auth_while_disconnected 7 (Some 42%Z) (Some "key") s Hj Hst) as H.
  exact (conj (conj Hj Hst) (proj1 H)).
Defined.

(** ** An entry that cannot time out *)

Section Kept.
Variable i : Z.
Variable r : Reply.

#[local] Instance R_kept_preorder : PreOrder (R_kept i r).
Proof. split; unfold R_kept; [intros ?; auto|intros ???; auto]. Qed.

Lemma R_kept_same s s' :
  replies s' = replies s -> random s' = random s -> draws s' = draws s ->
  calls s' = calls s -> jobs s' = jobs s -> R_kept i r s s'.
Proof. intros H1 H2 H3 H4 H5. unfold R_kept, entry_kept. by rewrite H1, H2, H3, H4, H5. Qed.

Lemma R_kept_enqueue s s' j :
  timeout_settlement j = false ->
  jobs s' = jobs s ++ [j] ->
  replies s' = replies s -> random s' = random s -> draws s' = draws s ->
  calls s' = calls s -> R_kept i r s s'.
Proof.
  intros Hj H5 H1 H2 H3 H4 (K1 & K2 & K3 & K4).
  unfold entry_kept. rewrite H1, H2, H3, H4, H5.
  refine (conj K1 (conj K2 (conj K3 _))).
  intros c o rec [Hin|Hin%list_elem_of_singleton]%elem_of_app Ht; [by eapply K4|].
  subst j. congruence.
Qed.

Lemma R_kept_alter s s' c f :
  (forall x, c_id (f x) = c_id x) -> (forall x, c_options (f x) = c_options x) ->
  (forall x, c_phase (f x) = Racing -> c_phase x = Racing) ->
  calls s' = alter f c (calls s) ->
  replies s' = replies s -> random s' = random s -> draws s' = draws s ->
  jobs s' = jobs s -> R_kept i r s s'.
Proof.
  intros F1 F2 F3 H4 H1 H2 H3 H5 (K1 & K2 & K3 & K4).
  assert (Hold : forall c' rec', alter f c (calls s) !! c' = Some rec' ->
            exists rec, calls s !! c' = Some rec /\ c_id rec' = c_id rec /\
                        c_options rec' = c_options rec /\
                        (c_phase rec' = Racing -> c_phase rec = Racing)).
  { intros c' rec' Hc. destruct (decide (c = c')) as [->|Hne].
    - rewrite list_lookup_alter_eq in Hc. destruct (calls s !! c') as [rec|]; [|done].
      inversion Hc; subst. exists rec. auto.
    - rewrite list_lookup_alter_ne in Hc by done. exists rec'. auto. }
  unfold entry_kept. rewrite H1, H2, H3, H4, H5.
  refine (conj K1 (conj K2 (conj _ _))).
  - intros c' rec' Hc Hid. apply Hold in Hc as (rec0 & Hc0 & E1 & E2 & E3).
    rewrite E2. destruct (K3 c' rec0) as [Hn Hp]; [done|congruence|]. auto.
  - intros c' o rec' Hin Ht Hc. apply Hold in Hc as (rec0 & Hc0 & E1 & _).
    rewrite E1. by eapply K4.
Qed.

Lemma R_kept_delete s s' k :
  k <> i -> replies s' = delete k (replies s) ->
  random s' = random s -> draws s' = draws s -> calls s' = calls s ->
  jobs s' = jobs s -> R_kept i r s s'.
Proof.
  intros Hk H1 H2 H3 H4 H5 (K1 & K2 & K3 & K4).
  unfold entry_kept. rewrite H1, H2, H3, H4, H5.
  refine (conj _ (conj K2 (conj K3 K4))). by rewrite lookup_delete_ne.
Qed.

(** A call draws a fresh id. *)
Lemma R_kept_call s s' opts j :
  timeout_settlement j = false ->
  replies s' = <[random s (draws s) := {| r_call := length (calls s) |}]> (replies s) ->
  calls s' = calls s ++ [new_call (random s (draws s)) opts] ->
  draws s' = S (draws s) -> random s' = random s ->
  (jobs s' = jobs s \/ jobs s' = jobs s ++ [j]) -> R_kept i r s s'.
Proof.
  intros Hj H1 H4 H3 H2 H5 (K1 & K2 & K3 & K4).
  assert (Hne : random s (draws s) <> i) by (by apply K2).
  assert (Hold : forall c rec, (calls s ++ [new_call (random s (draws s)) opts]) !! c
                               = Some rec ->
            c_id rec = i -> calls s !! c = Some rec).
  { intros c rec [Hc|[_ Hc]]%lookup_app_Some Hid; [done|].
    destruct (c - length (calls s)) as [|n]; cbn in Hc; [|done].
    inversion Hc; subst. done. }
  unfold entry_kept. rewrite H1, H2, H3, H4.
  refine (conj _ (conj _ (conj _ _))).
  - by rewrite lookup_insert_ne.
  - intros n Hn. apply K2. lia.
  - intros c rec Hc Hid. apply (K3 c rec); auto.
  - intros c o rec Hin Ht Hc Hid. apply Hold in Hc; [|done].
    apply (K4 c o rec); try done.
    destruct H5 as [H5|H5]; rewrite H5 in Hin; [done|].
    apply elem_of_app in Hin as [Hin|Hin%list_elem_of_singleton]; [done|].
    subst j. congruence.
Qed.

Ltac leaf_kept :=
  first
    [ by apply R_kept_same
    | by eapply R_kept_enqueue; [|reflexivity|..]
    | by eapply R_kept_alter; [| | |reflexivity|..]
    | by eapply R_kept_delete; [eassumption|reflexivity|..] ].

Lemma kept_call meth args opts : preserves (R_kept i r) (call meth args opts).
Proof.
  intros s.
  destruct (decide (state s = Connected \/ force opts = true)) as [Hc|Hc].
  - destruct (socket s) as [ws|] eqn:Hws.
    + rewrite (call_now _ _ _ _ ws) by done.
      eapply (R_kept_call _ _ opts (JCallThen (length (calls s)))); try done. by right.
    + rewrite call_without_socket by done.
      eapply (R_kept_call _ _ opts (JCallThen 0)); try done. by left.
  - assert (state s <> Connected /\ force opts = false) as [Hst Hf].
    { split; [tauto|]. destruct (force opts); tauto. }
    destruct (decide (meth = "auth")) as [->|Hm].
    + rewrite call_auth_dropped by done.
      eapply (R_kept_call _ _ opts (JCallThen (length (calls s)))); try done. by right.
    + rewrite call_spooled by done.
      eapply (R_kept_call _ _ opts (JCallThen 0)); try done. by left.
Qed.

Lemma alter_call_lookup (cs : list CallRec) f c c' rec' :
  alter f c cs !! c' = Some rec' ->
  exists rec, cs !! c' = Some rec /\ rec' = if decide (c = c') then f rec else rec.
Proof.
  intros Hc. destruct (decide (c = c')) as [->|Hne].
  - rewrite list_lookup_alter_eq in Hc. destruct (cs !! c') as [rec|]; [|done].
    inversion Hc. by exists rec.
  - rewrite list_lookup_alter_ne in Hc by done. by exists rec'.
Qed.

(** The entry is kept when the calls with id [i] are the same and as safe
    as before, and every timeout under way was there or is of another id. *)
Lemma entry_kept_intro s s' :
  entry_kept i r s ->
  replies s' !! i = Some r -> random s' = random s -> draws s <= draws s' ->
  (forall c rec', calls s' !! c = Some rec' -> c_id rec' = i ->
     exists rec, calls s !! c = Some rec /\ c_id rec = i /\
                 c_options rec' = c_options rec /\
                 (c_phase rec' = Racing -> c_phase rec = Racing)) ->
  (forall c o, JCallSettle c o ∈ jobs s' ->
     timeout_settlement (JCallSettle c o) = true ->
     JCallSettle c o ∈ jobs s \/
     forall rec', calls s' !! c = Some rec' -> c_id rec' <> i) ->
  entry_kept i r s'.
Proof.
  intros (K1 & K2 & K3 & K4) H1 H2 H3 H4 H5.
  refine (conj H1 (conj _ (conj _ _))).
  - intros n Hn. rewrite H2. apply K2. lia.
  - intros c rec' Hc Hid. destruct (H4 c rec' Hc Hid) as (rec & Hc0 & Hid0 & E2 & E3).
    destruct (K3 c rec Hc0 Hid0) as [Hn Hp]. rewrite E2. auto.
  - intros c o rec' Hin Ht Hc Hid. destruct (H5 c o Hin Ht) as [Hold|Hnew].
    + destruct (H4 c rec' Hc Hid) as (rec & Hc0 & Hid0 & _).
      by apply (K4 c o rec Hold Ht Hc0).
    + by apply (Hnew rec').
Qed.

Ltac old_call rec0 :=
  exists rec0; destruct (decide _) as [->|]; cbn in *;
  repeat split; first [done | congruence].

Lemma kept_call_then c : preserves (R_kept i r) (call_then c).
Proof.
  intros s K. pose proof K as (K1 & K2 & K3 & K4).
  destruct (calls s !! c) as [rec|] eqn:Hc.
  - destruct (noReply (c_options rec)) eqn:Hn.
    + rewrite (call_then_noReply c rec) by done. cbn [snd].
      apply (entry_kept_intro s); cbn; try done.
      * intros c' rec' [rec0 [Hc0 ->]]%alter_call_lookup Hid. old_call rec0.
      * intros c' o [Hin|Hin%list_elem_of_singleton]%elem_of_app Ht; [by left|].
        inversion Hin; subst. done.
    + assert (Hne : c_id rec <> i).
      { intros Hid. destruct (K3 c rec Hc Hid). congruence. }
      destruct (c_replyPromise rec) as [o|] eqn:Hr.
      * rewrite (call_then_settled c rec o) by done. cbn [snd].
        apply (entry_kept_intro s); cbn; try done.
        -- intros c' rec' [rec0 [Hc0 ->]]%alter_call_lookup Hid. old_call rec0.
        -- intros c' o' [Hin|Hin%list_elem_of_singleton]%elem_of_app Ht; [by left|].
           inversion Hin; subst. by destruct o.
      * rewrite (call_then_races c rec) by done. cbn [snd].
        apply (entry_kept_intro s); cbn; try done; [|by left].
        intros c' rec' [rec0 [Hc0 ->]]%alter_call_lookup Hid. old_call rec0.
  - unfold call_then. rewrite bind_get, Hc. done.
Qed.

Lemma kept_timeout_call c : preserves (R_kept i r) (timeout_call c).
Proof.
  intros s K. pose proof K as (K1 & K2 & K3 & K4).
  unfold timeout_call. rewrite bind_get.
  destruct (calls s !! c) as [rec|] eqn:Hc; [|done].
  destruct (c_phase rec) eqn:Hp; try done.
  assert (Hne : c_id rec <> i).
  { intros Hid. by destruct (K3 c rec Hc Hid). }
  unfold set_call, enqueue. rewrite bind_modify. cbn [snd modify].
  apply (entry_kept_intro s); cbn; try done.
  - intros c' rec' [rec0 [Hc0 ->]]%alter_call_lookup Hid. old_call rec0.
  - intros c' o [Hin|Hin%list_elem_of_singleton]%elem_of_app Ht; [by left|].
    inversion Hin; subst. right.
    intros rec' [rec0 [Hc0 ->]]%alter_call_lookup.
    rewrite decide_True by done. cbn. congruence.
Qed.

Ltac known_kept :=
  idtac;
  lazymatch goal with
  | |- preserves _ (call _ _ _) => apply kept_call
  | |- preserves _ (call_then _) => apply kept_call_then
  | |- preserves _ (timeout_call _) => apply kept_timeout_call
  end.

(** A frame that is not a reply with id [i]. *)
Lemma kept_parsePacket f :
  reply_frame_for i f = false -> preserves (R_kept i r) (parsePacket f).
Proof.
  intros Hf. unfold reply_frame_for in Hf. unfold parsePacket.
  destruct (binary f); [pres known_kept leaf_kept|].
  destruct (parsed f) as [[|packet|ty]|];
    [pres known_kept leaf_kept| |pres known_kept leaf_kept..].
  cbn in Hf. refine (preserves_bind _ _ _ _ _); [pres known_kept leaf_kept|intros _].
  destruct (String.eqb (p_type packet) "reply").
  - cbn in Hf. apply bool_decide_eq_false in Hf. pres known_kept leaf_kept.
  - pres known_kept leaf_kept.
Qed.

Lemma kept_task ev : replies_to i ev = false -> preserves (R_kept i r) (task ev).
Proof.
  destruct ev; cbn [task replies_to]; intros Hev.
  all: try (pres known_kept leaf_kept; fail).
  - by apply kept_parsePacket.
  - unfold ws_on_message, whilstSameSocket.
    pres ltac:(idtac; lazymatch goal with
                      | |- preserves _ (parsePacket _) => by apply kept_parsePacket
                      end) leaf_kept.
Qed.

(** A reaction whose timeout, if it is one, is that of another id. *)
Lemma kept_run_job j s :
  (forall c o rec, j = JCallSettle c o -> timeout_settlement j = true ->
     calls s !! c = Some rec -> c_id rec <> i) ->
  R_kept i r s (run_job j s).2.
Proof.
  intros Hj. destruct j as [c|c o|g o]; unfold run_job.
  - apply kept_call_then.
  - unfold call_catch. rewrite bind_get.
    destruct (calls s !! c) as [rec|] eqn:Hc; [|reflexivity].
    assert (Hne : timeout_settlement (JCallSettle c o) = true -> c_id rec <> i)
      by (intros Ht; by eapply Hj).
    revert s Hj Hc. change (preserves (R_kept i r) ?m) with (forall s, R_kept i r s (m s).2).
    intros s _ _. revert s.
    match goal with |- forall s, R_kept _ _ s (?m s).2 =>
      change (preserves (R_kept i r) m) end.
    destruct o as [|v|e]; cbn in Hne.
    + unfold unSpool_chain. pres known_kept leaf_kept.
    + unfold unSpool_chain. pres known_kept leaf_kept.
    + destruct (instanceof_TimeoutError e) eqn:He.
      * specialize (Hne eq_refl). unfold unSpool_chain. pres known_kept leaf_kept.
      * unfold unSpool_chain. pres known_kept leaf_kept.
  - clear Hj. revert s.
    change (preserves (R_kept i r) (try_catch (ping_settle o) (fun _ => ret tt))).
    pres known_kept leaf_kept.
Qed.

Lemma kept_run_jobs fuel : forall s, entry_kept i r s -> entry_kept i r (run_jobs fuel s).
Proof.
  induction fuel as [|fuel IH]; intros s K; cbn [run_jobs]; [done|].
  destruct (jobs s) as [|j js] eqn:Hjs; [done|].
  apply IH. pose proof K as (K1 & K2 & K3 & K4).
  apply kept_run_job.
  - intros c o rec -> Ht Hc. apply (K4 c o rec); [|done..].
    rewrite Hjs. apply list_elem_of_here.
  - refine (conj K1 (conj K2 (conj K3 _))). cbn.
    intros c o rec Hin. apply K4. rewrite Hjs. by apply list_elem_of_further.
Qed.

Lemma kept_step s ev :
  replies_to i ev = false -> entry_kept i r s -> entry_kept i r (step s ev).
Proof.
  intros Hev K. unfold step, drain. apply kept_run_jobs.
  revert K. apply (preserves_after (R_kept i r)).
  - by apply kept_task.
  - intros; leaf_kept.
Qed.

Lemma kept_run evs : forall s,
  Forall (fun ev => replies_to i ev = false) evs ->
  entry_kept i r s -> entry_kept i r (run s evs).
Proof.
  induction evs as [|ev evs IH]; intros s Hevs K; cbn; [done|].
  apply Forall_cons in Hevs as [Hev Hevs]. apply IH; [done|]. by apply kept_step.
Qed.
End Kept.

(** A call that does not wait for a reply, made while connected or under
    [force]: the entry is registered, the packet sent, the promise resolved;
    no timer is armed. *)
Lemma step_call_noReply meth args opts s ws :
  jobs s = [] -> state s = Connected \/ force opts = true ->
  socket s = Some ws -> noReply opts = true ->
  let i := random s (draws s) in
  let c := length (calls s) in
  let data := {| method := meth; arguments := args; id := i |} in
  step s (Call meth args opts) =
    set_calls (calls s ++ [with_result (Fulfilled VUndefined)
                             (with_phase Done (new_call i opts))])
      (set_log (log s ++ [WsSend ws data; Emit "debug" (AOut data)])
         (set_replies (<[i := {| r_call := c |}]> (replies s))
            (set_draws (S (draws s)) s))).
Proof.
  intros Hj Hc Hws Hn. cbn zeta. unfold step, after, task. unfold bind at 1.
  rewrite (call_now _ _ _ _ ws) by done. cbn iota beta. unfold ret.
  rewrite Hj. cbn [app].
  set (rec := new_call (random s (draws s)) opts).
  match goal with |- drain ?x = _ => set (s1 := x) end.
  assert (Hc1 : calls (set_jobs [] s1) !! length (calls s) = Some rec).
  { subst s1. cbn. by rewrite lookup_app_r, Nat.sub_diag by lia. }
  rewrite (drain_cons s1 (JCallThen (length (calls s))) []) by done.
  unfold run_job. rewrite (call_then_noReply _ rec) by done. cbn [snd].
  match goal with |- drain ?x = _ => set (s2 := x) end.
  assert (Hc2 : calls (set_jobs [] s2) !! length (calls s) = Some (with_phase Done rec)).
  { subst s2. cbn. cbn in Hc1. by rewrite list_lookup_alter_eq, Hc1. }
  rewrite (drain_cons s2 (JCallSettle (length (calls s)) (Fulfilled VUndefined)) [])
    by done.
  unfold run_job. rewrite (call_catch_other _ (with_phase Done rec)) by done.
  rewrite drain_nil by done. subst s2 s1. cbn. state_eq; try done.
  rewrite !alter_app_r_alt by (rewrite ?length_alter, ?length_app; cbn; lia).
  by rewrite Nat.sub_diag.
Qed.

(** A reply frame for a call that is not waiting in a race: the outcome is
    stored and the entry removed. *)
Lemma parsePacket_matched_late f packet c rec s :
  binary f = false -> parsed f = Some (PPacket packet) -> p_type packet = "reply" ->
  replies s !! p_id packet = Some {| r_call := c |} ->
  calls s !! c = Some rec -> c_replyPromise rec = None -> c_phase rec <> Racing ->
  parsePacket f s =
    (Ret tt,
     set_replies (delete (p_id packet) (replies s))
       (set_calls (alter (with_replyPromise (Some (reply_outcome packet))) c (calls s))
          (set_log (log s ++ [Emit "debug" (AIn packet)]) s))).
Proof.
  intros Hb Hp Ht Hr Hc Hrp Hph. unfold parsePacket; unfold_M; cbn.
  rewrite Hb, Hp, emit_eq by done. cbn. rewrite Ht. cbn. rewrite Hr.
  unfold Reply_handle, reply_outcome, settle_reply, set_call; unfold_M; cbn.
  destruct (p_error packet); cbn; rewrite Hc, Hrp; destruct (c_phase rec); done.
Qed.

(** X7. A call made with [noReply] while connected or under [force] sends
    its packet and resolves at once with [undefined], without arming a
    timeout; the entry registered under its id is still there.  If that id
    was not in use and is not drawn again, the entry stays through every
    later task that is not a reply frame with that id; such a frame, handed
    to [parsePacket], removes it and leaves the result of the call as it
    is. *)
Lemma noReply_entry_stays meth args opts s ws :
  jobs s = [] -> state s = Connected \/ force opts = true ->
  socket s = Some ws -> noReply opts = true ->
  let i := random s (draws s) in
  let c := length (calls s) in
  (forall n, draws s < n -> random s n <> i) ->
  (forall c' rec, calls s !! c' = Some rec -> c_id rec <> i) ->
  let s1 := step s (Call meth args opts) in
  sent (new_log s s1) = [{| method := meth; arguments := args; id := i |}] /\
  calls s1 !! c = Some (with_result (Fulfilled VUndefined)
                          (with_phase Done (new_call i opts))) /\
  timers s1 = timers s /\
  replies s1 !! i = Some {| r_call := c |} /\
  (forall evs, Forall (fun ev => replies_to i ev = false) evs ->
     replies (run s1 evs) !! i = Some {| r_call := c |}) /\
  (forall f packet,
     binary f = false -> parsed f = Some (PPacket packet) -> p_type packet = "reply" ->
     p_id packet = i ->
     replies (step s1 (ParsePacket f)) !! i = None /\
     c_result <$> calls (step s1 (ParsePacket f)) !! c = Some (Fulfilled VUndefined)).
Proof.
  intros Hj Hc Hws Hn. cbn zeta. intros Hfresh Hold.
  rewrite (step_call_noReply _ _ _ _ ws) by done.
  match goal with |- context [run ?x _] => set (s1 := x) end.
  assert (Hl : log s1 = log s ++ [WsSend ws {| method := meth; arguments := args;
                                                id := random s (draws s) |};
                                  Emit "debug" (AOut {| method := meth; arguments := args;
                                                        id := random s (draws s) |})])
    by done.
  assert (Hcalls : calls s1 = calls s ++ [with_result (Fulfilled VUndefined)
                     (with_phase Done (new_call (random s (draws s)) opts))]) by done.
  assert (Hr : replies s1 !! random s (draws s) = Some {| r_call := length (calls s) |}).
  { subst s1. cbn. apply lookup_insert_eq. }
  assert (Ht : timers s1 = timers s) by done.
  assert (Hj1 : jobs s1 = []) by done.
  assert (Hd : draws s1 = S (draws s)) by done.
  assert (Hrnd : random s1 = random s) by done.
  revert Hl Hcalls Hr Ht Hj1 Hd Hrnd. generalize s1. clear s1.
  intros s1 Hl Hcalls Hr Ht Hj1 Hd Hrnd.
  assert (Hc1 : calls s1 !! length (calls s) =
                Some (with_result (Fulfilled VUndefined)
                        (with_phase Done (new_call (random s (draws s)) opts)))).
  { by rewrite Hcalls, lookup_app_r, Nat.sub_diag by lia. }
  split; [by rewrite (new_log_app _ _ _ Hl)|].
  split; [done|]. split; [done|]. split; [done|]. split.
  - intros evs Hevs.
    apply (kept_run (random s (draws s)) {| r_call := length (calls s) |} evs s1 Hevs).
    refine (conj Hr (conj _ (conj _ _))).
    + intros n Hle. rewrite Hrnd. apply Hfresh. lia.
    + intros c' rec. rewrite Hcalls.
      intros [Hc'|[_ Hc']]%lookup_app_Some Hid; [by destruct (Hold c' rec Hc')|].
      destruct (c' - length (calls s)) as [|n]; cbn in Hc'; [|done].
      inversion Hc'; subst. by cbn.
    + intros c' o rec Hin. rewrite Hj1 in Hin. by apply elem_of_nil in Hin.
  - intros f packet Hb Hp Hty Hid. unfold step, after, task.
    rewrite (parsePacket_matched_late f packet (length (calls s))
               (with_result (Fulfilled VUndefined)
                  (with_phase Done (new_call (random s (draws s)) opts))));
      [|done|done|done|by rewrite Hid|done|done|done].
    rewrite drain_nil by done. cbn. rewrite Hid. split; [apply lookup_delete_eq|].
    by rewrite list_lookup_alter_eq, Hc1.
Qed.

Lemma noReply_entry_stays_witness :
  let s := run (sample getDefaults) [Boot; WsMessageEvent 0 WelcomeEvent] in
  let opts := {| noReply := true; timeout := None; force := false |} in
  (jobs s = [] /\ state s = Connected /\ socket s = Some 0 /\
   (forall n, draws s < n -> random s n <> random s (draws s)) /\
   (forall c' rec, calls s !! c' = Some rec -> c_id rec <> random s (draws s))) /\
  sent (new_log s (step s (Call "msg" [ArgString "a"] opts))) =
    [{| method := "msg"; arguments := [ArgString "a"]; id := random s (draws s) |}].
Proof.
  intros s opts.
  assert (Hj : jobs s = []) by (vm_compute; reflexivity).
  assert (Hst : state s = Connected) by (vm_compute; reflexivity).
  assert (Hws : socket s = Some 0) by (vm_compute; reflexivity).
  assert (Hd : draws s = 0) by (vm_compute; reflexivity).
  assert (Hr : random s = fun n => Z.of_nat (100 + n)) by reflexivity.
  assert (Hc : calls s = []) by (vm_compute; reflexivity).
  assert (Hf : forall n, draws s < n -> random s n <> random s (draws s)).
  { rewrite Hr, Hd. intros n Hn. lia. }
  assert (Ho : forall c' rec, calls s !! c' = Some rec -> c_id rec <> random s (draws s)).
  { rewrite Hc. intros c' rec H. done. }
  pose proof (noReply_entry_stays "msg" [ArgString "a"] opts s 0
                Hj (or_introl Hst) Hws eq_refl Hf Ho) as H.
  exact (conj (conj Hj (conj Hst (conj Hws (conj Hf Ho)))) (proj1 H)).
Defined.

(** On a trace: the entry of a [noReply] call outlives timers and other
    traffic. *)
Example noReply_trace :
  let opts := {| noReply := true; timeout := None; force := false |} in
  let s := run (sample getDefaults)
             [Boot; WsMessageEvent 0 WelcomeEvent; Call "msg" [ArgString "a"] opts;
              TimerExpires 1; WsPongEvent 0; Call "foo" [] no_options;
              WsMessageEvent 0 (reply_ok 101); TimerExpires 2; TimerExpires 3] in
  replies s !! 100%Z = Some {| r_call := 0 |} /\
  (c_result <$> calls s !! 0) = Some (Fulfilled VUndefined) /\
  replies (step s (WsMessageEvent 0 (reply_ok 100))) !! 100%Z = None.
Proof. vm_compute. done. Qed.

(** ** Frames that are not packets *)



(** On a trace without a listener for 'error': the binary frame and the
    frame that parses to [null] end as exceptions of the task. *)
Example malformed_frame_trace :
  let s := run (sample getDefaults) [Boot; WsMessageEvent 0 WelcomeEvent] in
  new_log s (step s (ParsePacket {| binary := true; parsed := None |})) =
    [Uncaught (MessageParserError "Somehow got a binary packet?")] /\
  new_log s (step s (ParsePacket {| binary := false; parsed := Some PNull |})) =
    [Emit "debug" AInNull; Uncaught TypeError] /\
  new_log s (step s (WsMessageEvent 0 {| binary := false; parsed := Some PNull |})) =
    [SetTimeout 2 CbPing 15000; Emit "debug" AInNull; Uncaught TypeError].
Proof. vm_compute. done. Qed.

(** ** Server events *)

(** X18. A server event under a name the class does not listen to itself,
    that is any name but 'close', 'WelcomeEvent' and 'authResult', is passed
    on by [parsePacket] as a notification under that name with the data of
    the packet, after the 'debug' notification, and nothing else changes.
    The one exception is the name 'error' on an instance nobody listens to
    for 'error': the data is not an [Error], so [emit] throws an [Error] of
    its own out of [parsePacket]. *)
Lemma server_event_passed_on f packet s :
  jobs s = [] -> binary f = false -> parsed f = Some (PPacket packet) ->
  p_type packet = "event" ->
  p_event packet <> "close" -> p_event packet <> "WelcomeEvent" ->
  p_event packet <> "authResult" ->
  step s (ParsePacket f) =
    set_log (log s ++ [Emit "debug" (AIn packet);
                       if decide (p_event packet = "error" /\ errorListeners s = 0)
                       then Uncaught UnhandledError
                       else Emit (p_event packet) (AValue (VJson (p_data packet)))]) s.
Proof.
  intros Hj Hb Hp Ht Hc Hw Ha. unfold step, after, task, parsePacket.
  rewrite Hb, Hp. erewrite bind_Ret by (by apply emit_eq). rewrite Ht.
  cbn [String.eqb Ascii.eqb Bool.eqb]. cbn match. unfold emit_event.
  apply String.eqb_neq in Hc, Hw.
  destruct (decide (p_event packet = "error" /\ errorListeners s = 0)) as [[E1 E2]|Hn].
  - rewrite E1. unfold bind. rewrite emit_error_unheard by done.
    rewrite drain_nil by done. cbn. state_eq; try done. by rewrite <- app_assoc.
  - assert (E : forall s1 : ChatSocket,
              errorListeners s1 = errorListeners s ->
              emit (p_event packet) (AValue (VJson (p_data packet))) s1 =
                (Ret tt, set_log (log s1 ++ [Emit (p_event packet)
                                               (AValue (VJson (p_data packet)))]) s1)).
    { intros s1 H1. destruct (decide (p_event packet = "error")) as [E1|E1].
      - rewrite E1. apply emit_error. rewrite H1.
        destruct (decide (errorListeners s = 0)); [tauto|lia].
      - by apply emit_eq. }
    erewrite bind_Ret by (by apply E). rewrite Hc, Hw. unfold ret.
    rewrite drain_nil by done. cbn. state_eq; try done. by rewrite <- app_assoc.
Qed.

Lemma server_event_passed_on_witness :
  let s := run (sample getDefaults) [Boot; WsMessageEvent 0 WelcomeEvent] in
  jobs s = [] /\
  new_log s (step s (ParsePacket (event_frame "ChatMessage"))) =
    [Emit "debug" (AIn {| p_type := "event"; p_id := 0; p_event := "ChatMessage";
                          p_data := "{}"; p_error := None |});
     Emit "ChatMessage" (AValue (VJson "{}"))].
Proof.
  intros s.
  assert (Hj : jobs s = []) by (vm_compute; reflexivity).
  split; [exact Hj|].
  rewrite (server_event_passed_on (event_frame "ChatMessage") _ s Hj
             eq_refl eq_refl eq_refl); [|done..].
  rewrite decide_False by (intros [[=] _]).
  apply new_log_app. reflexivity.
Defined.

(** On a trace: only listeners of 'error' count for [emit]; a server event
    named 'error' is thrown on an instance without one and notified on an
    instance with one. *)
Example error_listener_trace :
  let s := run (sample getDefaults) [On "close"; On "debug"] in
  let s' := run (sample getDefaults) [On "close"; On "error"] in
  errorListeners s = 0 /\ errorListeners s' = 1 /\
  new_log s (step s (ParsePacket (event_frame "error"))) =
    [Emit "debug" (AIn {| p_type := "event"; p_id := 0; p_event := "error";
                          p_data := "{}"; p_error := None |});
     Uncaught UnhandledError] /\
  emitted (new_log s' (step s' (ParsePacket (event_frame "error")))) =
    ["debug"; "error"].
Proof. vm_compute. done. Qed.

(** ** Events of a transport *)

Lemma not_listening ws s : socket s <> Some ws -> listening ws s = false.
Proof.
  intros H. unfold listening. rewrite bool_decide_eq_false_2 by done.
  apply andb_false_r.
Qed.

(** X9. Once [boot] has replaced the transport, the 'open', 'message',
    'close' and 'error' events of the old one are ignored: the instance is
    left exactly as it was.  In particular the close of the old transport
    emits no 'close' and schedules no reconnect, and a reply arriving on it
    settles no call. *)
Lemma stale_transport_ignored ws s :
  jobs s = [] -> socket s <> Some ws ->
  step s (WsOpenEvent ws) = s /\
  (forall f, step s (WsMessageEvent ws f) = s) /\
  (forall evt, step s (WsCloseEvent ws evt) = s) /\
  (forall err, step s (WsErrorEvent ws err) = s).
Proof.
  intros Hj Hne. pose proof (not_listening ws s Hne) as Hl.
  unfold step, after, task, ws_on_open, ws_on_message, ws_on_close, ws_on_error.
  repeat split; intros; rewrite whilstSameSocket_eq, Hl; by rewrite drain_nil.
Qed.

Lemma stale_transport_ignored_witness :
  let s := run (sample getDefaults) [Boot; Boot] in
  (jobs s = [] /\ socket s <> Some 0) /\ step s (WsOpenEvent 0) = s.
Proof.
  intros s.
  assert (Hj : jobs s = []) by (vm_compute; reflexivity).
  assert (Hne : socket s <> Some 0) by (vm_compute; discriminate).
  exact (conj (conj Hj Hne) (proj1 (stale_transport_ignored 0 s Hj Hne))).
Defined.

(** X10. An 'error' event of the current transport is ignored while the
    state is [Closing].  In any other state, if the user listens to 'error',
    the error is passed on as an 'error' notification and the transport is
    closed, the state staying as it is until the transport's close event
    arrives; if nobody listens to 'error', [emit] throws the error out of
    the listener and the transport is not closed. *)
Lemma transport_error ws err s :
  jobs s = [] -> listening ws s = true ->
  (state s = Closing -> step s (WsErrorEvent ws err) = s) /\
  (state s <> Closing -> 0 < errorListeners s ->
   step s (WsErrorEvent ws err) =
     set_log (log s ++ [Emit "error" (AError err); WsClose ws]) s) /\
  (state s <> Closing -> errorListeners s = 0 ->
   step s (WsErrorEvent ws err) = set_log (log s ++ [Uncaught err]) s).
Proof.
  intros Hj Hl. unfold step, after, task, ws_on_error.
  rewrite whilstSameSocket_eq, Hl. rewrite bind_get.
  refine (conj _ (conj _ _)).
  - intros Hst. rewrite decide_True by done. by rewrite drain_nil.
  - intros Hst He. rewrite decide_False by done.
    erewrite bind_Ret by (by apply emit_error).
    unfold effect, modify. cbn. rewrite drain_nil by done.
    state_eq; try done. by rewrite <- app_assoc.
  - intros Hst He. rewrite decide_False by done.
    unfold bind. rewrite emit_error_unheard by done. cbn.
    by rewrite drain_nil.
Qed.

Lemma transport_error_witness :
  let s := run (sample getDefaults)
             [On "error"; Boot; WsMessageEvent 0 WelcomeEvent] in
  (jobs s = [] /\ listening 0 s = true /\ state s <> Closing /\
   0 < errorListeners s) /\
  step s (WsErrorEvent 0 (TransportError "ECONNRESET")) =
    set_log (log s ++ [Emit "error" (AError (TransportError "ECONNRESET")); WsClose 0]) s.
Proof.
  intros s.
  assert (Hj : jobs s = []) by (vm_compute; reflexivity).
  assert (Hl : listening 0 s = true) by (vm_compute; reflexivity).
  assert (Hst : state s <> Closing) by (vm_compute; discriminate).
  assert (He : 0 < errorListeners s) by (vm_compute; lia).
  exact (conj (conj Hj (conj Hl (conj Hst He)))
              (proj1 (proj2 (transport_error 0 (TransportError "ECONNRESET") s Hj Hl))
                 Hst He)).
Defined.

(** ** The close of the current transport *)

Lemma ws_close_eq ws evt s :
  listening ws s = true ->
  ws_on_close ws evt s =
    closeHandler evt (set_log (log s ++ [Emit "close" (AValue evt)]) s).
Proof.
  intros Hl. unfold ws_on_close. rewrite whilstSameSocket_eq, Hl.
  unfold emit_event. erewrite bind_Ret by (by apply emit_eq). done.
Qed.

(** The 'close' listener outside [Refreshing] and [Closing], with
    [autoReconnect]. *)
Lemma closeHandler_reconnect evt s :
  state s <> Refreshing -> state s <> Closing -> autoReconnect (options s) = true ->
  let next := policy_next (reconnectionPolicy (options s)) (attempts s) in
  closeHandler evt s =
    (Ret tt,
     set_reconnectTimeout (Some (length (timers s)))
       (set_log (log s ++ [Emit "reconnecting" (AReconnecting next.1 evt);
                           SetTimeout (length (timers s)) CbBoot next.1])
          (set_timers (timers s ++ [{| t_cb := CbBoot; t_delay := next.1;
                                       t_live := true |}])
             (set_attempts next.2 (set_state Reconnecting s))))).
Proof.
  intros H1 H2 Ha. cbn zeta. unfold closeHandler. rewrite bind_get.
  rewrite !decide_False by done. rewrite bind_get, Ha. cbn [negb].
  unfold reconnectionPolicy_next, setTimeout. exec.
  erewrite bind_Ret by (by apply emit_eq). exec.
  unfold effect, modify, ret. cbn. f_equal. state_eq; try done.
  by rewrite <- app_assoc.
Qed.

(** The 'close' listener in [Closing]. *)
Lemma closeHandler_closing evt s :
  state s = Closing ->
  closeHandler evt s =
    (Ret tt,
     set_timers
       (timers (clearTimeout (reconnectTimeout s)
                  (clearTimeout (pingTimeoutHandle s) s).2).2)
       (set_log (log s ++ [Emit "closed" ANone]) (set_state Closed s))).
Proof.
  intros Hst. unfold closeHandler. rewrite bind_get.
  rewrite decide_False by (rewrite Hst; done). rewrite decide_True by done.
  exec. erewrite bind_Ret by (by apply emit_eq). exec.
  cbn [pingTimeoutHandle reconnectTimeout set_log set_state].
  destruct (pingTimeoutHandle s) eqn:Hp; cbn [clearTimeout]; exec;
    cbn [reconnectTimeout set_timers set_log set_state];
    destruct (reconnectTimeout s) eqn:Hr; cbn; rewrite ?Hp, ?Hr; cbn;
    f_equal; by state_eq.
Qed.

(** [boot] outside [Closing]: the next endpoint is drawn, a transport is
    opened on it and wired, and one more 'WelcomeEvent' listener is left. *)
Lemma boot_connecting s :
  state s <> Closing ->
  exists a s',
    (getAddress s).1 = Ret a /\ boot s = (Ret tt, s') /\
    state s' = Connecting /\ socket s' = Some (length (sockets s)) /\
    log s' = log s ++ [NewSocket (length (sockets s)) a] /\
    listening (length (sockets s)) s' = true /\
    welcomeOnce s' = S (welcomeOnce s) /\
    endpointOffset s' = endpointOffset (getAddress s).2 /\
    jobs s' = jobs s /\ timers s' = timers s /\ queue s' = queue s /\
    replies s' = replies s /\ calls s' = calls s /\ authPacket s' = authPacket s.
Proof.
  intros Hst. unfold boot.
  assert (G : exists a s0, getAddress s = (Ret a, s0) /\
                state s0 = state s /\ sockets s0 = sockets s /\ log s0 = log s /\
                welcomeOnce s0 = welcomeOnce s /\ jobs s0 = jobs s /\
                timers s0 = timers s /\ queue s0 = queue s /\ replies s0 = replies s /\
                calls s0 = calls s /\ authPacket s0 = authPacket s).
  { unfold getAddress; unfold_M; cbn. destruct (bool_decide _); cbn; by eexists _, _. }
  destruct G as (a & s0 & E & G1 & G2 & G3 & G4 & G5 & G6 & G7 & G8 & G9 & G10).
  rewrite E. cbn [fst snd]. exists a. erewrite bind_Ret by exact E.
  unfold new_Socket, wire. exec. unfold effect. exec.
  cbn [state set_socket set_log set_sockets]. rewrite G1, decide_False by done. exec.
  eexists. split; [done|]. split; [reflexivity|]. cbn.
  rewrite ?G2, ?G3, ?G4, ?G5, ?G6, ?G7, ?G8, ?G9, ?G10. repeat split; try done.
  unfold listening. cbn.
  rewrite list_lookup_alter_eq, lookup_app_r, Nat.sub_diag by lia. cbn.
  by rewrite ?G2, bool_decide_eq_true_2.
Qed.

(** The address drawn depends on the endpoints and the offset only. *)
Lemma getAddress_address s s' :
  endpoints s' = endpoints s -> endpointOffset s' = endpointOffset s ->
  (getAddress s').1 = (getAddress s).1.
Proof.
  intros He Ho. unfold getAddress; unfold_M; cbn. rewrite He, Ho.
  destruct (bool_decide _); cbn; by rewrite ?He.
Qed.

(** The reconnect timer expires outside [Closing]: [boot] runs. *)
Lemma fire_boot_connecting s h t :
  timers s !! h = Some t -> t_live t = true -> t_cb t = CbBoot ->
  state s <> Closing ->
  exists a s',
    (getAddress s).1 = Ret a /\ fire h s = (Ret tt, s') /\
    state s' = Connecting /\ socket s' = Some (length (sockets s)) /\
    log s' = log s ++ [NewSocket (length (sockets s)) a] /\
    listening (length (sockets s)) s' = true /\ jobs s' = jobs s.
Proof.
  intros Ht Hl Hcb Hst. rewrite (fire_live s h t Ht Hl), Hcb. cbn [run_timer].
  destruct (boot_connecting (clearTimeout (Some h) s).2)
    as (a & s' & Ea & Eb & B1 & B2 & B3 & B4 & _ & _ & B5 & _); [done|].
  exists a, s'.
  split; [by rewrite <- (getAddress_address s (clearTimeout (Some h) s).2)|].
  split; [exact Eb|]. split; [exact B1|].
  split; [exact B2|]. split; [exact B3|]. split; [exact B4|exact B5].
Qed.

(** X11. The current transport closes while the state is neither [Closing]
    nor [Refreshing] and [autoReconnect] is set: 'close' and 'reconnecting'
    are emitted, the latter with the interval the reconnection policy gives
    next, the state is [Reconnecting], and a timer with that interval is
    armed and stored as the reconnect timer.  When it expires, [boot] opens
    a transport on the next endpoint and the state is [Connecting]. *)
Lemma unexpected_close_reconnects ws evt s :
  jobs s = [] -> listening ws s = true ->
  state s <> Refreshing -> state s <> Closing -> autoReconnect (options s) = true ->
  let next := policy_next (reconnectionPolicy (options s)) (attempts s) in
  let h := length (timers s) in
  let s1 := step s (WsCloseEvent ws evt) in
  let s2 := step s1 (TimerExpires h) in
  state s1 = Reconnecting /\
  new_log s s1 = [Emit "close" (AValue evt);
                  Emit "reconnecting" (AReconnecting next.1 evt);
                  SetTimeout h CbBoot next.1] /\
  reconnectTimeout s1 = Some h /\ attempts s1 = next.2 /\ socket s1 = Some ws /\
  state s2 = Connecting /\ socket s2 = Some (length (sockets s)) /\
  (exists a, (getAddress s).1 = Ret a /\
             new_log s1 s2 = [NewSocket (length (sockets s)) a]) /\
  listening (length (sockets s)) s2 = true.
Proof.
  intros Hj Hl H1 H2 Ha. cbn zeta.
  pose proof (listening_socket ws s Hl) as Hws.
  assert (E1 : step s (WsCloseEvent ws evt) =
               (closeHandler evt (set_log (log s ++ [Emit "close" (AValue evt)]) s)).2).
  { unfold step, after, task. rewrite ws_close_eq by done.
    rewrite closeHandler_reconnect by done. by rewrite drain_nil. }
  rewrite E1, closeHandler_reconnect by done. clear E1. cbn [snd].
  match goal with |- context [step ?x (TimerExpires _)] => set (s1 := x) end.
  set (next := policy_next (reconnectionPolicy (options s)) (attempts s)) in *.
  assert (L1 : log s1 = log s ++ [Emit "close" (AValue evt);
                                  Emit "reconnecting" (AReconnecting next.1 evt);
                                  SetTimeout (length (timers s)) CbBoot next.1]).
  { subst s1. cbn. by rewrite <- app_assoc. }
  assert (T1 : timers s1 = timers s ++ [{| t_cb := CbBoot; t_delay := next.1;
                                           t_live := true |}]) by done.
  assert (F1 : state s1 = Reconnecting /\ reconnectTimeout s1 = Some (length (timers s)) /\
               attempts s1 = next.2 /\ socket s1 = socket s /\ jobs s1 = jobs s /\
               sockets s1 = sockets s /\ endpoints s1 = endpoints s /\
               endpointOffset s1 = endpointOffset s) by done.
  revert L1 T1 F1. generalize s1. clear s1. intros s1 L1 T1 F1.
  destruct F1 as (F1 & F2 & F3 & F4 & F5 & F6 & F7 & F8).
  rewrite (new_log_app _ _ _ L1).
  split; [done|]. split; [done|]. split; [done|]. split; [done|].
  split; [congruence|].
  assert (Ht : timers s1 !! length (timers s) =
               Some {| t_cb := CbBoot; t_delay := next.1; t_live := true |}).
  { by rewrite T1, lookup_app_r, Nat.sub_diag by lia. }
  destruct (fire_boot_connecting s1 (length (timers s)) _ Ht eq_refl eq_refl)
    as (a & s2 & Ea & Eb & B1 & B2 & B3 & B4 & B5); [congruence|].
  assert (Hg : (getAddress s1).1 = (getAddress s).1).
  { apply getAddress_address; congruence. }
  assert (E2 : step s1 (TimerExpires (length (timers s))) = s2).
  { unfold step, after, task. rewrite Eb. apply drain_nil. congruence. }
  rewrite E2. rewrite F6 in *.
  split; [done|]. split; [done|]. split; [|done].
  exists a. split; [by rewrite <- Hg|].
  by apply new_log_app.
Qed.

Lemma unexpected_close_reconnects_witness :
  let s := run (sample getDefaults) [Boot; WsMessageEvent 0 WelcomeEvent] in
  (jobs s = [] /\ listening 0 s = true /\ state s <> Refreshing /\
   state s <> Closing /\ autoReconnect (options s) = true) /\
  state (step s (WsCloseEvent 0 VUndefined)) = Reconnecting.
Proof.
  intros s.
  assert (Hj : jobs s = []) by (vm_compute; reflexivity).
  assert (Hl : listening 0 s = true) by (vm_compute; reflexivity).
  assert (H1 : state s <> Refreshing) by (vm_compute; discriminate).
  assert (H2 : state s <> Closing) by (vm_compute; discriminate).
  assert (Ha : autoReconnect (options s) = true) by (vm_compute; reflexivity).
  exact (conj (conj Hj (conj Hl (conj H1 (conj H2 Ha))))
              (proj1 (unexpected_close_reconnects 0 VUndefined s Hj Hl H1 H2 Ha))).
Defined.

(** [close] with a transport. *)
Lemma close_with_transport ws s :
  socket s = Some ws ->
  close s = (Ret tt, set_state Closing (set_log (log s ++ [WsClose ws]) s)).
Proof. intros Hws. unfold close. rewrite bind_get, Hws. by unfold_M. Qed.

(** X12. [close] while listening to a transport closes the transport and
    sets the state to [Closing]; nothing is emitted and no timer is touched
    yet.  When the transport's close event arrives, 'close' and 'closed'
    are emitted, the state is [Closed], the keepalive timer and the
    reconnect timer are cleared, and no reconnect is scheduled even with
    [autoReconnect]. *)
Lemma graceful_close ws evt s :
  jobs s = [] -> listening ws s = true ->
  let s1 := step s Close in
  let s2 := step s1 (WsCloseEvent ws evt) in
  s1 = set_state Closing (set_log (log s ++ [WsClose ws]) s) /\
  state s2 = Closed /\
  new_log s1 s2 = [Emit "close" (AValue evt); Emit "closed" ANone] /\
  cleared (pingTimeoutHandle s) s2 /\ cleared (reconnectTimeout s) s2 /\
  length (timers s2) = length (timers s) /\
  reconnectTimeout s2 = reconnectTimeout s /\ socket s2 = Some ws.
Proof.
  intros Hj Hl. cbn zeta. pose proof (listening_socket ws s Hl) as Hws.
  assert (E1 : step s Close = set_state Closing (set_log (log s ++ [WsClose ws]) s)).
  { unfold step, after, task. rewrite (close_with_transport ws) by done.
    by rewrite drain_nil. }
  rewrite E1. split; [done|].
  set (s1 := set_state Closing _).
  assert (Hl1 : listening ws s1 = true) by done.
  assert (E2 : step s1 (WsCloseEvent ws evt) =
               (closeHandler evt (set_log (log s1 ++ [Emit "close" (AValue evt)]) s1)).2).
  { unfold step, after, task. rewrite ws_close_eq by done.
    rewrite closeHandler_closing by done. by rewrite drain_nil. }
  rewrite E2, closeHandler_closing by done. cbn [snd].
  split; [done|]. split.
  { apply new_log_app. cbn. by rewrite <- app_assoc. }
  split; [|split; [|split]].
  - cbn. apply clearTimeout_keeps_cleared, clearTimeout_cleared.
  - cbn. apply clearTimeout_cleared.
  - cbn. destruct (pingTimeoutHandle s), (reconnectTimeout s); cbn;
      by rewrite ?length_alter.
  - done.
Qed.

Lemma graceful_close_witness :
  let s := run (sample getDefaults) [Boot; WsMessageEvent 0 WelcomeEvent] in
  (jobs s = [] /\ listening 0 s = true) /\
  state (step (step s Close) (WsCloseEvent 0 VUndefined)) = Closed.
Proof.
  intros s.
  assert (Hj : jobs s = []) by (vm_compute; reflexivity).
  assert (Hl : listening 0 s = true) by (vm_compute; reflexivity).
  exact (conj (conj Hj Hl) (proj1 (proj2 (graceful_close 0 VUndefined s Hj Hl)))).
Defined.

(** ** Calls that never reach the server *)

(** X15. [call] made while connected or under [force] on an instance without
    a transport throws a [TypeError] out of [send]: no promise is returned,
    nothing is sent and no timeout is armed, but the entry registered under
    the freshly drawn id stays in the correlator map. *)
Lemma call_without_transport meth args opts s :
  jobs s = [] -> state s = Connected \/ force opts = true -> socket s = None ->
  let i := random s (draws s) in
  let c := length (calls s) in
  let s1 := step s (Call meth args opts) in
  (call meth args opts s).1 = Throw TypeError /\
  new_log s s1 = [Uncaught TypeError] /\
  replies s1 = <[i := {| r_call := c |}]> (replies s) /\
  calls s1 = calls s ++ [new_call i opts] /\
  timers s1 = timers s /\ queue s1 = queue s /\ jobs s1 = [].
Proof.
  intros Hj Hc Hws. cbn zeta.
  assert (E : step s (Call meth args opts) =
              set_log (log s ++ [Uncaught TypeError]) (call meth args opts s).2).
  { unfold step, after, task. unfold bind. rewrite call_without_socket by done.
    cbn. by rewrite drain_nil. }
  rewrite E, call_without_socket by done. cbn [fst snd].
  split; [done|]. split; [by apply new_log_app|]. done.
Qed.

Lemma call_without_transport_witness :
  let s := sample getDefaults in
  let opts := {| noReply := false; timeout := None; force := true |} in
  (jobs s = [] /\ force opts = true /\ socket s = None) /\
  (call "msg" [] opts s).1 = Throw TypeError.
Proof.
  intros s opts.
  assert (Hj : jobs s = []) by reflexivity.
  assert (Hws : socket s = None) by reflexivity.
  assert (Hf : force opts = true) by reflexivity.
  exact (conj (conj Hj (conj Hf Hws))
              (proj1 (call_without_transport "msg" [] opts s Hj (or_intror Hf) Hws))).
Defined.

(** X14. An 'auth' call made without [force] while the state is not
    [Connected] is neither sent nor spooled, yet its entry is registered and
    its timeout armed: when the timer expires the call is rejected with a
    [TimeoutError] and the entry removed, without a packet ever having been
    handed to the transport. *)
Lemma unforced_auth_call_times_out args opts s :
  jobs s = [] -> state s <> Connected -> force opts = false -> noReply opts = false ->
  let i := random s (draws s) in
  let c := length (calls s) in
  let h := length (timers s) in
  let s1 := step s (Call "auth" args opts) in
  let s2 := step s1 (TimerExpires h) in
  new_log s s1 = [SetTimeout h (CbCallTimeout c) (call_delay opts (options s))] /\
  queue s1 = queue s /\ replies s1 !! i = Some {| r_call := c |} /\
  c_result <$> calls s1 !! c = Some Pending /\
  c_result <$> calls s2 !! c = Some (Rejected TimeoutError) /\
  replies s2 !! i = None /\ log s2 = log s1 /\ queue s2 = queue s.
Proof.
  intros Hj Hst Hf Hn. cbn zeta.
  set (rec := new_call (random s (draws s)) opts).
  assert (E1 : step s (Call "auth" args opts) =
               (call_then (length (calls s))
                  (set_jobs [] (call "auth" args opts s).2)).2).
  { unfold step, after, task. unfold bind. rewrite call_auth_dropped by done.
    unfold ret. rewrite Hj. cbn [app snd].
    rewrite (drain_one _ (JCallThen (length (calls s)))); [done|done|].
    unfold run_job. rewrite (call_then_races _ rec); [done| |done|done].
    cbn. by rewrite lookup_app_r, Nat.sub_diag by lia. }
  rewrite E1, call_auth_dropped by done. cbn [snd]. clear E1.
  rewrite (call_then_races _ rec); [|cbn; by rewrite lookup_app_r, Nat.sub_diag by lia
                                    |done|done].
  cbn [snd].
  match goal with |- context [step ?x (TimerExpires _)] => set (s1 := x) end.
  assert (L1 : log s1 = log s ++ [SetTimeout (length (timers s))
                                    (CbCallTimeout (length (calls s)))
                                    (call_delay opts (options s))]) by done.
  assert (C1 : calls s1 = calls s ++ [with_phase Racing rec]).
  { subst s1. cbn. rewrite alter_app_r_alt by lia. by rewrite Nat.sub_diag. }
  assert (T1 : timers s1 = timers s ++ [{| t_cb := CbCallTimeout (length (calls s));
                                           t_delay := call_delay opts (options s);
                                           t_live := true |}]) by done.
  assert (R1 : replies s1 = <[random s (draws s) := {| r_call := length (calls s) |}]>
                              (replies s)) by done.
  assert (Q1 : queue s1 = queue s) by done.
  assert (J1 : jobs s1 = []) by done.
  revert L1 C1 T1 R1 Q1 J1. generalize s1. clear s1. intros s1 L1 C1 T1 R1 Q1 J1.
  assert (Hc1 : calls s1 !! length (calls s) = Some (with_phase Racing rec)).
  { by rewrite C1, lookup_app_r, Nat.sub_diag by lia. }
  assert (Ht1 : timers s1 !! length (timers s) =
                Some {| t_cb := CbCallTimeout (length (calls s));
                        t_delay := call_delay opts (options s); t_live := true |}).
  { by rewrite T1, lookup_app_r, Nat.sub_diag by lia. }
  rewrite (step_call_timeout s1 _ _ _ _ J1 Ht1 eq_refl eq_refl Hc1 eq_refl eq_refl).
  rewrite (new_log_app _ _ _ L1).
  cbn [calls replies log queue timers set_calls set_replies set_timers].
  split; [done|]. split; [done|]. split; [by rewrite R1, lookup_insert_eq|].
  split; [by rewrite Hc1|]. split; [by rewrite !list_lookup_alter_eq, Hc1|].
  split; [apply lookup_delete_eq|done].
Qed.

Lemma unforced_auth_call_times_out_witness :
  let s := run (sample getDefaults) [Boot] in
  (jobs s = [] /\ state s <> Connected) /\
  new_log s (step s (Call "auth" [ArgNumber 7] no_options)) =
    [SetTimeout (length (timers s)) (CbCallTimeout (length (calls s)))
       (call_delay no_options (options s))].
Proof.
  intros s.
  assert (Hj : jobs s = []) by (vm_compute; reflexivity).
  assert (Hst : state s <> Connected) by (vm_compute; discriminate).
  exact (conj (conj Hj Hst)
              (proj1 (unforced_auth_call_times_out [ArgNumber 7] no_options s
                        Hj Hst eq_refl eq_refl))).
Defined.

(** ** A reply and the timeout of its call *)

(** X16. A call that waits for its reply is settled by the reply packet with
    its id, fulfilled with the data or rejected with the error of the
    packet, and its entry is removed; the timeout armed for the call is not
    cleared, but when it expires later it changes neither the result of the
    call nor anything else but the timer itself. *)
Lemma reply_settles_call_once meth args opts s ws f packet :
  jobs s = [] -> state s = Connected \/ force opts = true ->
  socket s = Some ws -> noReply opts = false ->
  binary f = false -> parsed f = Some (PPacket packet) -> p_type packet = "reply" ->
  p_id packet = random s (draws s) ->
  let i := random s (draws s) in
  let c := length (calls s) in
  let h := length (timers s) in
  let s1 := step s (Call meth args opts) in
  let s2 := step s1 (ParsePacket f) in
  let s3 := step s2 (TimerExpires h) in
  c_result <$> calls s2 !! c = Some (outcome (reply_outcome packet)) /\
  replies s2 !! i = None /\
  new_log s1 s2 = [Emit "debug" (AIn packet)] /\
  t_live <$> timers s2 !! h = Some true /\
  calls s3 = calls s2 /\ replies s3 = replies s2 /\ log s3 = log s2 /\
  t_live <$> timers s3 !! h = Some false.
Proof.
  intros Hj Hc Hws Hn Hb Hp Hty Hid. cbn zeta.
  rewrite (step_call_races _ _ _ _ ws) by done.
  set (rec := with_phase Racing (new_call (random s (draws s)) opts)).
  match goal with |- context [step ?x (ParsePacket _)] => set (s1 := x) end.
  assert (C1 : calls s1 = calls s ++ [rec]) by done.
  assert (T1 : timers s1 = timers s ++ [{| t_cb := CbCallTimeout (length (calls s));
                                           t_delay := call_delay opts (options s);
                                           t_live := true |}]) by done.
  assert (R1 : replies s1 = <[random s (draws s) := {| r_call := length (calls s) |}]>
                              (replies s)) by done.
  assert (J1 : jobs s1 = []) by done.
  revert C1 T1 R1 J1. generalize s1. clear s1. intros s1 C1 T1 R1 J1.
  assert (Hc1 : calls s1 !! length (calls s) = Some rec).
  { by rewrite C1, lookup_app_r, Nat.sub_diag by lia. }
  assert (Hr1 : replies s1 !! p_id packet = Some {| r_call := length (calls s) |}).
  { by rewrite Hid, R1, lookup_insert_eq. }
  set (rec2 := with_phase Done (with_replyPromise (Some (reply_outcome packet)) rec)).
  assert (E2 : step s1 (ParsePacket f) =
               (call_catch (length (calls s)) (outcome (reply_outcome packet))
                  (set_jobs [] (parsePacket f s1).2)).2).
  { unfold step, after, task.
    rewrite (parsePacket_matched f packet _ rec) by done. cbn [snd].
    rewrite J1. cbn [app].
    rewrite (drain_one _ (JCallSettle (length (calls s)) (outcome (reply_outcome packet))));
      [done|done|].
    unfold run_job. rewrite (call_catch_other _ rec2); [done| |done|].
    - cbn. by rewrite !list_lookup_alter_eq, Hc1.
    - intros e He. destruct (reply_outcome packet); by inversion He. }
  rewrite E2, (parsePacket_matched f packet _ rec) by done. cbn [snd]. clear E2.
  rewrite (call_catch_other _ rec2);
    [|cbn; by rewrite !list_lookup_alter_eq, Hc1|done
     |intros e He; destruct (reply_outcome packet); by inversion He].
  cbn [snd].
  match goal with |- context [step ?x (TimerExpires _)] => set (s2 := x) end.
  assert (C2 : calls s2 = alter (with_result (outcome (reply_outcome packet)))
                            (length (calls s))
                            (alter (with_phase Done) (length (calls s))
                               (alter (with_replyPromise (Some (reply_outcome packet)))
                                  (length (calls s)) (calls s1)))) by done.
  assert (R2 : replies s2 = delete (p_id packet) (replies s1)) by done.
  assert (L2 : log s2 = log s1 ++ [Emit "debug" (AIn packet)]) by done.
  assert (T2 : timers s2 = timers s1) by done.
  assert (J2 : jobs s2 = []) by done.
  revert C2 R2 L2 T2 J2. generalize s2. clear s2. intros s2 C2 R2 L2 T2 J2.
  assert (Ht2 : timers s2 !! length (timers s) =
                Some {| t_cb := CbCallTimeout (length (calls s));
                        t_delay := call_delay opts (options s); t_live := true |}).
  { by rewrite T2, T1, lookup_app_r, Nat.sub_diag by lia. }
  assert (Hc2 : calls s2 !! length (calls s) =
                Some (with_result (outcome (reply_outcome packet)) rec2)).
  { by rewrite C2, !list_lookup_alter_eq, Hc1. }
  assert (E3 : step s2 (TimerExpires (length (timers s))) =
               set_timers (alter disarm (length (timers s)) (timers s2)) s2).
  { unfold step, after, task. rewrite (fire_live s2 _ _ Ht2 eq_refl).
    cbn [t_cb run_timer]. unfold timeout_call. rewrite bind_get.
    cbn [calls clearTimeout snd modify set_timers]. rewrite Hc2. cbn.
    by rewrite drain_nil. }
  rewrite E3. cbn [calls replies log timers set_timers].
  rewrite (new_log_app _ _ _ L2), Hc2, Ht2, list_lookup_alter_eq, Ht2, R2, <- Hid.
  cbn. split; [done|]. split; [apply lookup_delete_eq|]. done.
Qed.

Lemma reply_settles_call_once_witness :
  let s := run (sample getDefaults) [Boot; WsMessageEvent 0 WelcomeEvent] in
  (jobs s = [] /\ state s = Connected /\ socket s = Some 0) /\
  c_result <$> calls (step (step s (Call "msg" [] no_options))
                        (ParsePacket (reply_ok 100))) !! length (calls s) =
    Some (Fulfilled (VJson "{}")).
Proof.
  intros s.
  assert (Hj : jobs s = []) by (vm_compute; reflexivity).
  assert (Hst : state s = Connected) by (vm_compute; reflexivity).
  assert (Hws : socket s = Some 0) by (vm_compute; reflexivity).
  assert (Hid : 100%Z = random s (draws s)) by (vm_compute; reflexivity).
  exact (conj (conj Hj (conj Hst Hws))
              (proj1 (reply_settles_call_once "msg" [] no_options s 0 (reply_ok 100) _
                        Hj (or_introl Hst) Hws eq_refl eq_refl eq_refl eq_refl Hid))).
Defined.


(** ** The state [Refreshing] *)

(** [boot] in [Closing]: a transport is opened and stored, without
    listeners. *)
Lemma boot_closing s :
  state s = Closing ->
  exists a s',
    (getAddress s).1 = Ret a /\
    boot s = (Ret tt, s') /\ state s' = Refreshing /\
    socket s' = Some (length (sockets s)) /\
    sockets s' = sockets s ++ [{| ws_address := a; ws_wired := false; ws_pong := [] |}].
Proof.
  intros Hst. unfold boot.
  assert (G : exists a s0, getAddress s = (Ret a, s0) /\
                state s0 = state s /\ sockets s0 = sockets s).
  { unfold getAddress; unfold_M; cbn. destruct (bool_decide _); cbn; by eexists _, _. }
  destruct G as (a & s0 & E & G1 & G2).
  rewrite E. cbn [fst]. exists a. erewrite bind_Ret by exact E.
  unfold new_Socket. exec. unfold effect. exec.
  cbn [state set_socket set_log set_sockets]. rewrite G1, decide_True by done.
  eexists. split; [done|]. split; [reflexivity|]. cbn. by rewrite G2.
Qed.

#[local] Instance R_refreshing_preorder : PreOrder R_refreshing.
Proof. split; unfold R_refreshing; [intros ?; auto|intros ???; auto]. Qed.

Lemma R_refreshing_other s s' : state s' <> Refreshing -> R_refreshing s s'.
Proof. intros H _ H'. done. Qed.

Lemma R_refreshing_same s s' :
  state s' = state s -> socket s' = socket s -> sockets s' = sockets s ->
  R_refreshing s s'.
Proof.
  intros H1 H2 H3 K Hst ws. rewrite H1 in Hst. specialize (K Hst ws).
  unfold listening in *. by rewrite H2, H3.
Qed.

Lemma R_refreshing_pong s s' ws f :
  (forall x, ws_wired (f x) = ws_wired x) ->
  sockets s' = alter f ws (sockets s) ->
  state s' = state s -> socket s' = socket s -> R_refreshing s s'.
Proof.
  intros Hf H3 H1 H2 K Hst ws'. rewrite H1 in Hst. specialize (K Hst ws').
  unfold listening in *. rewrite H2, H3.
  destruct (decide (ws = ws')) as [->|Hne].
  - rewrite list_lookup_alter_eq. destruct (sockets s !! ws'); cbn in *; [|done].
    by rewrite Hf.
  - by rewrite list_lookup_alter_ne.
Qed.

Lemma refreshing_boot : preserves R_refreshing boot.
Proof.
  intros s. destruct (decide (state s = Closing)) as [Hst|Hst].
  - destruct (boot_closing s Hst) as (a & s' & _ & -> & H1 & H2 & H3). cbn [snd].
    intros _ _ ws. unfold listening. rewrite H2, H3.
    destruct (decide (ws = length (sockets s))) as [->|Hne].
    + by rewrite lookup_app_r, Nat.sub_diag by lia.
    + rewrite bool_decide_eq_false_2 by congruence. apply andb_false_r.
  - destruct (boot_connecting s Hst) as (a & s' & _ & -> & H1 & _). cbn [snd].
    apply R_refreshing_other. by rewrite H1.
Qed.

Ltac leaf_refreshing :=
  first
    [ by apply R_refreshing_other
    | by apply R_refreshing_same
    | by eapply R_refreshing_pong; [|reflexivity|..] ].

Ltac known_refreshing :=
  idtac;
  lazymatch goal with
  | |- preserves _ boot => apply refreshing_boot
  end.

Lemma refreshing_task ev : preserves R_refreshing (task ev).
Proof. destruct ev; cbn [task]; pres known_refreshing leaf_refreshing. Qed.

Lemma refreshing_run_job j : preserves R_refreshing (run_job j).
Proof. destruct j; unfold run_job; pres known_refreshing leaf_refreshing. Qed.

Lemma refreshing_unwired_run s evs :
  refreshing_unwired s -> refreshing_unwired (run s evs).
Proof.
  apply (preserves_run R_refreshing); auto using refreshing_task, refreshing_run_job.
  all: intros; leaf_refreshing.
Qed.

(** X13. Whatever was done with an instance since it was constructed: while
    its state is [Refreshing], the 'open', 'message', 'close' and 'error'
    events of every transport, the current one included, leave it exactly
    as it is.  So the close of the transport never takes the instance from
    [Refreshing] to [Idle] and on to a new connection. *)
Lemma refreshing_ignores_transports eps opts offset rnd evs ws :
  let s := run (new_ChatSocket eps opts offset rnd) evs in
  state s = Refreshing ->
  step s (WsOpenEvent ws) = s /\
  (forall f, step s (WsMessageEvent ws f) = s) /\
  (forall evt, step s (WsCloseEvent ws evt) = s) /\
  (forall err, step s (WsErrorEvent ws err) = s).
Proof.
  intros s Hst.
  assert (Hj : jobs s = []) by (by apply run_quiescent).
  assert (Hl : listening ws s = false).
  { apply refreshing_unwired_run; [|done]. intros H. done. }
  unfold step, after, task, ws_on_open, ws_on_message, ws_on_close, ws_on_error.
  repeat split; intros; rewrite whilstSameSocket_eq, Hl; by rewrite drain_nil.
Qed.

Lemma refreshing_ignores_transports_witness :
  let s := run (sample getDefaults) [Boot; Close; Boot] in
  state s = Refreshing /\ step s (WsCloseEvent 1 VUndefined) = s.
Proof.
  assert (Hst : state (run (sample getDefaults) [Boot; Close; Boot]) = Refreshing)
    by (vm_compute; reflexivity).
  pose proof (refreshing_ignores_transports
                ["wss://chat1"; "wss://chat2"; "wss://chat3"] getDefaults 2
                (fun n => Z.of_nat (100 + n)) [Boot; Close; Boot] 1 Hst) as H.
  exact (conj Hst (proj1 (proj2 (proj2 H)) VUndefined)).
Defined.


(** ** One 'WelcomeEvent' listener per [boot] *)

Lemma readies_app l1 l2 : readies (l1 ++ l2) = readies l1 + readies l2.
Proof. unfold readies. by rewrite emitted_app, filter_app, length_app. Qed.

Lemma readies_flush ws (q : list (string * ISpooledMethod)) :
  readies (concat (flush_log ws <$> q)) = 0.
Proof.
  induction q as [|kv q IH]; [done|]. cbn [fmap list_fmap concat].
  by rewrite readies_app, IH.
Qed.

#[local] Instance R_noready_preorder : PreOrder R_noready.
Proof.
  split.
  - intros s. exists []. by rewrite app_nil_r.
  - intros s1 s2 s3 (l1 & E1 & N1 & W1) (l2 & E2 & N2 & W2).
    exists (l1 ++ l2). rewrite E2, E1, app_assoc, readies_app, N1, N2. split; [done|].
    split; [done|congruence].
Qed.

Lemma R_noready_same s s' :
  log s' = log s -> welcomeOnce s' = welcomeOnce s -> R_noready s s'.
Proof. intros Hl Hw. exists []. by rewrite app_nil_r. Qed.

Lemma R_noready_effect s s' e :
  log s' = log s ++ [e] -> readies [e] = 0 -> welcomeOnce s' = welcomeOnce s ->
  R_noready s s'.
Proof. intros Hl He Hw. by exists [e]. Qed.

Lemma noready_emit name a : name <> "ready" -> preserves R_noready (emit name a).
Proof.
  intros Hne s. destruct (decide (name = "authResult")) as [->|Hna].
  - rewrite emit_authResult_eq. cbn [snd]. by eapply R_noready_effect.
  - destruct (emit_cases name a s Hna) as [->|(_ & _ & ->)]; cbn [snd];
      [|reflexivity].
    eapply R_noready_effect; [done| |done].
    unfold readies. change (emitted [Emit name a]) with [name].
    by rewrite filter_cons_False.
Qed.

Ltac leaf_noready :=
  first
    [ by apply R_noready_same
    | by eapply R_noready_effect; [reflexivity|..] ].

Ltac known_noready :=
  idtac;
  lazymatch goal with
  | |- preserves _ (emit _ _) => by apply noready_emit
  end.

Lemma noready_run_job j : preserves R_noready (run_job j).
Proof. destruct j; unfold run_job; pres known_noready leaf_noready. Qed.

Lemma noready_drain s : R_noready s (drain s).
Proof.
  unfold drain. apply preserves_run_jobs; [apply _|apply noready_run_job|].
  intros; leaf_noready.
Qed.

(** One listener run with a transport at hand: it returns, and emits 'ready'
    once. *)
Lemma welcomeHandler_ready data ws s :
  socket s = Some ws ->
  exists s' l,
    welcomeHandler data s = (Ret tt, s') /\ log s' = log s ++ l /\
    readies l = 1 /\ socket s' = Some ws /\ welcomeOnce s' = welcomeOnce s.
Proof.
  intros Hws. unfold welcomeHandler. exec.
  assert (Hpre : exists s0 l0,
            (forall k : unit -> M unit,
               bind (if decide (state (set_attempts
                                         (policy_reset (reconnectionPolicy (options s))
                                            (attempts s)) s) = Reconnecting)
                     then emit "reconnected" ANone else ret tt) k
                 (set_attempts (policy_reset (reconnectionPolicy (options s))
                                  (attempts s)) s) = k tt s0) /\
            log s0 = log s ++ l0 /\ readies l0 = 0 /\ socket s0 = Some ws /\
            welcomeOnce s0 = welcomeOnce s /\
            pingInterval (options s0) = pingInterval (options s)).
  { rewrite state_set_attempts. destruct (decide (state s = Reconnecting)).
    - eexists _, [Emit "reconnected" ANone]. split.
      + intros k. erewrite bind_Ret by (by apply emit_eq). reflexivity.
      + done.
    - eexists _, []. split; [intros k; by rewrite bind_ret|].
      cbn. by rewrite app_nil_r. }
  destruct Hpre as (s0 & l0 & -> & L0 & N0 & K0 & W0 & _).
  exec. erewrite bind_Ret by apply resetPingTimeout_eq. exec.
  erewrite bind_Ret by (by apply emit_eq).
  match goal with |- exists s' l, unSpool ?x = _ /\ _ => set (s1 := x) end.
  assert (F : exists l1, log s1 = log s ++ l1 /\ readies l1 = 1 /\
                         socket s1 = Some ws /\ welcomeOnce s1 = welcomeOnce s).
  { exists (l0 ++ [SetTimeout (length (timers s0)) CbPing (pingInterval (options s0));
                   Emit "ready" (AValue data)]).
    subst s1. cbn. rewrite L0, <- !app_assoc.
    split; [reflexivity|]. rewrite readies_app, N0. done. }
  revert F. generalize s1. clear s1. intros s1 (l1 & L1 & N1 & K1 & W1).
  destruct (authPacket s1) as [args|] eqn:Ha.
  - rewrite (unSpool_reauth args s1 ws) by done.
    eexists _, (l1 ++ [WsSend ws {| method := "auth"; arguments := args;
                                    id := random s1 (draws s1) |};
                       Emit "debug" (AOut {| method := "auth"; arguments := args;
                                             id := random s1 (draws s1) |})]).
    split; [reflexivity|]. cbn.
    rewrite L1, <- app_assoc, readies_app, N1. done.
  - rewrite unSpool_anonymous by done.
    destruct (sendPackets_eq s1 ws K1) as (js & -> & _).
    eexists _, (l1 ++ concat (flush_log ws <$> queue s1) ++ [connected]).
    split; [reflexivity|]. cbn. rewrite L1, <- app_assoc.
    split; [reflexivity|]. rewrite !readies_app, N1, readies_flush. done.
Qed.

(** All listeners left by [boot] are run, one after the other. *)
Lemma welcome_listeners_run a ws k : forall s,
  socket s = Some ws -> k <= welcomeOnce s ->
  exists s' l,
    repeat_M k (modify (fun s => set_welcomeOnce (pred (welcomeOnce s)) s) ;;
                welcomeHandler a) s = (Ret tt, s') /\
    log s' = log s ++ l /\ readies l = k /\ socket s' = Some ws /\
    welcomeOnce s' = welcomeOnce s - k.
Proof.
  induction k as [|k IH]; intros s Hws Hk; cbn [repeat_M].
  - exists s, []. rewrite app_nil_r, Nat.sub_0_r. done.
  - exec.
    destruct (welcomeHandler_ready a ws (set_welcomeOnce (pred (welcomeOnce s)) s))
      as (s1 & l1 & E1 & L1 & N1 & K1 & W1); [done|].
    erewrite bind_Ret by exact E1. cbn in L1, W1.
    destruct (IH s1) as (s2 & l2 & E2 & L2 & N2 & K2 & W2); [done|lia|].
    exists s2, (l1 ++ l2). rewrite E2, L2, L1, <- app_assoc, readies_app, N1, N2, W2, W1.
    repeat split; try done. lia.
Qed.

(** X17. Every [boot] outside [Closing] leaves one more 'WelcomeEvent'
    listener, and a listener is removed only by running: when the welcome
    frame arrives on the current transport, all of them run, so 'ready' is
    emitted as many times as there were listeners, and none is left. *)
Lemma welcome_runs_every_listener ws f packet s :
  listening ws s = true ->
  binary f = false -> parsed f = Some (PPacket packet) -> p_type packet = "event" ->
  p_event packet = "WelcomeEvent" ->
  readies (new_log s (step s (WsMessageEvent ws f))) = welcomeOnce s /\
  welcomeOnce (step s (WsMessageEvent ws f)) = 0 /\
  (state s <> Closing -> welcomeOnce (step s Boot) = S (welcomeOnce s)).
Proof.
  intros Hl Hb Hp Ht He. pose proof (listening_socket ws s Hl) as Hws.
  assert (H : exists s' l, ws_on_message ws f s = (Ret tt, s') /\
                log s' = log s ++ l /\ readies l = welcomeOnce s /\
                welcomeOnce s' = 0).
  { unfold ws_on_message. rewrite whilstSameSocket_eq, Hl.
    erewrite bind_Ret by apply resetPingTimeout_eq.
    rewrite (parsePacket_event f packet) by done. rewrite He.
    unfold emit_event. erewrite bind_Ret by (by apply emit_eq).
    cbn [String.eqb Ascii.eqb Bool.eqb]. rewrite bind_get.
    match goal with |- context [repeat_M _ _ ?x] => set (s1 := x) end.
    assert (F : log s1 = log s ++ [SetTimeout (length (timers s)) CbPing
                                     (pingInterval (options s));
                                   Emit "debug" (AIn packet);
                                   Emit "WelcomeEvent" (AValue (VJson (p_data packet)))]
                /\ socket s1 = Some ws /\ welcomeOnce s1 = welcomeOnce s).
    { subst s1. cbn. by rewrite <- !app_assoc. }
    revert F. generalize s1. clear s1. intros s1 (L1 & K1 & W1).
    destruct (welcome_listeners_run (VJson (p_data packet)) ws
                (welcomeOnce s1) s1) as (s2 & l2 & E2 & L2 & N2 & _ & W2); [done|lia|].
    cbn [arg_value]. rewrite E2.
    eexists _, (_ ++ l2). split; [reflexivity|]. rewrite L2, L1, <- app_assoc.
    split; [reflexivity|]. rewrite readies_app, N2, W2, W1. split; [done|lia]. }
  destruct H as (s' & l & E & L & N & W).
  assert (E' : step s (WsMessageEvent ws f) = drain s').
  { unfold step, after, task. by rewrite E. }
  rewrite E'. destruct (noready_drain s') as (l' & L' & N' & W').
  split; [|split].
  - rewrite (new_log_app s _ (l ++ l')); [by rewrite readies_app, N, N'|].
    by rewrite L', L, <- app_assoc.
  - congruence.
  - intros Hst. destruct (boot_connecting s Hst) as (a & s2 & _ & Eb & B).
    assert (Ew : welcomeOnce (step s Boot) = welcomeOnce s2).
    { unfold step, after, task. rewrite Eb.
      destruct (noready_drain s2) as (? & _ & _ & ->). done. }
    rewrite Ew. tauto.
Qed.

Lemma welcome_runs_every_listener_witness :
  let s := run (sample getDefaults)
             [Boot; WsCloseEvent 0 VUndefined; TimerExpires 0] in
  listening 1 s = true /\
  readies (new_log s (step s (WsMessageEvent 1 WelcomeEvent))) = welcomeOnce s.
Proof.
  intros s.
  assert (Hl : listening 1 s = true) by (vm_compute; reflexivity).
  exact (conj Hl (proj1 (welcome_runs_every_listener 1 WelcomeEvent _ s Hl
                           eq_refl eq_refl eq_refl eq_refl))).
Defined.

(** On a trace: the first connection attempt fails, the second succeeds; the
    handshake is run twice. *)
Example welcome_twice_trace :
  let s := run (sample getDefaults)
             [Boot; Auth 7 None None; WsCloseEvent 0 VUndefined; TimerExpires 0] in
  let s' := step s (WsMessageEvent 1 WelcomeEvent) in
  welcomeOnce s = 2 /\
  filter (fun name => name <> "debug") (emitted (new_log s s')) =
    ["WelcomeEvent"; "ready"; "ready"] /\
  (fun d => (method d, id d)) <$> sent (new_log s s') = [("auth", 100%Z); ("auth", 101%Z)].
Proof. vm_compute. done. Qed.
